(** * csim.c: an LRU, write-back, write-allocate cache simulator

    A shallow embedding of [csim.c].  The C program keeps every cache set as
    a singly linked list of heap-allocated blocks and performs manual pointer
    surgery on it, so the embedding keeps the heap: blocks, sets and the
    array of set pointers live in finite maps indexed by addresses, [NULL] is
    [None], and every C function is a computation in a state-and-error monad
    over that memory.  Dereferencing [NULL] or a freed address is a [Fault];
    list walks are bounded by a fuel argument and give [Timeout] when it
    runs out. *)

From Stdlib Require Import ZArith Ascii String Lia.
From stdpp Require Import base option list gmap fin_maps.

Local Open Scope Z_scope.

(** ** Machine integers *)

(** [int] is 32 bits wide, two's complement; [unsigned long] is 64 bits
    wide.  Arithmetic is carried out in [Z] and wrapped explicitly.

    The program shifts by the option values [s] and [b], which it never
    checks.  C leaves a shift by a count outside the width of the shifted
    operand undefined; the embedding follows the x86-64 shift instructions
    the program is compiled to, which take the count modulo the width: a
    shift of an [int] is by the count [mod 32], a shift of an
    [unsigned long] by the count [mod 64]. *)
Definition wrap_int (z : Z) : Z := (z + 2 ^ 31) mod 2 ^ 32 - 2 ^ 31.
Definition wrap_ulong (z : Z) : Z := z mod 2 ^ 64.

Definition INT_MAX : Z := 2 ^ 31 - 1.
Definition ULONG_MAX : Z := 2 ^ 64 - 1.

(** ** Data structures *)

(** Addresses are positive numbers; a pointer is an address or [NULL]. *)
Abbreviation loc := positive (only parsing).
Abbreviation ptr := (option positive) (only parsing).

Definition ptr_eqb (p q : ptr) : bool := bool_decide (p = q).

(** [typedef struct cache_block { unsigned long tag; unsigned dirty;
    struct cache_block *next; } cache_block_t;] *)
Record cache_block_t := CacheBlock {
  b_tag : Z;
  b_dirty : Z;
  b_next : ptr
}.

(** [typedef struct cache_set { cache_block_t *head; cache_block_t *curr;
    int size; cache_block_t *tail; } cache_set_t;] *)
Record cache_set_t := CacheSet {
  s_head : ptr;
  s_curr : ptr;
  s_size : Z;
  s_tail : ptr
}.

(** The summary record of [cachelab.h] handed to [printSummary]. *)
Record csim_stats_t := CsimStats {
  hits : Z;
  misses : Z;
  evictions : Z;
  dirty_bytes : Z;
  dirty_evictions : Z
}.

(** One parsed line of the trace file: ["%c %lx, %d\n"]. *)
Record event := Event {
  ev_operator : ascii;
  ev_address : Z;
  ev_size : Z
}.

(** What the program writes to standard output, one constructor per
    [printf] / [printSummary] call site. *)
Inductive output :=
| MissingArgument (name : string)
| FileCanNotBeOpened
| InvalidOperation (c : ascii)
| VerboseLine (operator : ascii) (address size : Z) (msg : string)
| Summary (stats : csim_stats_t).

(** ** Memory *)

(** The heap is split by object type.  [brk] is the next address [malloc]
    hands out; [grants] is the number of allocation requests the system
    still serves before [malloc] starts returning [NULL]. *)
Record state := State {
  blocks : gmap loc cache_block_t;
  sets : gmap loc cache_set_t;
  arrays : gmap loc (list ptr);
  records : gmap loc csim_stats_t;
  brk : loc;
  grants : nat;
  stdout : list output
}.

Definition with_blocks (f : gmap loc cache_block_t → gmap loc cache_block_t)
    (m : state) : state :=
  State (f (blocks m)) (sets m) (arrays m) (records m) (brk m) (grants m) (stdout m).
Definition with_sets (f : gmap loc cache_set_t → gmap loc cache_set_t)
    (m : state) : state :=
  State (blocks m) (f (sets m)) (arrays m) (records m) (brk m) (grants m) (stdout m).
Definition with_arrays (f : gmap loc (list ptr) → gmap loc (list ptr))
    (m : state) : state :=
  State (blocks m) (sets m) (f (arrays m)) (records m) (brk m) (grants m) (stdout m).
Definition with_records (f : gmap loc csim_stats_t → gmap loc csim_stats_t)
    (m : state) : state :=
  State (blocks m) (sets m) (arrays m) (f (records m)) (brk m) (grants m) (stdout m).

Arguments with_blocks f m /.
Arguments with_sets f m /.
Arguments with_arrays f m /.
Arguments with_records f m /.

(** ** The monad *)

Inductive result (A : Type) : Type :=
| Ok (a : A) (m : state)
| Fault
| Timeout.
Arguments Ok {A} a m.
Arguments Fault {A}.
Arguments Timeout {A}.

Definition M (A : Type) : Type := state → result A.

Definition ret {A} (a : A) : M A := fun m => Ok a m.
Definition bind {A B} (c : M A) (k : A → M B) : M B :=
  fun m => match c m with
           | Ok a m' => k a m'
           | Fault => Fault
           | Timeout => Timeout
           end.
Definition fault {A} : M A := fun _ => Fault.
Definition timeout {A} : M A := fun _ => Timeout.

Declare Scope csim_scope.
Delimit Scope csim_scope with csim.
Notation "x <- c ;; k" := (bind c (fun x => k))
  (at level 100, c at next level, right associativity) : csim_scope.
Notation "c ;; k" := (bind c (fun _ => k))
  (at level 100, right associativity) : csim_scope.
Local Open Scope csim_scope.

(** [while (cond) body] over the local variables [s]. *)
Fixpoint while {S : Type} (fuel : nat) (cond : S → M bool) (body : S → M S)
    (s : S) : M S :=
  match fuel with
  | O => timeout
  | Datatypes.S fuel' =>
      c <- cond s ;;
      if c then s' <- body s ;; while fuel' cond body s' else ret s
  end.

(** [for (i = lo; i < lo + n; i++) body], where [body] may [return] from the
    enclosing function by yielding [Some r]. *)
Fixpoint for_range {R : Type} (n : nat) (i : Z) (body : Z → M (option R))
    : M (option R) :=
  match n with
  | O => ret None
  | Datatypes.S n' =>
      r <- body i ;;
      match r with
      | Some _ => ret r
      | None => for_range n' (i + 1) body
      end
  end.

(** [for (i = lo; i < lo + n; i++) s = body(i, s)] *)
Fixpoint for_fold {S : Type} (n : nat) (i : Z) (body : Z → S → M S) (s : S)
    : M S :=
  match n with
  | O => ret s
  | Datatypes.S n' => s' <- body i s ;; for_fold n' (i + 1) body s'
  end.

(** *** Primitive memory operations *)

Definition malloc : M ptr := fun m =>
  match grants m with
  | O => Ok None m
  | Datatypes.S g =>
      Ok (Some (brk m))
         (State (blocks m) (sets m) (arrays m) (records m)
                (Pos.succ (brk m)) g (stdout m))
  end.

(** [malloc(sizeof(cache_block_t))]: the fresh object starts zeroed; every
    field is assigned by the caller before it is read. *)
Definition malloc_block : M ptr :=
  p <- malloc ;;
  match p with
  | None => ret None
  | Some a => fun m => Ok p (with_blocks <[a := CacheBlock 0 0 None]> m)
  end.

Definition malloc_set : M ptr :=
  p <- malloc ;;
  match p with
  | None => ret None
  | Some a => fun m => Ok p (with_sets <[a := CacheSet None None 0 None]> m)
  end.

Definition malloc_stats : M ptr :=
  p <- malloc ;;
  match p with
  | None => ret None
  | Some a => fun m => Ok p (with_records <[a := CsimStats 0 0 0 0 0]> m)
  end.

(** [calloc(n, ...)]: an array of [n] set pointers, all [NULL]. *)
Definition calloc (n : Z) : M ptr :=
  p <- malloc ;;
  match p with
  | None => ret None
  | Some a => fun m => Ok p (with_arrays <[a := replicate (Z.to_nat n) None]> m)
  end.

Definition load_block (p : ptr) : M cache_block_t := fun m =>
  match p with
  | Some a => match blocks m !! a with Some b => Ok b m | None => Fault end
  | None => Fault
  end.
Definition store_block (p : ptr) (b : cache_block_t) : M unit := fun m =>
  match p with
  | Some a => match blocks m !! a with
              | Some _ => Ok tt (with_blocks <[a := b]> m)
              | None => Fault
              end
  | None => Fault
  end.

Definition load_set (p : ptr) : M cache_set_t := fun m =>
  match p with
  | Some a => match sets m !! a with Some s => Ok s m | None => Fault end
  | None => Fault
  end.
Definition store_set (p : ptr) (s : cache_set_t) : M unit := fun m =>
  match p with
  | Some a => match sets m !! a with
              | Some _ => Ok tt (with_sets <[a := s]> m)
              | None => Fault
              end
  | None => Fault
  end.

(** [free(p)]: [free(NULL)] does nothing, freeing anything that is not a
    live object is a fault. *)
Definition free_block (p : ptr) : M unit := fun m =>
  match p with
  | Some a => match blocks m !! a with
              | Some _ => Ok tt (with_blocks (delete a) m)
              | None => Fault
              end
  | None => Ok tt m
  end.
Definition free_set (p : ptr) : M unit := fun m =>
  match p with
  | Some a => match sets m !! a with
              | Some _ => Ok tt (with_sets (delete a) m)
              | None => Fault
              end
  | None => Ok tt m
  end.
Definition free_array (p : ptr) : M unit := fun m =>
  match p with
  | Some a => match arrays m !! a with
              | Some _ => Ok tt (with_arrays (delete a) m)
              | None => Fault
              end
  | None => Ok tt m
  end.
Definition free_stats (p : ptr) : M unit := fun m =>
  match p with
  | Some a => match records m !! a with
              | Some _ => Ok tt (with_records (delete a) m)
              | None => Fault
              end
  | None => Ok tt m
  end.

(** Field reads and writes: [p->f] and [p->f = v]. *)
Definition rd_tag (p : ptr) : M Z := b <- load_block p ;; ret (b_tag b).
Definition rd_dirty (p : ptr) : M Z := b <- load_block p ;; ret (b_dirty b).
Definition rd_next (p : ptr) : M ptr := b <- load_block p ;; ret (b_next b).
Definition wr_tag (p : ptr) (v : Z) : M unit :=
  b <- load_block p ;; store_block p (CacheBlock v (b_dirty b) (b_next b)).
Definition wr_dirty (p : ptr) (v : Z) : M unit :=
  b <- load_block p ;; store_block p (CacheBlock (b_tag b) v (b_next b)).
Definition wr_next (p : ptr) (v : ptr) : M unit :=
  b <- load_block p ;; store_block p (CacheBlock (b_tag b) (b_dirty b) v).

Definition rd_head (p : ptr) : M ptr := s <- load_set p ;; ret (s_head s).
Definition rd_curr (p : ptr) : M ptr := s <- load_set p ;; ret (s_curr s).
Definition rd_size (p : ptr) : M Z := s <- load_set p ;; ret (s_size s).
Definition rd_tail (p : ptr) : M ptr := s <- load_set p ;; ret (s_tail s).
Definition wr_head (p : ptr) (v : ptr) : M unit :=
  s <- load_set p ;; store_set p (CacheSet v (s_curr s) (s_size s) (s_tail s)).
Definition wr_curr (p : ptr) (v : ptr) : M unit :=
  s <- load_set p ;; store_set p (CacheSet (s_head s) v (s_size s) (s_tail s)).
Definition wr_size (p : ptr) (v : Z) : M unit :=
  s <- load_set p ;; store_set p (CacheSet (s_head s) (s_curr s) v (s_tail s)).
Definition wr_tail (p : ptr) (v : ptr) : M unit :=
  s <- load_set p ;; store_set p (CacheSet (s_head s) (s_curr s) (s_size s) v).

(** [cache[i]] and [cache[i] = v]; an index outside the array is a fault. *)
Definition rd_index (cache : ptr) (i : Z) : M ptr := fun m =>
  match cache with
  | Some a =>
      match arrays m !! a with
      | Some arr =>
          if (0 <=? i) && (i <? Z.of_nat (length arr))
          then Ok (default None (arr !! Z.to_nat i)) m
          else Fault
      | None => Fault
      end
  | None => Fault
  end.
Definition wr_index (cache : ptr) (i : Z) (v : ptr) : M unit := fun m =>
  match cache with
  | Some a =>
      match arrays m !! a with
      | Some arr =>
          if (0 <=? i) && (i <? Z.of_nat (length arr))
          then Ok tt (with_arrays <[a := <[Z.to_nat i := v]> arr]> m)
          else Fault
      | None => Fault
      end
  | None => Fault
  end.

Definition printf (o : output) : M unit := fun m =>
  Ok tt (State (blocks m) (sets m) (arrays m) (records m) (brk m) (grants m)
               (stdout m ++ [o])).

Definition load_stats (p : ptr) : M csim_stats_t := fun m =>
  match p with
  | Some a => match records m !! a with Some s => Ok s m | None => Fault end
  | None => Fault
  end.
Definition store_stats (p : ptr) (s : csim_stats_t) : M unit := fun m =>
  match p with
  | Some a => match records m !! a with
              | Some _ => Ok tt (with_records <[a := s]> m)
              | None => Fault
              end
  | None => Fault
  end.

(** ** The functions of csim.c *)

(** [cache_block_t *new_cache_block(unsigned long tag)] *)
Definition new_cache_block (tag : Z) : M ptr :=
  new_block <- malloc_block ;;
  if negb (bool_decide (is_Some new_block)) then ret None
  else
    wr_tag new_block tag ;;
    wr_dirty new_block 0 ;;
    wr_next new_block None ;;
    ret new_block.

(** [cache_set_t *new_cache_set()] *)
Definition new_cache_set : M ptr :=
  new_set <- malloc_set ;;
  if negb (bool_decide (is_Some new_set)) then ret None
  else
    wr_head new_set None ;;
    h <- rd_head new_set ;;
    wr_curr new_set h ;;
    wr_size new_set 0 ;;
    h <- rd_head new_set ;;
    wr_tail new_set h ;;
    ret new_set.

(** [void cache_set_insert_head(cache_set_t *set, cache_block_t *block)] *)
Definition cache_set_insert_head (set block : ptr) : M unit :=
  if bool_decide (is_Some set) then
    h <- rd_head set ;;
    wr_next block h ;;
    wr_head set block ;;
    h <- rd_head set ;;
    wr_curr set h ;;
    sz <- rd_size set ;;
    wr_size set (wrap_int (sz + 1))
  else ret tt.

(** The walk [while (pointer->next != stop(set)) pointer = pointer->next;]
    shared by the two non-head branches of [cache_set_remove_current];
    [stop] re-reads [set->tail] or [set->curr] at every test, as the C
    condition does. *)
Definition walk_to_predecessor (fuel : nat) (stop : M ptr) (pointer : ptr)
    : M ptr :=
  while fuel
    (fun pointer => n <- rd_next pointer ;; t <- stop ;; ret (negb (ptr_eqb n t)))
    (fun pointer => rd_next pointer)
    pointer.

(** [cache_block_t *cache_set_remove_current(cache_set_t *set)] *)
Definition cache_set_remove_current (fuel : nat) (set : ptr) : M ptr :=
  if bool_decide (is_Some set) then
    h <- rd_head set ;;
    c <- rd_curr set ;;
    saved <-
      (if ptr_eqb h c then
         saved <- rd_head set ;;
         h <- rd_head set ;;
         hn <- rd_next h ;;
         wr_head set hn ;;
         h <- rd_head set ;;
         wr_curr set h ;;
         ret saved
       else
         t <- rd_tail set ;;
         c <- rd_curr set ;;
         if ptr_eqb t c then
           pointer <- rd_head set ;;
           pointer <- walk_to_predecessor fuel (rd_tail set) pointer ;;
           saved <- rd_tail set ;;
           wr_tail set pointer ;;
           wr_next pointer None ;;
           t <- rd_tail set ;;
           wr_curr set t ;;
           ret saved
         else
           pointer <- rd_head set ;;
           pointer <- walk_to_predecessor fuel (rd_curr set) pointer ;;
           saved <- rd_curr set ;;
           pn <- rd_next pointer ;;
           pnn <- rd_next pn ;;
           wr_next pointer pnn ;;
           ret saved) ;;
    sz <- rd_size set ;;
    wr_size set (wrap_int (sz - 1)) ;;
    ret saved
  else ret None.

(** [void cache_set_remove_tail(cache_set_t *set)] *)
Definition cache_set_remove_tail (fuel : nat) (set : ptr) : M unit :=
  if bool_decide (is_Some set) then
    h <- rd_head set ;;
    hn <- rd_next h ;;
    if negb (bool_decide (is_Some hn)) then
      wr_head set None
    else
      pointer <- rd_head set ;;
      pointer <-
        while fuel
          (fun pointer =>
             n <- rd_next pointer ;; nn <- rd_next n ;;
             ret (bool_decide (is_Some nn)))
          (fun pointer => rd_next pointer)
          pointer ;;
      removed <- rd_next pointer ;;
      wr_tail set pointer ;;
      t <- rd_tail set ;;
      wr_next t None ;;
      free_block removed
  else ret tt.

(** [int cache_set_size(cache_set_t *set)].  The guard is
    [set || set->head == set->tail]: the right operand is evaluated only
    when [set] is [NULL]. *)
Definition cache_set_size (set : ptr) : M Z :=
  guard <-
    (if bool_decide (is_Some set) then ret true
     else h <- rd_head set ;; t <- rd_tail set ;; ret (ptr_eqb h t)) ;;
  if guard : bool then ret 0
  else rd_size set.

(** [void full_free_cache(cache_set_t **cache, unsigned long S)] *)
Definition full_free_cache (fuel : nat) (cache : ptr) (S : Z) : M unit :=
  if bool_decide (is_Some cache) then
    for_range (R := unit) (Z.to_nat S) 0
      (fun i =>
         set <- rd_index cache i ;;
         curr <- rd_head set ;;
         while fuel
           (fun curr => ret (bool_decide (is_Some curr)))
           (fun curr => next <- rd_next curr ;; free_block curr ;; ret next)
           curr ;;
         ret None) ;;
    for_range (R := unit) (Z.to_nat S) 0
      (fun j => set <- rd_index cache j ;; free_set set ;; ret None) ;;
    free_array cache
  else ret tt.

(** [void free_sets(cache_set_t **cache, unsigned long i)] *)
Definition free_sets (cache : ptr) (i : Z) : M unit :=
  if bool_decide (is_Some cache) then
    for_range (R := unit) (Z.to_nat i) 0
      (fun j => set <- rd_index cache j ;; free_set set ;; ret None) ;;
    free_array cache
  else ret tt.

(** [void set_dirty(cache_block_t *block, char operator)] *)
Definition set_dirty (block : ptr) (operator : ascii) : M unit :=
  if Ascii.eqb operator "S" then wr_dirty block 1 else ret tt.

(** [unsigned dirty_tail(cache_set_t *set)] *)
Definition dirty_tail (fuel : nat) (set : ptr) : M Z :=
  pointer <- rd_head set ;;
  pointer <-
    while fuel
      (fun pointer => n <- rd_next pointer ;; ret (bool_decide (is_Some n)))
      (fun pointer => rd_next pointer)
      pointer ;;
  rd_dirty pointer.

(** [int count_dirty(cache_set_t **cache, unsigned long S)] *)
Definition count_dirty (fuel : nat) (cache : ptr) (S : Z) : M Z :=
  for_fold (Z.to_nat S) 0
    (fun i dirty =>
       set <- rd_index cache i ;;
       curr <- rd_head set ;;
       r <- while fuel
              (fun st : ptr * Z => ret (bool_decide (is_Some (fst st))))
              (fun st : ptr * Z =>
                 d <- rd_dirty (fst st) ;;
                 let dirty := if negb (d =? 0) then wrap_int (snd st + 1) else snd st in
                 next <- rd_next (fst st) ;;
                 ret (next, dirty))
              (curr, dirty) ;;
       ret (snd r))
    0.

(** *** main *)

(** The sentinel [0x7F800001] that marks an option as not given. *)
Definition UNSET : Z := 2139095041.

(** The counters [main] carries across loop iterations. *)
Record counters := Counters {
  hit : Z;
  miss : Z;
  eviction : Z;
  dirty_eviction : Z
}.

(** [unsigned long which_set = (address >> b) & (S - 1);]  The shift of the
    [unsigned long] address is by [b mod 64]. *)
Definition which_set (address b S : Z) : Z :=
  Z.land (Z.shiftr address (b mod 64)) (wrap_ulong (S - 1)).

(** [unsigned long which_cache_line = (address >> (b + s));]  The sum is an
    [int]; the shift is by its value [mod 64]. *)
Definition which_cache_line (address b s : Z) : Z :=
  Z.shiftr address (wrap_int (b + s) mod 64).

(** The walk at the start of the hit path of [main]:
    [while (cache[which_set]->curr != pointer)
       cache[which_set]->curr = cache[which_set]->curr->next;] *)
Definition main_seek (fuel : nat) (cache : ptr) (ws : Z) (pointer : ptr)
    : M unit :=
  while fuel
    (fun _ : unit =>
       set <- rd_index cache ws ;;
       c <- rd_curr set ;;
       ret (negb (ptr_eqb c pointer)))
    (fun _ : unit =>
       set <- rd_index cache ws ;;
       c <- rd_curr set ;;
       n <- rd_next c ;;
       set <- rd_index cache ws ;;
       wr_curr set n)
    tt.

(** The body of [if (pointer->tag == which_cache_line)] in the search loop
    of [main]: advance [curr] to the matching block, unlink it, mark it and
    put it back at the head. *)
Definition main_promote (fuel : nat) (cache : ptr) (ws : Z) (pointer : ptr)
    (operator : ascii) : M unit :=
  main_seek fuel cache ws pointer ;;
  set <- rd_index cache ws ;;
  ru_block <- cache_set_remove_current fuel set ;;
  set_dirty ru_block operator ;;
  set <- rd_index cache ws ;;
  cache_set_insert_head set ru_block.

(** The search loop of [main]:
    [for (pointer = cache[which_set]->head; pointer; pointer = pointer->next)].
    Yields [found]. *)
Definition main_search (fuel : nat) (cache : ptr) (ws line : Z)
    (operator : ascii) : M Z :=
  set <- rd_index cache ws ;;
  pointer <- rd_head set ;;
  r <- while fuel
         (fun st : ptr * Z => ret (bool_decide (is_Some (fst st))))
         (fun st : ptr * Z =>
            t <- rd_tag (fst st) ;;
            found <-
              (if t =? line then
                 main_promote fuel cache ws (fst st) operator ;; ret 1
               else ret (snd st)) ;;
            n <- rd_next (fst st) ;;
            ret (n, found))
         (pointer, 0) ;;
  ret (snd r).

(** The [if (!found)] block of [main]: insert a block for the new tag,
    evicting the last block when the set is full.  Yields [missed],
    [evicted] and the updated [dirty_eviction]. *)
Definition main_insert (fuel : nat) (cache : ptr) (E ws line : Z)
    (operator : ascii) (dirty_eviction : Z) : M (Z * Z * Z) :=
  set <- rd_index cache ws ;;
  sz <- rd_size set ;;
  if sz <? E then
    new_block <- new_cache_block line ;;
    set <- rd_index cache ws ;;
    cache_set_insert_head set new_block ;;
    set_dirty new_block operator ;;
    ret (1, 0, dirty_eviction)
  else
    new_block <- new_cache_block line ;;
    set <- rd_index cache ws ;;
    dt <- dirty_tail fuel set ;;
    let dirty_eviction :=
      if negb (dt =? 0) then wrap_ulong (dirty_eviction + 1) else dirty_eviction in
    (if Ascii.eqb operator "L" then wr_dirty new_block 0
     else if Ascii.eqb operator "S" then wr_dirty new_block 1
     else ret tt) ;;
    set <- rd_index cache ws ;;
    cache_set_remove_tail fuel set ;;
    set <- rd_index cache ws ;;
    cache_set_insert_head set new_block ;;
    ret (0, 1, dirty_eviction).

(** The [switch (operator)] of [main]: the updated counters, the message and
    [invalid_operator].  [msg] is uninitialised ([None]) until a case
    assigns it. *)
Definition main_outcome (operator : ascii) (found missed evicted : Z)
    (c : counters) : counters * option string * Z :=
  let tally :=
    if negb (found =? 0) then
      (Counters (wrap_ulong (hit c + 1)) (miss c) (eviction c) (dirty_eviction c),
       Some "hit"%string)
    else if negb (missed =? 0) then
      (Counters (hit c) (wrap_ulong (miss c + 1)) (eviction c) (dirty_eviction c),
       Some "miss"%string)
    else if negb (evicted =? 0) then
      (Counters (hit c) (wrap_ulong (miss c + 1)) (wrap_ulong (eviction c + 1))
                (dirty_eviction c),
       Some "miss eviction"%string)
    else (c, None) in
  if Ascii.eqb operator "S" then (tally, 0)
  else if Ascii.eqb operator "L" then (tally, 0)
  else (c, None, 1).

(** One iteration of the [while (0 < fscanf(...))] loop.  [Some z] means
    that [main] returned [z] from inside the loop. *)
Definition main_event (fuel : nat) (v s E b S : Z) (cache : ptr) (e : event)
    (c : counters) : M (option Z * counters) :=
  let operator := ev_operator e in
  let address := ev_address e in
  let size := ev_size e in
  let ws := which_set address b S in
  let line := which_cache_line address b s in
  found <- main_search fuel cache ws line operator ;;
  r <- (if found =? 0 then main_insert fuel cache E ws line operator (dirty_eviction c)
        else ret (0, 0, dirty_eviction c)) ;;
  let missed := fst (fst r) in
  let evicted := snd (fst r) in
  let c := Counters (hit c) (miss c) (eviction c) (snd r) in
  let o := main_outcome operator found missed evicted c in
  let c := fst (fst o) in
  let msg := snd (fst o) in
  let invalid_operator := snd o in
  if negb (invalid_operator =? 0) then
    full_free_cache fuel cache S ;;
    printf (InvalidOperation operator) ;;
    ret (Some 0, c)
  else
    (if negb (v =? 0) then
       match msg with
       | Some msg => printf (VerboseLine operator address size msg)
       | None => fault
       end
     else ret tt) ;;
    ret (None, c).

Fixpoint main_loop (fuel : nat) (v s E b S : Z) (cache : ptr)
    (trace : list event) (c : counters) : M (option Z * counters) :=
  match trace with
  | [] => ret (None, c)
  | e :: trace' =>
      r <- main_event fuel v s E b S cache e c ;;
      match fst r with
      | Some z => ret r
      | None => main_loop fuel v s E b S cache trace' (snd r)
      end
  end.

(** The [build the cache] part of [main]: the array of [S] sets.  Yields
    the array, and [Some z] when [main] returned [z] because a set could not
    be allocated. *)
Definition main_build (S : Z) : M (option Z * option positive) :=
  cache <- calloc S ;;
  r <- for_range (Z.to_nat S) 0
         (fun i =>
            p <- new_cache_set ;;
            wr_index cache i p ;;
            ci <- rd_index cache i ;;
            if negb (bool_decide (is_Some ci)) then
              free_sets cache i ;; ret (Some 0)
            else ret None) ;;
  ret (r, cache).

(** The [Create summary] part of [main], from
    [dirty_byte = (unsigned long)(count_dirty(cache, S) * (1 << b));] and
    [dirty_eviction = (unsigned long)(dirty_eviction * (1 << b));] on.
    [1 << b] is a shift of the [int] 1, by [b mod 32]; the first product is
    an [int] product, the second an [unsigned long] product with the [int]
    converted. *)
Definition main_summary (fuel : nat) (b S : Z) (cache : ptr) (c : counters)
    : M Z :=
  cd <- count_dirty fuel cache S ;;
  let dirty_byte :=
    wrap_ulong (wrap_int (cd * wrap_int (Z.shiftl 1 (b mod 32)))) in
  let dirty_eviction :=
    wrap_ulong
      (dirty_eviction c * wrap_ulong (wrap_int (Z.shiftl 1 (b mod 32)))) in
  stats <- malloc_stats ;;
  store_stats stats
    (CsimStats (hit c) (miss c) (eviction c) dirty_byte dirty_eviction) ;;
  full_free_cache fuel cache S ;;
  st <- load_stats stats ;;
  printf (Summary st) ;;
  free_stats stats ;;
  ret 0.

(** [int main(int argc, char *argv[])] after [getopt]: [v], [s], [E], [b]
    hold the option values ([UNSET] when an option was not given),
    [t_initialized] tells whether [-t] was given, and [t] is the parsed
    content of the trace file, or [None] when [fopen] fails.  The number
    of sets is [1UL << s], a shift by [s mod 64]. *)
Definition main (fuel : nat) (v s E b : Z) (t_initialized : bool)
    (t : option (list event)) : M Z :=
  if s =? UNSET then printf (MissingArgument "s") ;; ret 0
  else if E =? UNSET then printf (MissingArgument "E") ;; ret 0
  else if b =? UNSET then printf (MissingArgument "b") ;; ret 0
  else if negb t_initialized then printf (MissingArgument "tracefile") ;; ret 0
  else
    let S := wrap_ulong (Z.shiftl 1 (s mod 64)) in
    built <- main_build S ;;
    let cache := snd built in
    match fst built with
    | Some z => ret z
    | None =>
        match t with
        | None =>
            full_free_cache fuel cache S ;;
            printf FileCanNotBeOpened ;;
            ret 0
        | Some trace =>
            r <- main_loop fuel v s E b S cache trace (Counters 0 0 0 0) ;;
            match fst r with
            | Some z => ret z
            | None => main_summary fuel b S cache (snd r)
            end
        end
    end.

(** The machine [main] starts on: nothing allocated, nothing printed. *)
Definition boot (grants : nat) : state := State ∅ ∅ ∅ ∅ 1%positive grants [].

(** ** The cache of the specification

    The specification describes a cache set as an ordered collection of
    blocks, most recently used first, with capacity [E]; a block is a tag
    and a dirty flag.  The definitions of this module follow its sections
    4.1 to 4.5 word for word and serve as the reference the C code is
    compared with. *)
Module Model.

Record block := Block { tag : Z; dirty : bool }.

Abbreviation cache_set := (list block).

Inductive outcome :=
| Hit
| Miss
| MissEviction (victim_dirty : bool).

(** Section 4.1: set index and tag of an address. *)
Definition set_index (s b A : Z) : Z := Z.shiftr A b mod 2 ^ s.
Definition tag_of (s b A : Z) : Z := Z.shiftr A (b + s).

(** Section 4.2: scan for [t]; when found, take the block out of its
    position.  Yields the block and the remaining blocks in order. *)
Fixpoint lookup (t : Z) (l : cache_set) : option (block * cache_set) :=
  match l with
  | [] => None
  | x :: l' =>
      if tag x =? t then Some (x, l')
      else match lookup t l' with
           | Some (y, r) => Some (y, x :: r)
           | None => None
           end
  end.

(** Section 4.3: allocation, with eviction of the tail of a full set. *)
Definition insert (E : Z) (t : Z) (d : bool) (l : cache_set)
    : cache_set * outcome :=
  if Z.of_nat (length l) <? E then (Block t d :: l, Miss)
  else (Block t d :: removelast l,
        MissEviction (from_option dirty false (last l))).

(** Sections 4.4 and 4.5: one access to one set. *)
Definition access (E : Z) (store : bool) (t : Z) (l : cache_set)
    : cache_set * outcome :=
  match lookup t l with
  | Some (x, r) => (Block (tag x) (dirty x || store) :: r, Hit)
  | None => insert E t store l
  end.

Abbreviation cache := (list (list block)).

Definition empty (s : Z) : cache := replicate (Z.to_nat (2 ^ s)) [].

(** One access event on the whole cache. *)
Definition step (s E b : Z) (store : bool) (A : Z) (c : cache)
    : cache * outcome :=
  let i := Z.to_nat (set_index s b A) in
  let r := access E store (tag_of s b A) (default [] (c !! i)) in
  (<[i := fst r]> c, snd r).

(** Replaying a trace of loads and stores: the final cache and the
    outcome of every event. *)
Fixpoint run (s E b : Z) (trace : list (bool * Z)) (c : cache)
    : cache * list outcome :=
  match trace with
  | [] => (c, [])
  | (store, A) :: trace' =>
      let r := step s E b store A c in
      let r' := run s E b trace' (fst r) in
      (fst r', snd r :: snd r')
  end.

Definition is_hit (o : outcome) : bool :=
  match o with Hit => true | _ => false end.
Definition is_miss (o : outcome) : bool :=
  match o with Hit => false | _ => true end.
Definition is_eviction (o : outcome) : bool :=
  match o with MissEviction _ => true | _ => false end.
Definition is_dirty_eviction (o : outcome) : bool :=
  match o with MissEviction d => d | _ => false end.

Definition count (f : outcome → bool) (os : list outcome) : Z :=
  Z.of_nat (length (filter (fun o => f o = true) os)).

(** Number of resident blocks whose dirty flag is set. *)
Definition resident_dirty (c : cache) : Z :=
  Z.of_nat (length (filter (fun x => dirty x = true) (concat c))).

Definition label (o : outcome) : string :=
  match o with
  | Hit => "hit"
  | Miss => "miss"
  | MissEviction _ => "miss eviction"
  end.

End Model.

(** ** Reading linked lists out of the heap *)

(** [lseg bs p l q]: following [next] pointers from [p] visits exactly the
    addresses [l], in order, and then arrives at [q]. *)
Fixpoint lseg (bs : gmap loc cache_block_t) (p : ptr) (l : list loc) (q : ptr)
    : Prop :=
  match l with
  | [] => p = q
  | a :: l' => p = Some a ∧ ∃ b, bs !! a = Some b ∧ lseg bs (b_next b) l' q
  end.

(** A [NULL]-terminated list. *)
Definition chain (bs : gmap loc cache_block_t) (p : ptr) (l : list loc) : Prop :=
  lseg bs p l None.

(** The block of the specification stored at an address. *)
Definition block_at (bs : gmap loc cache_block_t) (a : loc) : Model.block :=
  match bs !! a with
  | Some b => Model.Block (b_tag b) (negb (b_dirty b =? 0))
  | None => Model.Block 0 false
  end.

Definition view (bs : gmap loc cache_block_t) (l : list loc) : Model.cache_set :=
  block_at bs <$> l.

(** The load or store meaning of an operation character. *)
Definition valid_operator (c : ascii) : bool :=
  Ascii.eqb c "L" || Ascii.eqb c "S".
Definition is_store (c : ascii) : bool := Ascii.eqb c "S".

Definition accesses (trace : list event) : list (bool * Z) :=
  (fun e => (is_store (ev_operator e), ev_address e)) <$> trace.

(** ** Well-formed memory *)

(** [set_inv E n bs st l]: the set structure [st] heads the list [l] in the
    block heap [bs] in the shape every access leaves behind. *)
Record set_inv (E n : Z) (bs : gmap loc cache_block_t) (st : cache_set_t)
    (l : list loc) : Prop := SetInv {
  inv_chain : chain bs (s_head st) l;
  inv_curr : s_curr st = s_head st;
  inv_tail : s_tail st = None ∨ (2 ≤ length l)%nat ∧ s_tail st = last l;
  inv_size_range : 0 ≤ s_size st ≤ n;
  inv_size_below : s_size st < E → Z.of_nat (length l) = s_size st;
  inv_size_full : E ≤ s_size st → Z.of_nat (length l) = E;
  inv_tags : NoDup (Model.tag <$> view bs l)
}.

(** [cache_inv E n cache sps ls m]: in memory [m] the array at [cache]
    holds the set pointers [sps], the [i]-th set heads the list [ls !! i],
    the lists are pairwise disjoint, and (unless [E = 1]) no block is
    allocated that is not linked in a set. *)
Record cache_inv (E n : Z) (cache : loc) (sps : list loc)
    (ls : list (list loc)) (m : state) : Prop := CacheInv {
  inv_array : arrays m = {[ cache := Some <$> sps ]};
  inv_set_ptrs : NoDup sps;
  inv_set_dom : ∀ a, is_Some (sets m !! a) ↔ a ∈ sps;
  inv_length : length ls = length sps;
  inv_sets : ∀ i sp l, sps !! i = Some sp → ls !! i = Some l →
             ∃ st, sets m !! sp = Some st ∧ set_inv E n (blocks m) st l;
  inv_disjoint : ∀ j1 j2 l1 l2 a, ls !! j1 = Some l1 → ls !! j2 = Some l2 →
                 a ∈ l1 → a ∈ l2 → j1 = j2;
  inv_fresh : ∀ a, is_Some (blocks m !! a) → (a < brk m)%positive;
  inv_no_leak : E ≠ 1 → ∀ a, is_Some (blocks m !! a) →
                ∃ j l, ls !! j = Some l ∧ a ∈ l
}.

(** ** Vocabulary of the proofs *)

Definition payload (b : cache_block_t) : Z * Z := (b_tag b, b_dirty b).

(** What the search and insertion code of [main] reports for an outcome of
    the specification: [found], [missed], [evicted] and the new value of
    [dirty_eviction]. *)
Definition flags_of (o : Model.outcome) (de : Z) : Z * (Z * Z * Z) :=
  match o with
  | Model.Hit => (1, (0, 0, de))
  | Model.Miss => (0, (1, 0, de))
  | Model.MissEviction d => (0, (0, 1, if d then wrap_ulong (de + 1) else de))
  end.

(** What one access leaves behind in the set it touches: [l'], [st'] and
    [bs'] describe the set after the access, [k'] is the next free
    address. *)
Record access_post (E n : Z) (bs : gmap loc cache_block_t) (l : list loc)
    (k : loc) (bs' : gmap loc cache_block_t) (st' : cache_set_t)
    (l' : list loc) (k' : loc) : Prop := AccessPost {
  post_inv : set_inv E (n + 1) bs' st' l';
  post_frame : ∀ a, a ∉ l → a ≠ k → bs' !! a = bs !! a;
  post_fresh : ∀ a, is_Some (bs' !! a) → (a < k')%positive;
  post_brk : (k ≤ k')%positive;
  post_members : ∀ a, a ∈ l' → a ∈ l ∨ a = k;
  post_no_leak : E ≠ 1 → ∀ a, is_Some (bs' !! a) →
                 a ∈ l' ∨ ((a ∉ l) ∧ is_Some (bs !! a))
}.

(** The geometry the specification allows, within the width of the shift
    operands. *)
Record geometry_ok (s E b : Z) : Prop := GeometryOk {
  geo_s : 0 ≤ s;
  geo_b : 0 ≤ b;
  geo_width : s + b < 64;
  geo_E : 1 ≤ E
}.

Definition b2z (b : bool) : Z := if b then 1 else 0.

(** The counters after an event with outcome [o]. *)
Definition count_step (c : counters) (o : Model.outcome) : counters :=
  Counters (hit c + b2z (Model.is_hit o))
           (miss c + b2z (Model.is_miss o))
           (eviction c + b2z (Model.is_eviction o))
           (dirty_eviction c + b2z (Model.is_dirty_eviction o)).

Definition counters_ok (n : Z) (c : counters) : Prop :=
  0 ≤ hit c ≤ n ∧ 0 ≤ miss c ≤ n ∧ 0 ≤ eviction c ≤ n ∧ 0 ≤ dirty_eviction c ≤ n.

(** The lines an event adds to standard output in verbose mode. *)
Definition verbose_line (v : Z) (e : event) (o : Model.outcome) : list output :=
  if negb (v =? 0)
  then [VerboseLine (ev_operator e) (ev_address e) (ev_size e) (Model.label o)]
  else [].

(** The map left after freeing the addresses [l], first to last. *)
Definition drop_keys {V} (l : list loc) (m : gmap loc V) : gmap loc V :=
  foldl (fun m a => delete a m) m l.

(** The blocks linked in some set. *)
Definition linked (ls : list (list loc)) : list loc := concat ls.

Definition dirty_count (v : Model.cache_set) : Z :=
  Z.of_nat (length (filter (fun x => Model.dirty x = true) v)).

(** The [n] addresses [malloc] hands out from [k] on. *)
Fixpoint fresh_ptrs (k : loc) (n : nat) : list loc :=
  match n with
  | O => []
  | S n' => k :: fresh_ptrs (Pos.succ k) n'
  end.

Definition add_sets (l : list loc) (ss : gmap loc cache_set_t)
    : gmap loc cache_set_t :=
  foldl (fun m a => <[a := CacheSet None None 0 None]> m) ss l.

Definition valid_trace (trace : list event) : bool :=
  forallb (fun e => valid_operator (ev_operator e)) trace.

Definition counters_after (c : counters) (os : list Model.outcome) : counters :=
  foldl count_step c os.

Fixpoint verbose_lines (v : Z) (trace : list event) (os : list Model.outcome)
    : list output :=
  match trace, os with
  | e :: trace', o :: os' => verbose_line v e o ++ verbose_lines v trace' os'
  | _, _ => []
  end.

(** The number of allocations a list of outcomes asks for. *)
Definition allocations (os : list Model.outcome) : nat :=
  length (filter (fun o => Model.is_miss o = true) os).

(** The record [main] prints for the final counters [c] and [resident]
    dirty blocks: the two byte totals are formed with the [int] value
    [1 << b], the shift being by [b mod 32]. *)
Definition summary_of (b : Z) (c : counters) (resident : Z) : csim_stats_t :=
  CsimStats (hit c) (miss c) (eviction c)
    (wrap_ulong (wrap_int (wrap_int resident * wrap_int (Z.shiftl 1 (b mod 32)))))
    (wrap_ulong (dirty_eviction c * wrap_ulong (wrap_int (Z.shiftl 1 (b mod 32))))).

(** The contract the specification intends for the getter: 0 for a null or
    empty set, else the tracked size. *)
Definition intended_set_size (set : ptr) (m : state) : Z :=
  match set with
  | None => 0
  | Some a =>
      match sets m !! a with
      | Some st => if bool_decide (s_head st = None) then 0 else s_size st
      | None => 0
      end
  end.

(** A memory holding one set with two linked blocks. *)
Definition two_block_set : state :=
  State {[ 3%positive := CacheBlock 7 0 (Some 4%positive);
           4%positive := CacheBlock 9 1 None ]}
        {[ 2%positive := CacheSet (Some 3%positive) (Some 3%positive) 2 None ]}
        {[ 1%positive := [Some 2%positive] ]} ∅ 5%positive 0 [].

Definition scenario_evictions : list event :=
  [Event "L" 0 1; Event "L" 1 1; Event "L" 0 1].

(** The memory after [main] has built the cache and replayed [trace]. *)
Definition replay (fuel : nat) (v s E b : Z) (trace : list event)
    : M (option Z * counters * option positive) :=
  built <- main_build (wrap_ulong (Z.shiftl 1 (s mod 64))) ;;
  r <- main_loop fuel v s E b (wrap_ulong (Z.shiftl 1 (s mod 64))) (snd built) trace
         (Counters 0 0 0 0) ;;
  ret (r, snd built).

(** The last line of standard output. *)
Definition reported (out : list output) : option csim_stats_t :=
  match last out with
  | Some (Summary st) => Some st
  | _ => None
  end.



(** Allocations [malloc] still serves in a memory. *)
Definition grants_left (m : state) : nat := grants m.

(** A memory holding one set with three linked blocks, [curr] on the
    middle one. *)
Definition three_block_set : state :=
  State {[ 3%positive := CacheBlock 7 0 (Some 4%positive);
           4%positive := CacheBlock 9 1 (Some 5%positive);
           5%positive := CacheBlock 11 0 None ]}
        {[ 2%positive := CacheSet (Some 3%positive) (Some 4%positive) 3 None ]}
        {[ 1%positive := [Some 2%positive] ]} ∅ 6%positive 0 [].

(** A memory holding one set with a single block. *)
Definition one_block_set : state :=
  State {[ 3%positive := CacheBlock 7 1 None ]}
        {[ 2%positive := CacheSet (Some 3%positive) (Some 3%positive) 1 None ]}
        {[ 1%positive := [Some 2%positive] ]} ∅ 4%positive 0 [].

(** What [count_dirty] and [full_free_cache] need of the memory: the array
    at [cache] holds the set pointers [sps], and the [i]-th set heads the
    list [ls !! i], which a loop with [fuel] iterations can walk. *)
Definition cache_lists (fuel : nat) (m : state) (cache : loc) (sps : list loc)
    (ls : list (list loc)) : Prop :=
  arrays m !! cache = Some (Some <$> sps)
  ∧ length ls = length sps
  ∧ ∀ i sp l, sps !! i = Some sp → ls !! i = Some l →
      ∃ st, sets m !! sp = Some st ∧ chain (blocks m) (s_head st) l
            ∧ (length l < fuel)%nat.

(** The blocks some set of the cache has as its head. *)
Definition is_head (sps : list loc) (ss : gmap loc cache_set_t) (a : loc) : Prop :=
  ∃ sp st, sp ∈ sps ∧ ss !! sp = Some st ∧ s_head st = Some a.

(** [leaked sps ss bs L]: the blocks allocated in [bs] are the heads of the
    sets and, apart from them, exactly the blocks [L]. *)
Record leaked (sps : list loc) (ss : gmap loc cache_set_t)
    (bs : gmap loc cache_block_t) (L : list loc) : Prop := Leaked {
  leak_NoDup : NoDup L;
  leak_dom : ∀ a, is_Some (bs !! a) ↔ is_head sps ss a ∨ a ∈ L;
  leak_apart : ∀ a, a ∈ L → ¬ is_head sps ss a
}.

(** The event list [trace] has an access to tag [t] in set [i]. *)
Definition touched (s b : Z) (trace : list (bool * Z)) (i : nat) (t : Z) : Prop :=
  ∃ st A, (st, A) ∈ trace ∧ Z.to_nat (Model.set_index s b A) = i
          ∧ Model.tag_of s b A = t.

(** The tags of the set with index [ws] in the order of their last use,
    most recent first, after the events [pre]: every access puts its tag in
    front and removes the older occurrence. *)
Definition recent_tags (s b : Z) (pre : list event) (ws : Z) : list Z :=
  foldl
    (fun acc e =>
       if which_set (ev_address e) b (wrap_ulong (Z.shiftl 1 s)) =? ws
       then which_cache_line (ev_address e) b s
            :: filter (fun t => t ≠ which_cache_line (ev_address e) b s) acc
       else acc)
    [] pre.

(** * Proofs *)

(** ** Running the monad *)

Lemma bind_run {A B} (c : M A) (k : A → M B) m a m' :
  c m = Ok a m' → bind c k m = k a m'.
Proof. unfold bind. by intros ->. Qed.

Lemma bind_fault {A B} (c : M A) (k : A → M B) m :
  c m = Fault → bind c k m = Fault.
Proof. unfold bind. by intros ->. Qed.

Lemma bind_assoc {A B C} (c : M A) (k1 : A → M B) (k2 : B → M C) m :
  bind (bind c k1) k2 m = bind c (fun a => bind (k1 a) k2) m.
Proof. unfold bind. by destruct (c m). Qed.

Lemma ret_run {A} (a : A) m : ret a m = Ok a m.
Proof. reflexivity. Qed.

Lemma while_unroll {S} fuel (cond : S → M bool) (body : S → M S) s :
  while (Datatypes.S fuel) cond body s
  = (c <- cond s ;; if c then s' <- body s ;; while fuel cond body s' else ret s).
Proof. reflexivity. Qed.

Lemma load_set_run sp st m :
  sets m !! sp = Some st → load_set (Some sp) m = Ok st m.
Proof. unfold load_set. by intros ->. Qed.

Lemma store_set_run sp st st' m :
  sets m !! sp = Some st →
  store_set (Some sp) st' m = Ok tt (with_sets <[sp := st']> m).
Proof. unfold store_set. by intros ->. Qed.

Lemma load_block_run p b m :
  blocks m !! p = Some b → load_block (Some p) m = Ok b m.
Proof. unfold load_block. by intros ->. Qed.

Lemma store_block_run p b b' m :
  blocks m !! p = Some b →
  store_block (Some p) b' m = Ok tt (with_blocks <[p := b']> m).
Proof. unfold store_block. by intros ->. Qed.

Lemma rd_head_run sp st m :
  sets m !! sp = Some st → rd_head (Some sp) m = Ok (s_head st) m.
Proof. intros H. unfold rd_head. by rewrite (bind_run _ _ _ _ _ (load_set_run _ _ _ H)). Qed.

Lemma rd_curr_run sp st m :
  sets m !! sp = Some st → rd_curr (Some sp) m = Ok (s_curr st) m.
Proof. intros H. unfold rd_curr. by rewrite (bind_run _ _ _ _ _ (load_set_run _ _ _ H)). Qed.

Lemma rd_size_run sp st m :
  sets m !! sp = Some st → rd_size (Some sp) m = Ok (s_size st) m.
Proof. intros H. unfold rd_size. by rewrite (bind_run _ _ _ _ _ (load_set_run _ _ _ H)). Qed.

Lemma rd_tail_run sp st m :
  sets m !! sp = Some st → rd_tail (Some sp) m = Ok (s_tail st) m.
Proof. intros H. unfold rd_tail. by rewrite (bind_run _ _ _ _ _ (load_set_run _ _ _ H)). Qed.

Lemma wr_head_run sp st v m :
  sets m !! sp = Some st →
  wr_head (Some sp) v m
  = Ok tt (with_sets <[sp := CacheSet v (s_curr st) (s_size st) (s_tail st)]> m).
Proof.
  intros H. unfold wr_head. rewrite (bind_run _ _ _ _ _ (load_set_run _ _ _ H)).
  by apply store_set_run with st.
Qed.

Lemma wr_curr_run sp st v m :
  sets m !! sp = Some st →
  wr_curr (Some sp) v m
  = Ok tt (with_sets <[sp := CacheSet (s_head st) v (s_size st) (s_tail st)]> m).
Proof.
  intros H. unfold wr_curr. rewrite (bind_run _ _ _ _ _ (load_set_run _ _ _ H)).
  by apply store_set_run with st.
Qed.

Lemma wr_size_run sp st v m :
  sets m !! sp = Some st →
  wr_size (Some sp) v m
  = Ok tt (with_sets <[sp := CacheSet (s_head st) (s_curr st) v (s_tail st)]> m).
Proof.
  intros H. unfold wr_size. rewrite (bind_run _ _ _ _ _ (load_set_run _ _ _ H)).
  by apply store_set_run with st.
Qed.

Lemma wr_tail_run sp st v m :
  sets m !! sp = Some st →
  wr_tail (Some sp) v m
  = Ok tt (with_sets <[sp := CacheSet (s_head st) (s_curr st) (s_size st) v]> m).
Proof.
  intros H. unfold wr_tail. rewrite (bind_run _ _ _ _ _ (load_set_run _ _ _ H)).
  by apply store_set_run with st.
Qed.

Lemma rd_tag_run p b m :
  blocks m !! p = Some b → rd_tag (Some p) m = Ok (b_tag b) m.
Proof. intros H. unfold rd_tag. by rewrite (bind_run _ _ _ _ _ (load_block_run _ _ _ H)). Qed.

Lemma rd_dirty_run p b m :
  blocks m !! p = Some b → rd_dirty (Some p) m = Ok (b_dirty b) m.
Proof. intros H. unfold rd_dirty. by rewrite (bind_run _ _ _ _ _ (load_block_run _ _ _ H)). Qed.

Lemma rd_next_run p b m :
  blocks m !! p = Some b → rd_next (Some p) m = Ok (b_next b) m.
Proof. intros H. unfold rd_next. by rewrite (bind_run _ _ _ _ _ (load_block_run _ _ _ H)). Qed.

Lemma wr_tag_run p b v m :
  blocks m !! p = Some b →
  wr_tag (Some p) v m
  = Ok tt (with_blocks <[p := CacheBlock v (b_dirty b) (b_next b)]> m).
Proof.
  intros H. unfold wr_tag. rewrite (bind_run _ _ _ _ _ (load_block_run _ _ _ H)).
  by apply store_block_run with b.
Qed.

Lemma wr_dirty_run p b v m :
  blocks m !! p = Some b →
  wr_dirty (Some p) v m
  = Ok tt (with_blocks <[p := CacheBlock (b_tag b) v (b_next b)]> m).
Proof.
  intros H. unfold wr_dirty. rewrite (bind_run _ _ _ _ _ (load_block_run _ _ _ H)).
  by apply store_block_run with b.
Qed.

Lemma wr_next_run p b v m :
  blocks m !! p = Some b →
  wr_next (Some p) v m
  = Ok tt (with_blocks <[p := CacheBlock (b_tag b) (b_dirty b) v]> m).
Proof.
  intros H. unfold wr_next. rewrite (bind_run _ _ _ _ _ (load_block_run _ _ _ H)).
  by apply store_block_run with b.
Qed.

Lemma rd_index_run cache arr i sp m :
  arrays m !! cache = Some arr → arr !! i = Some sp →
  rd_index (Some cache) (Z.of_nat i) m = Ok sp m.
Proof.
  intros Ha Hi. unfold rd_index. rewrite Ha.
  pose proof (lookup_lt_Some _ _ _ Hi) as Hlt.
  rewrite (proj2 (Z.leb_le _ _)) by lia.
  rewrite (proj2 (Z.ltb_lt _ _)) by lia.
  rewrite Nat2Z.id, Hi. reflexivity.
Qed.

Lemma wr_index_run cache arr i v m :
  arrays m !! cache = Some arr → (i < length arr)%nat →
  wr_index (Some cache) (Z.of_nat i) v m
  = Ok tt (with_arrays <[cache := <[i := v]> arr]> m).
Proof.
  intros Ha Hlt. unfold wr_index. rewrite Ha.
  rewrite (proj2 (Z.leb_le _ _)) by lia.
  rewrite (proj2 (Z.ltb_lt _ _)) by lia.
  rewrite Nat2Z.id. reflexivity.
Qed.

Lemma free_block_run p b m :
  blocks m !! p = Some b →
  free_block (Some p) m = Ok tt (with_blocks (delete p) m).
Proof. unfold free_block. by intros ->. Qed.

Lemma free_set_run p s m :
  sets m !! p = Some s →
  free_set (Some p) m = Ok tt (with_sets (delete p) m).
Proof. unfold free_set. by intros ->. Qed.

Lemma free_array_run p a m :
  arrays m !! p = Some a →
  free_array (Some p) m = Ok tt (with_arrays (delete p) m).
Proof. unfold free_array. by intros ->. Qed.

(** Symbolic execution: [step] runs the first primitive of a computation,
    looking the addressed object up in the hypotheses. *)
Ltac reduce_state :=
  cbn [with_sets with_blocks with_arrays with_records
       blocks sets arrays records brk grants stdout
       s_head s_curr s_size s_tail b_tag b_dirty b_next fst snd].

Ltac solve_lookup :=
  reduce_state;
  first
    [ eassumption
    | apply lookup_insert_eq
    | rewrite lookup_insert_ne by (first [done | congruence]); solve_lookup ].

Ltac prim_run :=
  first
    [ apply ret_run
    | eapply rd_head_run; solve_lookup
    | eapply rd_curr_run; solve_lookup
    | eapply rd_size_run; solve_lookup
    | eapply rd_tail_run; solve_lookup
    | eapply wr_head_run; solve_lookup
    | eapply wr_curr_run; solve_lookup
    | eapply wr_size_run; solve_lookup
    | eapply wr_tail_run; solve_lookup
    | eapply rd_tag_run; solve_lookup
    | eapply rd_dirty_run; solve_lookup
    | eapply rd_next_run; solve_lookup
    | eapply wr_tag_run; solve_lookup
    | eapply wr_dirty_run; solve_lookup
    | eapply wr_next_run; solve_lookup
    | eapply free_block_run; solve_lookup
    | eapply free_set_run; solve_lookup
    | eapply free_array_run; solve_lookup
    | eapply rd_index_run; [solve_lookup | eassumption] ].

Tactic Notation "step_by" tactic3(tac) :=
  rewrite ?bind_assoc;
  lazymatch goal with
  | |- context [bind ?c ?k ?m] =>
      erewrite (bind_run c k m) by tac;
      reduce_state; rewrite ?insert_insert_eq
  end.

Ltac step := step_by prim_run.

(** ** List segments *)

Lemma lseg_app bs p l1 l2 q :
  lseg bs p (l1 ++ l2) q ↔ ∃ r, lseg bs p l1 r ∧ lseg bs r l2 q.
Proof.
  revert p. induction l1 as [|a l1 IH]; intros p; cbn.
  - split; [eauto | by intros (r & -> & H)].
  - split.
    + intros (-> & b & Hb & H). apply IH in H as (r & H1 & H2). eauto 10.
    + intros (r & (-> & b & Hb & H1) & H2). split; [done|].
      exists b. split; [done|]. apply IH. eauto.
Qed.

Lemma lseg_agree bs bs' p l q :
  (∀ a, a ∈ l → bs' !! a = bs !! a) → lseg bs p l q → lseg bs' p l q.
Proof.
  revert p. induction l as [|a l IH]; intros p Hag; cbn; [done|].
  intros (-> & b & Hb & H). split; [done|]. exists b. split.
  - rewrite Hag; [done | set_solver].
  - apply IH; [|done]. intros; apply Hag; set_solver.
Qed.

Lemma lseg_det bs p l1 l2 :
  lseg bs p l1 None → lseg bs p l2 None → l1 = l2.
Proof.
  revert p l2. induction l1 as [|a l1 IH]; intros p [|a' l2]; cbn.
  - done.
  - intros -> (? & _); done.
  - intros (-> & _) ?; done.
  - intros (-> & b & Hb & H1) ([= <-] & b' & Hb' & H2).
    rewrite Hb in Hb'. injection Hb' as <-. f_equal. eauto.
Qed.

Lemma chain_NoDup bs p l : chain bs p l → NoDup l.
Proof.
  unfold chain. revert p. induction l as [|a l IH]; intros p; cbn.
  - constructor.
  - intros (-> & b & Hb & H). constructor; [|eauto].
    intros Hin. apply list_elem_of_split in Hin as (l1 & l2 & ->).
    apply lseg_app in H as (r & H1 & H2).
    pose proof H2 as H2'. cbn in H2. destruct H2 as (-> & b' & Hb' & H2).
    rewrite Hb in Hb'. injection Hb' as <-.
    assert (Hfull : lseg bs (b_next b) (l1 ++ a :: l2) None).
    { apply lseg_app. eauto. }
    pose proof (lseg_det _ _ _ _ H2 Hfull) as Heq.
    apply (f_equal length) in Heq. rewrite length_app in Heq. cbn in Heq. lia.
Qed.

(** ** The list operations *)

Lemma ptr_eqb_refl (p : ptr) : ptr_eqb p p = true.
Proof. unfold ptr_eqb. by rewrite bool_decide_true. Qed.

Lemma ptr_eqb_ne (p q : ptr) : p ≠ q → ptr_eqb p q = false.
Proof. intros. unfold ptr_eqb. by rewrite bool_decide_false. Qed.

Lemma lseg_insert_ne bs a b p l q :
  a ∉ l → lseg bs p l q → lseg (<[a := b]> bs) p l q.
Proof.
  intros Hn. apply lseg_agree. intros a' Ha'.
  apply lookup_insert_ne. intros ->. done.
Qed.

Lemma lseg_snoc bs p l a q :
  lseg bs p (l ++ [a]) q ↔
  lseg bs p l (Some a) ∧ ∃ b, bs !! a = Some b ∧ b_next b = q.
Proof.
  rewrite lseg_app. cbn. split.
  - intros (r & H1 & -> & b & Hb & Hq). eauto.
  - intros (H1 & b & Hb & Hq). eauto 10.
Qed.

Lemma lseg_lookup bs p l q a :
  lseg bs p l q → a ∈ l → is_Some (bs !! a).
Proof.
  revert p. induction l as [|x l IH]; intros p; cbn; [set_solver|].
  intros (-> & b & Hb & H) [->|Hin]%elem_of_cons; eauto.
Qed.

Lemma cache_set_insert_head_run bs ss ar rc k g out sp st p b :
  ss !! sp = Some st → bs !! p = Some b →
  cache_set_insert_head (Some sp) (Some p) (State bs ss ar rc k g out)
  = Ok tt (State (<[p := CacheBlock (b_tag b) (b_dirty b) (s_head st)]> bs)
                 (<[sp := CacheSet (Some p) (Some p) (wrap_int (s_size st + 1))
                                   (s_tail st)]> ss)
                 ar rc k g out).
Proof.
  intros Hs Hb. unfold cache_set_insert_head.
  rewrite bool_decide_true by eauto.
  do 6 step. erewrite wr_size_run by solve_lookup.
  reduce_state. by rewrite ?insert_insert_eq.
Qed.

Lemma set_dirty_run bs ss ar rc k g out p b operator :
  bs !! p = Some b →
  set_dirty (Some p) operator (State bs ss ar rc k g out)
  = Ok tt (State (<[p := CacheBlock (b_tag b)
                          (if Ascii.eqb operator "S" then 1 else b_dirty b)
                          (b_next b)]> bs) ss ar rc k g out).
Proof.
  intros Hb. unfold set_dirty. destruct (Ascii.eqb operator "S").
  - erewrite wr_dirty_run by solve_lookup. done.
  - rewrite insert_id; [done|]. by destruct b.
Qed.

(** The walk stops at the predecessor [q] of the block the stop pointer
    designates. *)
Lemma walk_to_predecessor_run fuel (stop : M ptr) m p l1 q bq x :
  stop m = Ok (Some x) m →
  lseg (blocks m) p l1 (Some q) →
  blocks m !! q = Some bq → b_next bq = Some x →
  x ∉ l1 → x ≠ q →
  (length l1 < fuel)%nat →
  walk_to_predecessor fuel stop p m = Ok (Some q) m.
Proof.
  intros Hstop. unfold walk_to_predecessor.
  revert p fuel. induction l1 as [|a l1 IH]; intros p fuel Hseg Hq Hnx Hx Hxq Hf;
    (destruct fuel as [|fuel]; [cbn in Hf; lia|]); rewrite while_unroll.
  - cbn in Hseg. subst p.
    step. step_by (exact Hstop). rewrite Hnx.
    rewrite ptr_eqb_refl. done.
  - cbn in Hseg. destruct Hseg as (-> & b & Hb & Hseg).
    step. step_by (exact Hstop).
    assert (Hne : b_next b ≠ Some x).
    { destruct l1 as [|a' l1']; cbn in Hseg.
      - rewrite Hseg. intros [= ->]. done.
      - destruct Hseg as (-> & _). intros [= ->]. set_solver. }
    rewrite ptr_eqb_ne by done. cbn [negb].
    do 2 step. apply IH; try done; [set_solver | cbn in Hf; lia].
Qed.

Lemma cache_set_remove_current_head fuel bs ss ar rc k g out sp st p bp :
  ss !! sp = Some st → s_head st = Some p → s_curr st = Some p →
  bs !! p = Some bp →
  cache_set_remove_current fuel (Some sp) (State bs ss ar rc k g out)
  = Ok (Some p)
       (State bs
          (<[sp := CacheSet (b_next bp) (b_next bp) (wrap_int (s_size st - 1))
                            (s_tail st)]> ss)
          ar rc k g out).
Proof.
  intros Hs Hh Hc Hp. unfold cache_set_remove_current.
  rewrite bool_decide_true by eauto.
  do 2 step. rewrite Hh, Hc, ptr_eqb_refl.
  do 2 step. rewrite Hh. repeat step. done.
Qed.

Lemma cache_set_remove_current_tail fuel bs ss ar rc k g out sp st p l1 q bq :
  ss !! sp = Some st → s_curr st = Some p → s_tail st = Some p →
  lseg bs (s_head st) l1 (Some q) →
  bs !! q = Some bq → b_next bq = Some p →
  p ∉ l1 → p ≠ q → (length l1 < fuel)%nat →
  cache_set_remove_current fuel (Some sp) (State bs ss ar rc k g out)
  = Ok (Some p)
       (State (<[q := CacheBlock (b_tag bq) (b_dirty bq) None]> bs)
          (<[sp := CacheSet (s_head st) (Some q) (wrap_int (s_size st - 1))
                            (Some q)]> ss)
          ar rc k g out).
Proof.
  intros Hs Hc Ht Hseg Hq Hnx Hp1 Hpq Hf. unfold cache_set_remove_current.
  rewrite bool_decide_true by eauto.
  do 2 step. rewrite Hc.
  rewrite ptr_eqb_ne.
  2:{ destruct l1; cbn in Hseg.
      - rewrite Hseg. congruence.
      - destruct Hseg as (-> & _). intros [= ->]. set_solver. }
  do 2 step. rewrite Hc, Ht, ptr_eqb_refl.
  step.
  step_by (eapply walk_to_predecessor_run with (x := p) (q := q);
           [rewrite <- Ht; eapply rd_tail_run; solve_lookup | try solve_lookup ..]; done).
  repeat step. rewrite ?Ht. done.
Qed.

Lemma cache_set_remove_current_mid fuel bs ss ar rc k g out sp st p bp l1 q bq :
  ss !! sp = Some st → s_curr st = Some p → s_tail st ≠ Some p →
  lseg bs (s_head st) l1 (Some q) →
  bs !! q = Some bq → b_next bq = Some p → bs !! p = Some bp →
  p ∉ l1 → p ≠ q → (length l1 < fuel)%nat →
  cache_set_remove_current fuel (Some sp) (State bs ss ar rc k g out)
  = Ok (Some p)
       (State (<[q := CacheBlock (b_tag bq) (b_dirty bq) (b_next bp)]> bs)
          (<[sp := CacheSet (s_head st) (Some p) (wrap_int (s_size st - 1))
                            (s_tail st)]> ss)
          ar rc k g out).
Proof.
  intros Hs Hc Ht Hseg Hq Hnx Hp Hp1 Hpq Hf. unfold cache_set_remove_current.
  rewrite bool_decide_true by eauto.
  do 2 step. rewrite Hc.
  rewrite ptr_eqb_ne.
  2:{ destruct l1; cbn in Hseg.
      - rewrite Hseg. congruence.
      - destruct Hseg as (-> & _). intros [= ->]. set_solver. }
  do 2 step. rewrite Hc. rewrite ptr_eqb_ne by done.
  step.
  step_by (eapply walk_to_predecessor_run with (x := p) (q := q);
           [rewrite <- Hc; eapply rd_curr_run; solve_lookup | try solve_lookup ..]; done).
  do 2 step. rewrite Hnx. repeat step. rewrite ?Hc. done.
Qed.

Lemma main_seek_run fuel bs ss ar rc k g out cache arr i sp p l1 :
  ar !! cache = Some arr → arr !! i = Some (Some sp) →
  ∀ st, ss !! sp = Some st →
  lseg bs (s_curr st) l1 (Some p) → p ∉ l1 → (length l1 < fuel)%nat →
  while fuel
    (fun _ : unit =>
       set <- rd_index (Some cache) (Z.of_nat i) ;;
       c <- rd_curr set ;;
       ret (negb (ptr_eqb c (Some p))))
    (fun _ : unit =>
       set <- rd_index (Some cache) (Z.of_nat i) ;;
       c <- rd_curr set ;;
       n <- rd_next c ;;
       set <- rd_index (Some cache) (Z.of_nat i) ;;
       wr_curr set n)
    tt (State bs ss ar rc k g out)
  = Ok tt (State bs
             (<[sp := CacheSet (s_head st) (Some p) (s_size st) (s_tail st)]> ss)
             ar rc k g out).
Proof.
  intros Har Hi. revert ss fuel.
  induction l1 as [|a l1 IH]; intros ss fuel st Hs Hseg Hp Hf;
    (destruct fuel as [|fuel]; [cbn in Hf; lia|]); rewrite while_unroll.
  - destruct st as [h c sz t]. cbn in Hseg. subst c.
    do 2 step. rewrite ptr_eqb_refl. cbn.
    rewrite insert_id; done.
  - destruct st as [h c sz t]. cbn in Hseg. destruct Hseg as (-> & b & Hb & Hseg).
    do 2 step. rewrite ptr_eqb_ne by (intros [= ->]; set_solver).
    cbn [negb]. repeat step.
    erewrite IH; [| solve_lookup | done | set_solver | cbn in Hf; lia ].
    reduce_state. by rewrite insert_insert_eq.
Qed.

Lemma NoDup_app_cons_inv {A} (l1 l2 : list A) (x : A) :
  NoDup (l1 ++ x :: l2) → (x ∉ l1) ∧ (x ∉ l2) ∧ (∀ y, y ∈ l1 → y ∉ l2).
Proof.
  intros H. apply NoDup_app in H as (H1 & H2 & H3).
  apply NoDup_cons in H3 as (H3 & H4).
  split_and!; [|done|]; set_solver.
Qed.

Lemma last_app_cons {A} (l1 l2 : list A) (x : A) :
  last (l1 ++ x :: l2) = Some x → NoDup (l1 ++ x :: l2) → l2 = [].
Proof.
  intros Hl Hnd. destruct l2 as [|y l2 _] using rev_ind; [done|].
  exfalso. change (x :: l2 ++ [y]) with ((x :: l2) ++ [y]) in Hl.
  rewrite app_assoc, last_snoc in Hl. injection Hl as ->.
  apply NoDup_app_cons_inv in Hnd as (_ & Hn & _). set_solver.
Qed.

Lemma main_promote_run fuel bs ss ar rc k g out cache arr i sp st p bp l1 l2
    operator :
  ar !! cache = Some arr → arr !! i = Some (Some sp) →
  ss !! sp = Some st →
  s_curr st = s_head st →
  chain bs (s_head st) (l1 ++ p :: l2) →
  s_tail st = None ∨ (2 ≤ length (l1 ++ p :: l2))%nat ∧ s_tail st = last (l1 ++ p :: l2) →
  bs !! p = Some bp →
  (length l1 < fuel)%nat →
  ∃ bs' tl',
    main_promote fuel (Some cache) (Z.of_nat i) (Some p) operator
      (State bs ss ar rc k g out)
    = Ok tt (State bs'
               (<[sp := CacheSet (Some p) (Some p)
                                 (wrap_int (wrap_int (s_size st - 1) + 1)) tl']> ss)
               ar rc k g out)
    ∧ chain bs' (Some p) (p :: l1 ++ l2)
    ∧ (tl' = None ∨ (2 ≤ length (p :: l1 ++ l2))%nat ∧ tl' = last (p :: l1 ++ l2))
    ∧ payload <$> bs' !! p
      = Some (b_tag bp, if Ascii.eqb operator "S" then 1 else b_dirty bp)
    ∧ (∀ a, a ≠ p → payload <$> bs' !! a = payload <$> bs !! a)
    ∧ (∀ a, a ∉ l1 ++ p :: l2 → bs' !! a = bs !! a).
Proof.
  intros Har Hi Hs Hcur Hch Htl Hp Hf.
  pose proof (chain_NoDup _ _ _ Hch) as Hnd.
  pose proof (NoDup_app_cons_inv _ _ _ Hnd) as (Hp1 & Hp2 & H12).
  unfold chain in Hch. apply lseg_app in Hch as (r & Hseg1 & Hseg2).
  cbn in Hseg2. destruct Hseg2 as (-> & bp_ & Hp_ & Hseg2).
  rewrite Hp in Hp_. injection Hp_ as <-.
  unfold main_promote.
  step_by (eapply main_seek_run with (l1 := l1); [done | done | solve_lookup | rewrite Hcur; done | done | done ]).
  step.
  destruct l1 as [|h l1' _] using rev_ind.
  - (* the matching block is the head *)
    cbn in Hseg1.
    step_by (eapply cache_set_remove_current_head; [solve_lookup | done..]).
    step_by (eapply set_dirty_run; solve_lookup).
    step.
    erewrite cache_set_insert_head_run by solve_lookup.
    reduce_state. rewrite !insert_insert_eq.
    eexists _, _. split; [reflexivity|]. split_and!.
    + split; [done|]. eexists. split; [apply lookup_insert_eq|]. cbn.
      apply lseg_insert_ne; done.
    + cbn in Htl |- *. done.
    + rewrite lookup_insert_eq. done.
    + intros a Ha. by rewrite lookup_insert_ne.
    + intros a Ha. rewrite lookup_insert_ne; [done|]. set_solver.
  - (* the matching block has a predecessor [h] *)
    apply lseg_snoc in Hseg1 as (Hseg1 & bq & Hq & Hnx).
    assert (Hph : p ≠ h) by set_solver.
    assert (Hp1' : p ∉ l1') by set_solver.
    assert (Hh1 : h ∉ l1').
    { apply NoDup_app in Hnd as (Hnd & _). apply NoDup_app in Hnd as (_ & Hnd & _).
      intros ?. eapply Hnd; [done|set_solver]. }
    assert (Hh2 : h ∉ l2) by (apply H12; set_solver).
    rewrite length_app in Hf. cbn in Hf.
    destruct (decide (s_tail st = Some p)) as [Htp|Htp].
    + (* ... and is the recorded tail *)
      assert (l2 = []) as ->.
      { destruct Htl as [Htl|(_ & Htl)]; [congruence|].
        rewrite Htp in Htl. symmetry in Htl. eapply last_app_cons; done. }
      cbn in Hseg2.
      step_by (eapply cache_set_remove_current_tail with (l1 := l1');
               [solve_lookup | done | done | done | done | done | done | done | lia]).
      step_by (eapply set_dirty_run; solve_lookup).
      step.
      erewrite cache_set_insert_head_run by solve_lookup.
      reduce_state. rewrite !insert_insert_eq.
      eexists _, _. split; [reflexivity|]. split_and!.
      * split; [done|]. eexists. split; [apply lookup_insert_eq|]. cbn.
        rewrite app_nil_r. apply lseg_snoc. split.
        -- apply lseg_insert_ne; [done|]. apply lseg_insert_ne; done.
        -- eexists. split; [rewrite lookup_insert_ne by done; apply lookup_insert_eq|]. done.
      * right. rewrite app_nil_r. split; [cbn; rewrite length_app; cbn; lia|].
        change (p :: l1' ++ [h]) with ((p :: l1') ++ [h]). by rewrite last_snoc.
      * rewrite lookup_insert_eq. done.
      * intros a Ha. rewrite lookup_insert_ne by done.
        destruct (decide (a = h)) as [->|Hah].
        -- rewrite lookup_insert_eq, Hq. done.
        -- by rewrite lookup_insert_ne.
      * intros a Ha. rewrite !lookup_insert_ne; [done|set_solver..].
    + (* ... and is not the recorded tail *)
      step_by (eapply cache_set_remove_current_mid with (l1 := l1');
               [solve_lookup | done | done | done | done | done | done | done | done | lia]).
      step_by (eapply set_dirty_run; solve_lookup).
      step.
      erewrite cache_set_insert_head_run by solve_lookup.
      reduce_state. rewrite !insert_insert_eq.
      eexists _, _. split; [reflexivity|]. split_and!.
      * split; [done|]. eexists. split; [apply lookup_insert_eq|]. cbn.
        rewrite <- app_assoc. apply lseg_app. exists (Some h). split.
        -- apply lseg_insert_ne; [done|]. apply lseg_insert_ne; done.
        -- cbn. split; [done|]. eexists.
           split; [rewrite lookup_insert_ne by done; apply lookup_insert_eq|]. cbn.
           apply lseg_insert_ne; [done|]. apply lseg_insert_ne; done.
      * destruct Htl as [Htl|(Hlen & Htl)]; [by left|right].
        split; [rewrite !length_app in *; cbn in *; rewrite ?length_app in *; cbn in *; lia|].
        rewrite Htl. rewrite Htl in Htp. revert Htp.
        rewrite last_cons, !last_app, last_cons.
        destruct (last l2); [done|]. intros []. done.
      * rewrite lookup_insert_eq. done.
      * intros a Ha. rewrite lookup_insert_ne by done.
        destruct (decide (a = h)) as [->|Hah].
        -- rewrite lookup_insert_eq, Hq. done.
        -- by rewrite lookup_insert_ne.
      * intros a Ha. rewrite !lookup_insert_ne; [done|set_solver..].
Qed.

(** The search loop of [main] passes over blocks with another tag without
    touching memory. *)
Lemma main_search_skip fuel cache ws line operator m l :
  ∀ p q f n,
  lseg (blocks m) p l q →
  (∀ a b, a ∈ l → blocks m !! a = Some b → b_tag b ≠ line) →
  while (length l + n)
    (fun st : ptr * Z => ret (bool_decide (is_Some (fst st))))
    (fun st : ptr * Z =>
       t <- rd_tag (fst st) ;;
       found <-
         (if t =? line then
            main_promote fuel cache ws (fst st) operator ;; ret 1
          else ret (snd st)) ;;
       n <- rd_next (fst st) ;;
       ret (n, found))
    (p, f) m
  = while n
      (fun st : ptr * Z => ret (bool_decide (is_Some (fst st))))
      (fun st : ptr * Z =>
         t <- rd_tag (fst st) ;;
         found <-
           (if t =? line then
              main_promote fuel cache ws (fst st) operator ;; ret 1
            else ret (snd st)) ;;
         n <- rd_next (fst st) ;;
         ret (n, found))
      (q, f) m.
Proof.
  induction l as [|a l IH]; intros p q f n Hseg Htags; cbn in Hseg.
  - by subst.
  - destruct Hseg as (-> & b & Hb & Hseg).
    cbn [length Nat.add]. rewrite while_unroll.
    step. rewrite bool_decide_true by eauto.
    step. rewrite (proj2 (Z.eqb_neq _ _)) by (eapply Htags; [left|done]).
    repeat step. apply IH; [done|]. intros; eapply Htags; [by right|done].
Qed.

Lemma main_search_end fuel cache ws line operator m f n :
  while (S n)
    (fun st : ptr * Z => ret (bool_decide (is_Some (fst st))))
    (fun st : ptr * Z =>
       t <- rd_tag (fst st) ;;
       found <-
         (if t =? line then
            main_promote fuel cache ws (fst st) operator ;; ret 1
          else ret (snd st)) ;;
       n <- rd_next (fst st) ;;
       ret (n, found))
    (None, f) m
  = Ok (None, f) m.
Proof.
  rewrite while_unroll. step. rewrite bool_decide_false; [done|].
  by intros [? ?].
Qed.

Lemma main_search_miss fuel bs ss ar rc k g out cache arr i sp st l line operator :
  ar !! cache = Some arr → arr !! i = Some (Some sp) →
  ss !! sp = Some st →
  chain bs (s_head st) l →
  (∀ a b, a ∈ l → bs !! a = Some b → b_tag b ≠ line) →
  (length l < fuel)%nat →
  main_search fuel (Some cache) (Z.of_nat i) line operator
    (State bs ss ar rc k g out)
  = Ok 0 (State bs ss ar rc k g out).
Proof.
  intros Har Hi Hs Hch Htags Hf. unfold main_search.
  do 2 step.
  replace fuel with (length l + S (fuel - length l - 1))%nat at 1 by lia.
  step_by (erewrite main_search_skip by (first [exact Hch | exact Htags]);
           apply main_search_end).
  done.
Qed.

Lemma main_search_hit fuel bs ss ar rc k g out cache arr i sp st p bp l1 l2
    line operator :
  ar !! cache = Some arr → arr !! i = Some (Some sp) →
  ss !! sp = Some st →
  s_curr st = s_head st →
  chain bs (s_head st) (l1 ++ p :: l2) →
  s_tail st = None ∨ (2 ≤ length (l1 ++ p :: l2))%nat ∧ s_tail st = last (l1 ++ p :: l2) →
  bs !! p = Some bp → b_tag bp = line →
  (∀ a b, a ∈ l1 ++ l2 → bs !! a = Some b → b_tag b ≠ line) →
  (2 * length (l1 ++ p :: l2) < fuel)%nat →
  ∃ bs' tl',
    main_search fuel (Some cache) (Z.of_nat i) line operator
      (State bs ss ar rc k g out)
    = Ok 1 (State bs'
              (<[sp := CacheSet (Some p) (Some p)
                                (wrap_int (wrap_int (s_size st - 1) + 1)) tl']> ss)
              ar rc k g out)
    ∧ chain bs' (Some p) (p :: l1 ++ l2)
    ∧ (tl' = None ∨ (2 ≤ length (p :: l1 ++ l2))%nat ∧ tl' = last (p :: l1 ++ l2))
    ∧ payload <$> bs' !! p
      = Some (b_tag bp, if Ascii.eqb operator "S" then 1 else b_dirty bp)
    ∧ (∀ a, a ≠ p → payload <$> bs' !! a = payload <$> bs !! a)
    ∧ (∀ a, a ∉ l1 ++ p :: l2 → bs' !! a = bs !! a).
Proof.
  intros Har Hi Hs Hcur Hch Htl Hp Htag Htags Hf.
  rewrite length_app in Hf. cbn in Hf.
  destruct (main_promote_run fuel bs ss ar rc k g out cache arr i sp st p bp
              l1 l2 operator) as (bs' & tl' & Hrun & Hch' & Htl' & Hpp & Hpay & Hfr);
    [done..|lia|].
  exists bs', tl'. split; [|done].
  pose proof Hch as Hch0. unfold chain in Hch0.
  apply lseg_app in Hch0 as (r & Hseg1 & Hseg2).
  unfold main_search. do 2 step.
  replace fuel with (length l1 + S (length (l1 ++ l2)
                       + S (fuel - length l1 - length (l1 ++ l2) - 2)))%nat at 1
    by (rewrite length_app; lia).
  cbn in Hseg2. destruct Hseg2 as (-> & bp_ & Hp_ & Hseg2).
  rewrite Hp in Hp_. injection Hp_ as <-.
  destruct Hch' as (_ & bp' & Hp' & Hch').
  assert (Htags' : ∀ a b, a ∈ l1 ++ l2 → bs' !! a = Some b → b_tag b ≠ line).
  { intros a b Ha Hb.
    assert (Hap : a ≠ p).
    { intros ->. pose proof (chain_NoDup _ _ _ Hch) as Hnd.
      apply NoDup_app_cons_inv in Hnd as (? & ? & ?). set_solver. }
    specialize (Hpay a Hap). rewrite Hb in Hpay.
    destruct (bs !! a) as [b0|] eqn:Hb0; [|done].
    cbn in Hpay. injection Hpay as Ht _. rewrite Ht. by eapply Htags. }
  lazymatch goal with
  | |- context [bind (while ?n ?c ?b ?s) _ ?m] =>
      assert (Hloop : while n c b s m
                      = Ok (None, 1)
                          (State bs'
                             (<[sp := CacheSet (Some p) (Some p)
                                  (wrap_int (wrap_int (s_size st - 1) + 1)) tl']> ss)
                             ar rc k g out))
  end.
  { erewrite main_search_skip;
      [ | exact Hseg1 | intros a b Ha; apply Htags; set_solver ].
    rewrite while_unroll.
    step. rewrite bool_decide_true by eauto.
    step. rewrite Htag, Z.eqb_refl.
    step_by (exact Hrun).
    repeat step.
    erewrite main_search_skip; [ apply main_search_end | exact Hch' | exact Htags' ]. }
  step_by (exact Hloop). done.
Qed.

Lemma lseg_is_Some bs p l z : lseg bs p l (Some z) → is_Some p.
Proof. destruct l; cbn; [intros ->; eauto | intros (-> & _); eauto]. Qed.

Lemma malloc_block_run bs ss ar rc k g out :
  malloc_block (State bs ss ar rc k (S g) out)
  = Ok (Some k)
       (State (<[k := CacheBlock 0 0 None]> bs) ss ar rc (Pos.succ k) g out).
Proof. reflexivity. Qed.

Lemma malloc_set_run bs ss ar rc k g out :
  malloc_set (State bs ss ar rc k (S g) out)
  = Ok (Some k)
       (State bs (<[k := CacheSet None None 0 None]> ss) ar rc (Pos.succ k) g out).
Proof. reflexivity. Qed.

Lemma new_cache_block_run line bs ss ar rc k g out :
  new_cache_block line (State bs ss ar rc k (S g) out)
  = Ok (Some k)
       (State (<[k := CacheBlock line 0 None]> bs) ss ar rc (Pos.succ k) g out).
Proof.
  unfold new_cache_block.
  step_by (apply malloc_block_run).
  rewrite bool_decide_true by eauto. cbn [negb].
  repeat step. done.
Qed.

Lemma new_cache_block_null line bs ss ar rc k out :
  new_cache_block line (State bs ss ar rc k O out)
  = Ok None (State bs ss ar rc k O out).
Proof. reflexivity. Qed.

Lemma dirty_tail_walk fuel m l :
  ∀ p z bz,
  lseg (blocks m) p l (Some z) → blocks m !! z = Some bz → b_next bz = None →
  (length l < fuel)%nat →
  while fuel
    (fun pointer => n <- rd_next pointer ;; ret (bool_decide (is_Some n)))
    (fun pointer => rd_next pointer)
    p m
  = Ok (Some z) m.
Proof.
  revert fuel. induction l as [|a l IH]; intros fuel p z bz Hseg Hz Hnx Hf;
    (destruct fuel as [|fuel]; [cbn in Hf; lia|]); rewrite while_unroll;
    cbn in Hseg.
  - subst p. do 2 step. rewrite Hnx. rewrite bool_decide_false; [done|].
    by intros [? ?].
  - destruct Hseg as (-> & b & Hb & Hseg).
    do 2 step. rewrite bool_decide_true by (by eapply lseg_is_Some).
    step. eapply IH; [done..|cbn in Hf; lia].
Qed.

Lemma dirty_tail_run fuel bs ss ar rc k g out sp st l z bz :
  ss !! sp = Some st →
  chain bs (s_head st) (l ++ [z]) → bs !! z = Some bz →
  (length l < fuel)%nat →
  dirty_tail fuel (Some sp) (State bs ss ar rc k g out)
  = Ok (b_dirty bz) (State bs ss ar rc k g out).
Proof.
  intros Hs Hch Hz Hf. unfold dirty_tail.
  apply lseg_snoc in Hch as (Hseg & bz' & Hz' & Hnx).
  rewrite Hz in Hz'. injection Hz' as <-.
  step.
  step_by (eapply dirty_tail_walk; [exact Hseg | exact Hz | done | done]).
  by erewrite rd_dirty_run by solve_lookup.
Qed.

Lemma dirty_tail_empty fuel bs ss ar rc k g out sp st :
  ss !! sp = Some st → s_head st = None →
  dirty_tail (S fuel) (Some sp) (State bs ss ar rc k g out) = Fault.
Proof.
  intros Hs Hh. unfold dirty_tail. step. rewrite Hh. reflexivity.
Qed.

Lemma remove_tail_walk fuel m l :
  ∀ p y by_ z bz,
  lseg (blocks m) p l (Some y) →
  blocks m !! y = Some by_ → b_next by_ = Some z →
  blocks m !! z = Some bz → b_next bz = None →
  (length l < fuel)%nat →
  while fuel
    (fun pointer =>
       n <- rd_next pointer ;; nn <- rd_next n ;;
       ret (bool_decide (is_Some nn)))
    (fun pointer => rd_next pointer)
    p m
  = Ok (Some y) m.
Proof.
  revert fuel. induction l as [|a l IH]; intros fuel p y by_ z bz Hseg Hy Hny Hz Hnz Hf;
    (destruct fuel as [|fuel]; [cbn in Hf; lia|]); rewrite while_unroll;
    cbn in Hseg.
  - subst p. step. rewrite Hny. do 2 step. rewrite Hnz.
    rewrite bool_decide_false; [done|]. by intros [? ?].
  - destruct Hseg as (-> & b & Hb & Hseg).
    step.
    assert (∃ a' b', b_next b = Some a' ∧ blocks m !! a' = Some b'
                     ∧ is_Some (b_next b')) as (a' & b' & Ha' & Hb' & Hsome).
    { destruct l as [|a' l']; cbn in Hseg.
      - exists y, by_. rewrite Hny. eauto.
      - destruct Hseg as (-> & b' & Hb' & Hseg). exists a', b'.
        split_and!; [done..|]. by eapply lseg_is_Some. }
    rewrite Ha'. do 2 step. rewrite bool_decide_true by done.
    step. rewrite Ha'. rewrite <- Ha'.
    eapply IH; [done..|cbn in Hf; lia].
Qed.

(** Removing the tail of a one-element list only clears [head]: the block
    stays allocated and [tail] is not touched. *)
Lemma cache_set_remove_tail_single fuel bs ss ar rc k g out sp st z bz :
  ss !! sp = Some st → s_head st = Some z →
  bs !! z = Some bz → b_next bz = None →
  cache_set_remove_tail fuel (Some sp) (State bs ss ar rc k g out)
  = Ok tt (State bs
             (<[sp := CacheSet None (s_curr st) (s_size st) (s_tail st)]> ss)
             ar rc k g out).
Proof.
  intros Hs Hh Hz Hnz. unfold cache_set_remove_tail.
  rewrite bool_decide_true by eauto.
  step. rewrite Hh. step. rewrite Hnz.
  rewrite bool_decide_false by (by intros [? ?]). cbn [negb].
  by erewrite wr_head_run by solve_lookup.
Qed.

Lemma cache_set_remove_tail_run fuel bs ss ar rc k g out sp st l y by_ z bz :
  ss !! sp = Some st →
  lseg bs (s_head st) l (Some y) →
  bs !! y = Some by_ → b_next by_ = Some z →
  bs !! z = Some bz → b_next bz = None → y ≠ z →
  (length l < fuel)%nat →
  cache_set_remove_tail fuel (Some sp) (State bs ss ar rc k g out)
  = Ok tt (State (delete z (<[y := CacheBlock (b_tag by_) (b_dirty by_) None]> bs))
             (<[sp := CacheSet (s_head st) (s_curr st) (s_size st) (Some y)]> ss)
             ar rc k g out).
Proof.
  intros Hs Hseg Hy Hny Hz Hnz Hyz Hf. unfold cache_set_remove_tail.
  rewrite bool_decide_true by eauto.
  step.
  assert (∃ h bh, s_head st = Some h ∧ bs !! h = Some bh ∧ is_Some (b_next bh))
    as (h & bh & Hh & Hbh & Hsome).
  { destruct l as [|h l']; cbn in Hseg.
    - exists y, by_. rewrite Hny. eauto.
    - destruct Hseg as (-> & bh & Hbh & Hseg). exists h, bh.
      split_and!; [done..|]. by eapply lseg_is_Some. }
  rewrite Hh. step. rewrite bool_decide_true by done. cbn [negb].
  step. rewrite <- Hh.
  step_by (eapply remove_tail_walk with (z := z);
           [exact Hseg | exact Hy | done | exact Hz | done | done]).
  step. rewrite Hny. repeat step.
  erewrite free_block_run by solve_lookup. reduce_state. done.
Qed.

(** ** The C code against the cache of the specification *)

Lemma block_at_payload bs bs' a :
  payload <$> bs' !! a = payload <$> bs !! a → block_at bs' a = block_at bs a.
Proof.
  unfold block_at, payload.
  destruct (bs' !! a) as [[]|], (bs !! a) as [[]|]; cbn; try done.
  by intros [= -> ->].
Qed.

Lemma view_agree bs bs' l :
  (∀ a, a ∈ l → payload <$> bs' !! a = payload <$> bs !! a) →
  view bs' l = view bs l.
Proof.
  intros H. unfold view. apply list_fmap_ext. intros i a Hi.
  apply block_at_payload, H. by eapply list_elem_of_lookup_2.
Qed.

Lemma lookup_view_None bs l line :
  Model.lookup line (view bs l) = None →
  ∀ a, a ∈ l → Model.tag (block_at bs a) ≠ line.
Proof.
  induction l as [|x l IH]; cbn; [set_solver|]. fold (view bs l).
  destruct (Model.tag (block_at bs x) =? line) eqn:Hx; [done|].
  destruct (Model.lookup line (view bs l)) as [[]|] eqn:Hl; [done|].
  intros _ a [->|Ha]%elem_of_cons; [by apply Z.eqb_neq | by apply IH].
Qed.

Lemma lookup_view_Some bs l line x r :
  Model.lookup line (view bs l) = Some (x, r) →
  ∃ l1 p l2, l = l1 ++ p :: l2 ∧ x = block_at bs p ∧ r = view bs (l1 ++ l2)
             ∧ Model.tag (block_at bs p) = line.
Proof.
  revert x r. induction l as [|a l IH]; intros x r; cbn; [done|].
  fold (view bs l).
  destruct (Model.tag (block_at bs a) =? line) eqn:Ha.
  - intros [= <- <-]. exists [], a, l. split_and!; try done. by apply Z.eqb_eq.
  - destruct (Model.lookup line (view bs l)) as [[y r']|] eqn:Hl; [|done].
    intros [= <- <-]. destruct (IH _ _ eq_refl) as (l1 & p & l2 & -> & -> & -> & Hp).
    exists (a :: l1), p, l2. done.
Qed.

Lemma block_at_tag bs a b : bs !! a = Some b → Model.tag (block_at bs a) = b_tag b.
Proof. unfold block_at. by intros ->. Qed.

Lemma block_at_dirty bs a b :
  bs !! a = Some b → Model.dirty (block_at bs a) = negb (b_dirty b =? 0).
Proof. unfold block_at. by intros ->. Qed.

Lemma wrap_int_id z : - 2 ^ 31 ≤ z < 2 ^ 31 → wrap_int z = z.
Proof. intros H. unfold wrap_int. rewrite Z.mod_small; lia. Qed.

Lemma wrap_ulong_id z : 0 ≤ z < 2 ^ 64 → wrap_ulong z = z.
Proof. intros H. unfold wrap_ulong. rewrite Z.mod_small; lia. Qed.

Lemma view_app bs l1 l2 : view bs (l1 ++ l2) = view bs l1 ++ view bs l2.
Proof. unfold view. apply fmap_app. Qed.

Lemma tags_other bs l1 p l2 line :
  NoDup (Model.tag <$> view bs (l1 ++ p :: l2)) →
  Model.tag (block_at bs p) = line →
  ∀ a b, a ∈ l1 ++ l2 → bs !! a = Some b → b_tag b ≠ line.
Proof.
  intros Hnd Hp a b Ha Hb. rewrite view_app, fmap_app in Hnd. cbn in Hnd.
  apply NoDup_app_cons_inv in Hnd as (H1 & H2 & _).
  rewrite <- (block_at_tag _ _ _ Hb). intros Heq.
  apply elem_of_app in Ha as [Ha|Ha].
  - apply H1. rewrite Hp, <- Heq. unfold view.
    apply list_elem_of_fmap. exists (block_at bs a). split; [done|].
    apply list_elem_of_fmap. eauto.
  - apply H2. rewrite Hp, <- Heq. unfold view.
    apply list_elem_of_fmap. exists (block_at bs a). split; [done|].
    apply list_elem_of_fmap. eauto.
Qed.

Lemma main_access_hit fuel E n bs ss ar rc k g out cache arr i sp st l line
    operator x r :
  ar !! cache = Some arr → arr !! i = Some (Some sp) → ss !! sp = Some st →
  set_inv E n bs st l →
  n < INT_MAX →
  (2 * length l < fuel)%nat →
  (∀ a, is_Some (bs !! a) → (a < k)%positive) →
  Model.lookup line (view bs l) = Some (x, r) →
  ∃ bs' st' l',
    Model.access E (is_store operator) line (view bs l)
    = (view bs' l', Model.Hit)
    ∧ main_search fuel (Some cache) (Z.of_nat i) line operator
        (State bs ss ar rc k g out)
      = Ok 1 (State bs' (<[sp := st']> ss) ar rc k g out)
    ∧ access_post E n bs l k bs' st' l' k.
Proof.
  intros Har Hi Hs [Hch Hcur Htl Hrange Hbelow Hfull Htags] Hn Hf Hfresh Hlook.
  apply lookup_view_Some in Hlook as (l1 & p & l2 & -> & -> & -> & Hline).
  destruct (lseg_lookup _ _ _ _ p Hch) as [bp Hp]; [set_solver|].
  pose proof (chain_NoDup _ _ _ Hch) as Hnd.
  pose proof (NoDup_app_cons_inv _ _ _ Hnd) as (Hp1 & Hp2 & H12).
  destruct (main_search_hit fuel bs ss ar rc k g out cache arr i sp st p bp l1 l2
              line operator)
    as (bs' & tl' & Hrun & Hch' & Htl' & Hpp & Hpay & Hfr); try done.
  { by rewrite <- (block_at_tag _ _ _ Hp). }
  { by eapply tags_other. }
  assert (Hview : view bs' (p :: l1 ++ l2)
                  = Model.Block (Model.tag (block_at bs p))
                      (Model.dirty (block_at bs p) || is_store operator)
                    :: view bs (l1 ++ l2)).
  { cbn. f_equal.
    - unfold block_at at 1. destruct (bs' !! p) as [bp'|]; [|done].
      cbn in Hpp. injection Hpp as Ht Hd. rewrite Ht, Hd.
      rewrite (block_at_tag _ _ _ Hp), (block_at_dirty _ _ _ Hp).
      unfold is_store. destruct (Ascii.eqb operator "S"); cbn.
      + by rewrite orb_true_r.
      + by rewrite orb_false_r.
    - apply view_agree. intros a Ha. apply Hpay. set_solver. }
  eexists bs', _, (p :: l1 ++ l2). split_and!.
  - unfold Model.access.
    assert (Hl : Model.lookup line (view bs (l1 ++ p :: l2))
                 = Some (block_at bs p, view bs (l1 ++ l2))).
    { clear -Hline Htags. revert Htags. induction l1 as [|a l1 IH]; cbn; intros Htags.
      - fold (view bs l2). by rewrite Hline, Z.eqb_refl.
      - fold (view bs (l1 ++ p :: l2)). apply NoDup_cons in Htags as (Ha & Htags).
        rewrite IH by done.
        destruct (Model.tag (block_at bs a) =? line) eqn:Heq; [|done].
        exfalso. apply Ha. apply Z.eqb_eq in Heq. rewrite Heq, <- Hline.
        apply list_elem_of_fmap. exists (block_at bs p). split; [done|].
        apply list_elem_of_fmap. exists p. split; [done|]. set_solver. }
    rewrite Hl. by rewrite Hview.
  - exact Hrun.
  - assert (Hsz : wrap_int (wrap_int (s_size st - 1) + 1) = s_size st).
    { unfold INT_MAX in Hn. rewrite (wrap_int_id (s_size st - 1)) by lia.
      rewrite wrap_int_id by lia. lia. }
    rewrite Hsz.
    assert (Hlen : length (p :: l1 ++ l2) = length (l1 ++ p :: l2)).
    { cbn. rewrite !length_app. cbn. lia. }
    split.
    + split; cbn [s_head s_curr s_size s_tail]; try done.
      * lia.
      * rewrite Hlen. done.
      * rewrite Hlen. done.
      * rewrite Hview. cbn. rewrite view_app, fmap_app in Htags |- *.
        cbn in Htags. apply NoDup_app in Htags as (H1 & H2 & H3).
        apply NoDup_cons in H3 as (H3 & H4).
        apply NoDup_cons. split; [|apply NoDup_app; split_and!; try done].
        -- intros [Hin|Hin]%elem_of_app; [eapply H2; [exact Hin | by left] | done].
        -- intros y Hy1 Hy2. eapply H2; [done|]. by right.
    + intros a Ha _. by apply Hfr.
    + intros a [b Hb]. apply Hfresh.
      destruct (decide (a = p)) as [->|Hap]; [eauto|].
      specialize (Hpay a Hap). rewrite Hb in Hpay.
      destruct (bs !! a); [eauto|done].
    + lia.
    + intros a Ha. left. set_solver.
    + intros _ a [b Hb].
      destruct (decide (a ∈ l1 ++ p :: l2)) as [Hin|Hin]; [left; set_solver|].
      right. split; [done|]. rewrite <- Hfr by done. eauto.
Qed.

Lemma is_store_dirty operator :
  negb ((if Ascii.eqb operator "S" then 1 else 0) =? 0) = is_store operator.
Proof. unfold is_store. by destruct (Ascii.eqb operator "S"). Qed.

Lemma fresh_not_in bs (k : loc) p l q :
  (∀ a, is_Some (bs !! a) → (a < k)%positive) → lseg bs p l q → k ∉ l.
Proof.
  intros Hfresh Hseg Hin. apply (lseg_lookup _ _ _ _ _ Hseg) in Hin.
  apply Hfresh in Hin. lia.
Qed.

Lemma main_access_miss fuel E n bs ss ar rc k g out cache arr i sp st l line
    operator de :
  ar !! cache = Some arr → arr !! i = Some (Some sp) → ss !! sp = Some st →
  set_inv E n bs st l →
  n < INT_MAX →
  (∀ a, is_Some (bs !! a) → (a < k)%positive) →
  Model.lookup line (view bs l) = None →
  s_size st < E →
  ∃ bs' st' l',
    Model.access E (is_store operator) line (view bs l)
    = (view bs' l', Model.Miss)
    ∧ main_insert fuel (Some cache) E (Z.of_nat i) line operator de
        (State bs ss ar rc k (S g) out)
      = Ok (1, 0, de) (State bs' (<[sp := st']> ss) ar rc (Pos.succ k) g out)
    ∧ access_post E n bs l k bs' st' l' (Pos.succ k).
Proof.
  intros Har Hi Hs [Hch Hcur Htl Hrange Hbelow Hfull Htags] Hn Hfresh Hlook Hlt.
  pose proof (fresh_not_in _ _ _ _ _ Hfresh Hch) as Hk.
  assert (Hkn : bs !! k = None).
  { destruct (bs !! k) eqn:Hbk; [|done]. specialize (Hfresh k). rewrite Hbk in Hfresh.
    specialize (Hfresh (mk_is_Some _ _ eq_refl)). lia. }
  set (d := if Ascii.eqb operator "S" then 1 else 0).
  exists (<[k := CacheBlock line d (s_head st)]> bs),
         (CacheSet (Some k) (Some k) (wrap_int (s_size st + 1)) (s_tail st)),
         (k :: l).
  assert (Hview : view (<[k := CacheBlock line d (s_head st)]> bs) (k :: l)
                  = Model.Block line (is_store operator) :: view bs l).
  { cbn. f_equal.
    - unfold block_at. rewrite lookup_insert_eq. cbn. f_equal. apply is_store_dirty.
    - apply view_agree. intros a Ha. rewrite lookup_insert_ne; [done|].
      intros ->. done. }
  split_and!.
  - unfold Model.access, Model.insert. rewrite Hlook.
    unfold view at 1. rewrite length_fmap. rewrite (Hbelow Hlt).
    rewrite (proj2 (Z.ltb_lt _ _)) by done. by rewrite Hview.
  - unfold main_insert. do 2 step. rewrite (proj2 (Z.ltb_lt _ _)) by done.
    step_by (apply new_cache_block_run).
    step.
    step_by (eapply cache_set_insert_head_run; solve_lookup).
    step_by (eapply set_dirty_run; solve_lookup).
    reduce_state. done.
  - rewrite wrap_int_id by (unfold INT_MAX in Hn; lia).
    split.
    + split; cbn [s_head s_curr s_size s_tail]; try done.
      * split; [done|]. eexists. split; [apply lookup_insert_eq|]. cbn.
        apply lseg_insert_ne; done.
      * destruct Htl as [?|[Hlen Htl]]; [by left|right].
        split; [cbn; lia|]. rewrite last_cons, <- Htl.
        destruct l as [|? l0]; [cbn in Hlen; lia|].
        rewrite Htl. destruct (last (p :: l0)) eqn:Hl; [done|].
        by apply last_None in Hl.
      * lia.
      * intros _. cbn [length]. rewrite Nat2Z.inj_succ. rewrite Hbelow by done. lia.
      * intros ?. cbn [length]. rewrite Nat2Z.inj_succ. rewrite Hbelow by done. lia.
      * rewrite Hview. cbn. apply NoDup_cons. split; [|done].
        intros Hin. apply list_elem_of_fmap in Hin as (x & Hx & Hin).
        apply list_elem_of_fmap in Hin as (a & -> & Ha).
        by eapply lookup_view_None.
    + intros a _ Hak. by rewrite lookup_insert_ne.
    + intros a [b Hb]. destruct (decide (a = k)) as [->|Hak]; [lia|].
      rewrite lookup_insert_ne in Hb by done.
      specialize (Hfresh a (mk_is_Some _ _ Hb)). lia.
    + lia.
    + intros a [->|Ha]%elem_of_cons; eauto.
    + intros _ a [b Hb]. destruct (decide (a = k)) as [->|Hak]; [left; set_solver|].
      rewrite lookup_insert_ne in Hb by done.
      destruct (decide (a ∈ l)); [left; set_solver|right; eauto].
Qed.

Lemma NoDup_snoc_inv {A} (l : list A) (x : A) :
  NoDup (l ++ [x]) → NoDup l ∧ x ∉ l.
Proof.
  intros H. apply NoDup_app in H as (H1 & H2 & _). split; [done|].
  intros Hin. apply (H2 x Hin). by apply list_elem_of_singleton.
Qed.

Lemma view_snoc bs l z : view bs (l ++ [z]) = view bs l ++ [block_at bs z].
Proof. by rewrite view_app. Qed.

Lemma main_access_evict fuel E n bs ss ar rc k g out cache arr i sp st l line
    operator de :
  ar !! cache = Some arr → arr !! i = Some (Some sp) → ss !! sp = Some st →
  set_inv E n bs st l →
  1 ≤ E → n < INT_MAX →
  (length l < fuel)%nat →
  (∀ a, is_Some (bs !! a) → (a < k)%positive) →
  Model.lookup line (view bs l) = None →
  E ≤ s_size st →
  ∃ bs' st' l' d,
    Model.access E (is_store operator) line (view bs l)
    = (view bs' l', Model.MissEviction d)
    ∧ main_insert fuel (Some cache) E (Z.of_nat i) line operator de
        (State bs ss ar rc k (S g) out)
      = Ok (0, 1, if d then wrap_ulong (de + 1) else de)
           (State bs' (<[sp := st']> ss) ar rc (Pos.succ k) g out)
    ∧ access_post E n bs l k bs' st' l' (Pos.succ k)
    ∧ s_size st' = s_size st + 1
    ∧ length l' = length l.
Proof.
  intros Har Hi Hs [Hch Hcur Htl Hrange Hbelow Hfull Htags] HE Hn Hf Hfresh Hlook Hge.
  pose proof (fresh_not_in _ _ _ _ _ Hfresh Hch) as Hk.
  pose proof (chain_NoDup _ _ _ Hch) as Hnd.
  specialize (Hfull Hge).
  destruct l as [|z l0 _] using rev_ind; [cbn in Hfull; lia|].
  pose proof Hch as Hch0. apply lseg_snoc in Hch0 as (Hseg & bz & Hz & Hnz).
  set (d := if Ascii.eqb operator "S" then 1 else 0).
  assert (Hkz : k ≠ z).
  { intros ->. apply Hk. apply elem_of_app. right. by apply list_elem_of_singleton. }
  (* the part of [main_insert] before the tail is removed *)
  assert (Hpre :
    main_insert fuel (Some cache) E (Z.of_nat i) line operator de
      (State bs ss ar rc k (S g) out)
    = (cache_set_remove_tail fuel (Some sp) ;;
       set <- rd_index (Some cache) (Z.of_nat i) ;;
       cache_set_insert_head set (Some k) ;;
       ret (0, 1, if negb (b_dirty bz =? 0) then wrap_ulong (de + 1) else de))
        (State (<[k := CacheBlock line d None]> bs) ss ar rc (Pos.succ k) g out)).
  { unfold main_insert. do 2 step. rewrite (proj2 (Z.ltb_ge _ _)) by done.
    step_by (apply new_cache_block_run).
    step.
    step_by (eapply dirty_tail_run with (l := l0) (z := z);
             [ solve_lookup
             | reduce_state; apply lseg_insert_ne; [done | exact Hch]
             | solve_lookup
             | rewrite length_app in Hf; cbn in Hf; lia ]).
    subst d. destruct (Ascii.eqb operator "L") eqn:HL.
    - assert (Ascii.eqb operator "S" = false) as ->.
      { apply Ascii.eqb_eq in HL. by subst. }
      do 2 step. done.
    - destruct (Ascii.eqb operator "S") eqn:HS.
      + do 2 step. done.
      + do 2 step. done. }
  assert (Hvz : from_option Model.dirty false (last (view bs (l0 ++ [z])))
                = negb (b_dirty bz =? 0)).
  { rewrite view_snoc, last_snoc. cbn. by apply block_at_dirty. }
  assert (Hacc : Model.access E (is_store operator) line (view bs (l0 ++ [z]))
                 = (Model.Block line (is_store operator) :: view bs l0,
                    Model.MissEviction (negb (b_dirty bz =? 0)))).
  { unfold Model.access, Model.insert. rewrite Hlook.
    unfold view at 1. rewrite length_fmap, Hfull.
    rewrite Z.ltb_irrefl. rewrite Hvz.
    by rewrite view_snoc, removelast_last. }
  rewrite length_app in Hfull, Hf. cbn in Hfull, Hf.
  destruct l0 as [|y l1 _] using rev_ind.
  - (* one block in the set: it is unlinked, and stays allocated *)
    cbn in Hseg.
    assert (HE1 : E = 1) by (cbn in Hfull; lia).
    assert (Htl0 : s_tail st = None).
    { destruct Htl as [?|[Hlen _]]; [done|]. cbn in Hlen. lia. }
    exists (<[k := CacheBlock line d None]> bs),
           (CacheSet (Some k) (Some k) (wrap_int (s_size st + 1)) (s_tail st)),
           [k], (negb (b_dirty bz =? 0)).
    assert (Hview : view (<[k := CacheBlock line d None]> bs) [k]
                    = [Model.Block line (is_store operator)]).
    { cbn. f_equal. unfold block_at. rewrite lookup_insert_eq. cbn.
      f_equal. apply is_store_dirty. }
    split_and!.
    + by rewrite Hacc, Hview.
    + rewrite Hpre.
      step_by (eapply cache_set_remove_tail_single;
               [ solve_lookup | done | solve_lookup | done ]).
      step.
      step_by (eapply cache_set_insert_head_run; solve_lookup).
      done.
    + rewrite wrap_int_id by (unfold INT_MAX in Hn; lia).
      split.
      * split; cbn [s_head s_curr s_size s_tail].
        -- split; [done|]. eexists. split; [apply lookup_insert_eq|]. done.
        -- done.
        -- by left.
        -- lia.
        -- lia.
        -- cbn. lia.
        -- rewrite Hview. cbn. apply NoDup_singleton.
      * intros a _ Hak. by rewrite lookup_insert_ne.
      * intros a [b Hb]. destruct (decide (a = k)) as [->|Hak]; [lia|].
        rewrite lookup_insert_ne in Hb by done.
        specialize (Hfresh a (mk_is_Some _ _ Hb)). lia.
      * lia.
      * intros a ->%list_elem_of_singleton. by right.
      * done.
    + cbn [s_size]. apply wrap_int_id. unfold INT_MAX in Hn. lia.
    + done.
  - (* several blocks: the last one is unlinked and freed *)
    apply lseg_snoc in Hseg as (Hseg & by_ & Hy & Hny).
    apply NoDup_snoc_inv in Hnd as (Hnd & Hzl).
    apply NoDup_snoc_inv in Hnd as (Hnd & Hy1).
    assert (Hyz : y ≠ z).
    { intros ->. apply Hzl. apply elem_of_app. right. by apply list_elem_of_singleton. }
    assert (Hz1 : z ∉ l1).
    { intros ?. apply Hzl. apply elem_of_app. by left. }
    assert (Hky : k ≠ y).
    { intros ->. apply Hk. rewrite !elem_of_app, !list_elem_of_singleton. auto. }
    assert (Hk1 : k ∉ l1).
    { intros ?. apply Hk. rewrite !elem_of_app. auto. }
    rewrite length_app in Hfull, Hf. cbn in Hfull, Hf.
    set (bs' := <[k := CacheBlock line d (s_head st)]>
                  (delete z (<[y := CacheBlock (b_tag by_) (b_dirty by_) None]>
                               (<[k := CacheBlock line d None]> bs)))).
    exists bs',
           (CacheSet (Some k) (Some k) (wrap_int (s_size st + 1)) (Some y)),
           (k :: l1 ++ [y]), (negb (b_dirty bz =? 0)).
    assert (Hag : ∀ a, a ∈ l1 → bs' !! a = bs !! a).
    { intros a Ha. unfold bs'.
      rewrite lookup_insert_ne by set_solver.
      rewrite lookup_delete_ne by set_solver.
      rewrite lookup_insert_ne by set_solver.
      rewrite lookup_insert_ne by set_solver. done. }
    assert (Hby : bs' !! y = Some (CacheBlock (b_tag by_) (b_dirty by_) None)).
    { unfold bs'. rewrite lookup_insert_ne by done.
      rewrite lookup_delete_ne by done. apply lookup_insert_eq. }
    assert (Hview : view bs' (k :: l1 ++ [y])
                    = Model.Block line (is_store operator) :: view bs (l1 ++ [y])).
    { cbn. f_equal.
      - unfold block_at, bs'. rewrite lookup_insert_eq. cbn.
        f_equal. apply is_store_dirty.
      - apply view_agree. intros a [Ha| ->%list_elem_of_singleton]%elem_of_app.
        + by rewrite Hag.
        + rewrite Hby, Hy. done. }
    split_and!.
    + by rewrite Hacc, Hview.
    + rewrite Hpre.
      step_by (eapply cache_set_remove_tail_run with (l := l1) (y := y) (z := z);
               [ solve_lookup
               | reduce_state; apply lseg_insert_ne; [done | exact Hseg]
               | solve_lookup | done | solve_lookup | done | done | lia ]).
      step.
      step_by (eapply cache_set_insert_head_run;
               [ solve_lookup
               | reduce_state; rewrite lookup_delete_ne by done;
                 rewrite lookup_insert_ne by done; apply lookup_insert_eq ]).
      done.
    + rewrite wrap_int_id by (unfold INT_MAX in Hn; lia).
      split.
      * split; cbn [s_head s_curr s_size s_tail].
        -- split; [done|]. eexists. split; [apply lookup_insert_eq|]. cbn.
           apply lseg_snoc. split; [|eauto].
           eapply lseg_agree; [|exact Hseg]. done.
        -- done.
        -- right. split; [cbn; rewrite length_app; cbn; lia|].
           change (k :: l1 ++ [y]) with ((k :: l1) ++ [y]). by rewrite last_snoc.
        -- lia.
        -- lia.
        -- intros _. cbn. rewrite length_app. cbn. lia.
        -- rewrite Hview. cbn. apply NoDup_cons. split.
           ++ intros Hin. apply list_elem_of_fmap in Hin as (x & Hx & Hin).
              apply list_elem_of_fmap in Hin as (a & -> & Ha).
              eapply lookup_view_None; [exact Hlook| |done]. set_solver.
           ++ rewrite view_snoc, fmap_app in Htags.
              by apply NoDup_app in Htags as (? & _).
      * intros a Ha Hak. unfold bs'.
        rewrite lookup_insert_ne by done.
        rewrite lookup_delete_ne by set_solver.
        rewrite lookup_insert_ne by set_solver.
        by rewrite lookup_insert_ne.
      * intros a [b Hb]. destruct (decide (a = k)) as [->|Hak]; [lia|].
        unfold bs' in Hb. rewrite lookup_insert_ne in Hb by done.
        apply lookup_delete_Some in Hb as (Haz & Hb).
        destruct (decide (a = y)) as [->|Hay].
        { specialize (Hfresh y (mk_is_Some _ _ Hy)). lia. }
        rewrite !lookup_insert_ne in Hb by done.
        specialize (Hfresh a (mk_is_Some _ _ Hb)). lia.
      * lia.
      * intros a [->|Ha]%elem_of_cons; [by right|left; set_solver].
      * intros _ a [b Hb]. destruct (decide (a = k)) as [->|Hak]; [left; set_solver|].
        unfold bs' in Hb. rewrite lookup_insert_ne in Hb by done.
        apply lookup_delete_Some in Hb as (Haz & Hb).
        destruct (decide (a = y)) as [->|Hay]; [left; set_solver|].
        rewrite !lookup_insert_ne in Hb by done.
        destruct (decide (a ∈ l1)); [left; set_solver|].
        right. split; [set_solver|eauto].
    + cbn [s_size]. apply wrap_int_id. unfold INT_MAX in Hn. lia.
    + cbn. rewrite !length_app. cbn. lia.
Qed.

(** The search followed by the [if (!found)] block, for any rest [K] of the
    loop body: one access of the specification. *)
Lemma main_access_run fuel E n bs ss ar rc k g out cache arr i sp st l line
    operator de :
  ar !! cache = Some arr → arr !! i = Some (Some sp) → ss !! sp = Some st →
  set_inv E n bs st l →
  1 ≤ E → n < INT_MAX →
  (2 * length l < fuel)%nat →
  (∀ a, is_Some (bs !! a) → (a < k)%positive) →
  ∃ o bs' st' l' k',
    Model.access E (is_store operator) line (view bs l) = (view bs' l', o)
    ∧ (∀ A (K : Z → Z * Z * Z → M A),
         (found <- main_search fuel (Some cache) (Z.of_nat i) line operator ;;
          r <- (if found =? 0
                then main_insert fuel (Some cache) E (Z.of_nat i) line operator de
                else ret (0, 0, de)) ;;
          K found r) (State bs ss ar rc k (S g) out)
         = K (fst (flags_of o de)) (snd (flags_of o de))
             (State bs' (<[sp := st']> ss) ar rc k'
                    (if Model.is_miss o then g else S g) out))
    ∧ access_post E n bs l k bs' st' l' k'.
Proof.
  intros Har Hi Hs Hinv HE Hn Hf Hfresh.
  destruct (Model.lookup line (view bs l)) as [[x r]|] eqn:Hlook.
  - destruct (main_access_hit fuel E n bs ss ar rc k (S g) out cache arr i sp st
                l line operator x r) as (bs' & st' & l' & Hacc & Hrun & Hpost);
      try done.
    exists Model.Hit, bs', st', l', k. split_and!; [done| |done].
    intros A K. step_by (exact Hrun). cbn [Z.eqb Pos.eqb]. by step.
  - assert (Hmiss : main_search fuel (Some cache) (Z.of_nat i) line operator
                      (State bs ss ar rc k (S g) out)
                    = Ok 0 (State bs ss ar rc k (S g) out)).
    { eapply main_search_miss with (l := l);
        [exact Har | exact Hi | exact Hs | by destruct Hinv | | lia].
      intros a b Ha Hb. rewrite <- (block_at_tag _ _ _ Hb).
        by eapply lookup_view_None. }
    destruct (decide (s_size st < E)) as [Hlt|Hge].
    + destruct (main_access_miss fuel E n bs ss ar rc k g out cache arr i sp st
                  l line operator de) as (bs' & st' & l' & Hacc & Hrun & Hpost);
        try done.
      exists Model.Miss, bs', st', l', (Pos.succ k). split_and!; [done| |done].
      intros A K. step_by (exact Hmiss). cbn [Z.eqb].
      by step_by (exact Hrun).
    + destruct (main_access_evict fuel E n bs ss ar rc k g out cache arr i sp st
                  l line operator de)
        as (bs' & st' & l' & d & Hacc & Hrun & Hpost & _); try done; [lia..|].
      exists (Model.MissEviction d), bs', st', l', (Pos.succ k).
      split_and!; [done| |done].
      intros A K. step_by (exact Hmiss). cbn [Z.eqb].
      by step_by (exact Hrun).
Qed.

(** ** One event on the whole cache *)

Lemma set_count s : 0 ≤ s < 64 → wrap_ulong (Z.shiftl 1 s) = 2 ^ s.
Proof.
  intros Hs. rewrite Z.shiftl_1_l. apply wrap_ulong_id.
  split; [lia|]. apply Z.pow_lt_mono_r; lia.
Qed.

Lemma set_count_mod s : 0 ≤ s < 64 → wrap_ulong (Z.shiftl 1 (s mod 64)) = 2 ^ s.
Proof. intros Hs. rewrite Z.mod_small by lia. by apply set_count. Qed.

Lemma wrap_int_mod_64 z : wrap_int z mod 64 = z mod 64.
Proof.
  unfold wrap_int. rewrite (Z.mod_eq (z + 2 ^ 31) (2 ^ 32)) by lia.
  set (q := (z + 2 ^ 31) / 2 ^ 32).
  replace (z + 2 ^ 31 - 2 ^ 32 * q - 2 ^ 31) with (z + (- q * 2 ^ 26) * 64) by lia.
  apply Z_mod_plus_full.
Qed.

Lemma which_set_spec A s b :
  0 ≤ s < 64 → 0 ≤ b < 64 → which_set A b (2 ^ s) = Model.set_index s b A.
Proof.
  intros Hs Hb. unfold which_set, Model.set_index.
  assert (0 < 2 ^ s < 2 ^ 64) by (split; [lia | apply Z.pow_lt_mono_r; lia]).
  rewrite wrap_ulong_id by lia. rewrite (Z.mod_small b) by lia.
  replace (2 ^ s - 1) with (Z.ones s) by (rewrite Z.ones_equiv; lia).
  apply Z.land_ones. lia.
Qed.

Lemma which_cache_line_spec A s b :
  0 ≤ b + s < 64 → which_cache_line A b s = Model.tag_of s b A.
Proof.
  intros H. unfold which_cache_line, Model.tag_of.
  by rewrite wrap_int_mod_64, Z.mod_small.
Qed.

Lemma set_index_range A s b : 0 ≤ s → 0 ≤ Model.set_index s b A < 2 ^ s.
Proof. intros Hs. unfold Model.set_index. apply Z.mod_pos_bound. lia. Qed.

Lemma set_inv_frame E n n' bs bs' st l :
  (∀ a, a ∈ l → bs' !! a = bs !! a) → n ≤ n' →
  set_inv E n bs st l → set_inv E n' bs' st l.
Proof.
  intros Hag Hn [Hch Hcur Htl Hrange Hbelow Hfull Htags]. split; try done.
  - by eapply lseg_agree.
  - lia.
  - erewrite view_agree; [done|]. intros a Ha. by rewrite Hag.
Qed.

Lemma cache_views_insert bs bs' (ls : list (list loc)) i l l' :
  ls !! i = Some l →
  (∀ j lj, j ≠ i → ls !! j = Some lj → view bs' lj = view bs lj) →
  view bs' <$> <[i := l']> ls = <[i := view bs' l']> (view bs <$> ls).
Proof.
  intros Hi Hag. apply list_eq. intros j.
  destruct (decide (j = i)) as [->|Hji].
  - rewrite list_lookup_fmap.
    rewrite !list_lookup_insert_eq; [done| |].
    + rewrite length_fmap. by eapply lookup_lt_Some.
    + by eapply lookup_lt_Some.
  - rewrite list_lookup_fmap. rewrite !list_lookup_insert_ne by done.
    rewrite list_lookup_fmap. destruct (ls !! j) as [lj|] eqn:Hj; [|done].
    cbn. f_equal. by eapply Hag.
Qed.

Lemma cache_access fuel s E b n cache sps ls bs ss ar rc k g out A operator de :
  cache_inv E n cache sps ls (State bs ss ar rc k (S g) out) →
  geometry_ok s E b → Z.of_nat (length sps) = 2 ^ s →
  n < INT_MAX → (2 * Z.to_nat E < fuel)%nat →
  ∃ o bs' ss' ls' k',
    Model.step s E b (is_store operator) A (view bs <$> ls)
    = (view bs' <$> ls', o)
    ∧ (∀ T (K : Z → Z * Z * Z → M T),
         (found <- main_search fuel (Some cache) (which_set A b (2 ^ s))
                     (which_cache_line A b s) operator ;;
          r <- (if found =? 0
                then main_insert fuel (Some cache) E (which_set A b (2 ^ s))
                       (which_cache_line A b s) operator de
                else ret (0, 0, de)) ;;
          K found r) (State bs ss ar rc k (S g) out)
         = K (fst (flags_of o de)) (snd (flags_of o de))
             (State bs' ss' ar rc k' (if Model.is_miss o then g else S g) out))
    ∧ cache_inv E (n + 1) cache sps ls'
        (State bs' ss' ar rc k' (if Model.is_miss o then g else S g) out).
Proof.
  intros [Harr Hnd Hdom Hlen Hsets Hdisj Hfresh Hleak] [Hs Hb Hw HE] HS Hn Hf.
  cbn [arrays records sets blocks brk] in *.
  rewrite which_set_spec by lia. rewrite which_cache_line_spec by lia.
  pose proof (set_index_range A s b Hs) as Hidx.
  set (i := Z.to_nat (Model.set_index s b A)).
  assert (Hi : (i < length sps)%nat) by (unfold i; lia).
  destruct (lookup_lt_is_Some_2 sps i Hi) as [sp Hsp].
  destruct (lookup_lt_is_Some_2 ls i ltac:(lia)) as [l Hl].
  destruct (Hsets i sp l Hsp Hl) as (st & Hst & Hinv).
  assert (Hlenl : Z.of_nat (length l) ≤ E).
  { destruct Hinv as [_ _ _ _ Hbelow Hfull _].
    destruct (decide (s_size st < E)); [rewrite Hbelow by done; lia|].
    rewrite Hfull; lia. }
  destruct (main_access_run fuel E n bs ss ar rc k g out cache (Some <$> sps) i sp
              st l (Model.tag_of s b A) operator de)
    as (o & bs' & st' & l' & k' & Hacc & Hrun & Hpost); try done.
  { rewrite Harr. apply lookup_singleton_eq. }
  { rewrite list_lookup_fmap, Hsp. done. }
  { lia. }
  destruct Hpost as [Hinv' Hframe Hfresh' Hbrk Hmem Hnoleak].
  assert (Hother : ∀ j lj a, j ≠ i → ls !! j = Some lj → a ∈ lj →
                   bs' !! a = bs !! a).
  { intros j lj a Hji Hj Ha. apply Hframe.
    - intros Hal. apply Hji. by eapply Hdisj.
    - intros ->.
      assert (Hjlen : (j < length sps)%nat).
      { rewrite <- Hlen. by eapply lookup_lt_Some. }
      destruct (lookup_lt_is_Some_2 sps j Hjlen) as [spj Hspj].
      destruct (Hsets j spj lj Hspj Hj) as (stj & _ & [Hchj _ _ _ _ _ _]).
      pose proof (lseg_lookup _ _ _ _ _ Hchj Ha) as Hsome.
      apply Hfresh in Hsome. lia. }
  exists o, bs', (<[sp := st']> ss), (<[i := l']> ls), k'. split_and!.
  - unfold Model.step. fold i. rewrite list_lookup_fmap, Hl.
    change (default [] (view bs <$> Some l)) with (view bs l).
    rewrite Hacc. cbn [fst snd]. f_equal.
    symmetry. eapply cache_views_insert; [done|].
    intros j lj Hji Hj. apply view_agree. intros a Ha.
    by rewrite (Hother j lj a).
  - intros T K. replace (Model.set_index s b A) with (Z.of_nat i) by (unfold i; lia).
    apply Hrun.
  - split; cbn [arrays records sets blocks brk].
    + done.
    + done.
    + intros a. rewrite <- Hdom. destruct (decide (a = sp)) as [->|Ha].
      * rewrite lookup_insert_eq, Hst. split; eauto.
      * by rewrite lookup_insert_ne.
    + by rewrite length_insert.
    + intros j spj lj Hspj Hj. destruct (decide (j = i)) as [->|Hji].
      * rewrite list_lookup_insert_eq in Hj by (by eapply lookup_lt_Some).
        injection Hj as <-. rewrite Hsp in Hspj. injection Hspj as <-.
        exists st'. split; [apply lookup_insert_eq|done].
      * rewrite list_lookup_insert_ne in Hj by done.
        destruct (Hsets j spj lj Hspj Hj) as (stj & Hstj & Hinvj).
        exists stj. split.
        -- rewrite lookup_insert_ne; [done|]. intros <-.
           apply Hji. symmetry. eapply NoDup_lookup; done.
        -- eapply (set_inv_frame E n (n + 1) bs); [|lia|exact Hinvj].
           intros a Ha. by eapply Hother.
    + intros j1 j2 l1 l2 a Hj1 Hj2 Ha1 Ha2.
      assert (Hlook : ∀ j lj, <[i := l']> ls !! j = Some lj → a ∈ lj →
                      (j = i ∧ lj = l') ∨ (j ≠ i ∧ ls !! j = Some lj)).
      { intros j lj Hj _. destruct (decide (j = i)) as [->|Hji].
        - left. rewrite list_lookup_insert_eq in Hj by (by eapply lookup_lt_Some).
          by injection Hj as <-.
        - right. by rewrite list_lookup_insert_ne in Hj. }
      assert (Hnew : ∀ j lj, j ≠ i → ls !! j = Some lj → a ∈ lj → a ∈ l' → False).
      { intros j lj Hji Hj Haj Hal'. destruct (Hmem a Hal') as [Hal| ->].
        - apply Hji. by eapply Hdisj.
        - assert (Hjlen : (j < length sps)%nat).
          { rewrite <- Hlen. by eapply lookup_lt_Some. }
          destruct (lookup_lt_is_Some_2 sps j Hjlen) as [spj Hspj].
          destruct (Hsets j spj lj Hspj Hj) as (stj & _ & [Hchj _ _ _ _ _ _]).
          pose proof (lseg_lookup _ _ _ _ _ Hchj Haj) as Hsome.
          apply Hfresh in Hsome. lia. }
      destruct (Hlook _ _ Hj1 Ha1) as [[-> ->]|[Hn1 Hj1']],
               (Hlook _ _ Hj2 Ha2) as [[-> ->]|[Hn2 Hj2']].
      * done.
      * exfalso. by eapply Hnew.
      * exfalso. by eapply Hnew.
      * by eapply Hdisj.
    + done.
    + intros HE1 a Ha. destruct (Hnoleak HE1 a Ha) as [Hal'|[Hal Hsome]].
      * exists i, l'. split; [|done].
        apply list_lookup_insert_eq. by eapply lookup_lt_Some.
      * destruct (Hleak HE1 a Hsome) as (j & lj & Hj & Haj).
        exists j, lj. split; [|done]. rewrite list_lookup_insert_ne; [done|].
        intros <-. rewrite Hl in Hj. injection Hj as <-. done.
Qed.

Lemma cache_inv_ext E n cache sps ls bs ss ar rc k g out g' out' :
  cache_inv E n cache sps ls (State bs ss ar rc k g out) →
  cache_inv E n cache sps ls (State bs ss ar rc k g' out').
Proof. intros []. by split. Qed.

Lemma valid_operator_cases c :
  valid_operator c = true → c = "L"%char ∨ c = "S"%char.
Proof.
  unfold valid_operator. intros [H|H]%orb_true_iff; apply Ascii.eqb_eq in H; auto.
Qed.

Lemma main_outcome_valid operator o c n :
  valid_operator operator = true → counters_ok n c → n < INT_MAX →
  main_outcome operator (fst (flags_of o (dirty_eviction c)))
    (fst (fst (snd (flags_of o (dirty_eviction c)))))
    (snd (fst (snd (flags_of o (dirty_eviction c)))))
    (Counters (hit c) (miss c) (eviction c) (snd (snd (flags_of o (dirty_eviction c)))))
  = (count_step c o, Some (Model.label o), 0).
Proof.
  intros Hop (Hh & Hm & He & Hd) Hn. unfold INT_MAX in Hn.
  assert (Hw : ∀ z, 0 ≤ z ≤ n → wrap_ulong (z + 1) = z + 1).
  { intros z Hz. apply wrap_ulong_id. lia. }
  assert (Hmain : ∀ t : counters * option string,
            (if Ascii.eqb operator "S" then (t, 0)
             else if Ascii.eqb operator "L" then (t, 0)
             else (Counters (hit c) (miss c) (eviction c)
                     (snd (snd (flags_of o (dirty_eviction c)))), None, 1))
            = (t, 0)).
  { intros t. destruct (valid_operator_cases _ Hop) as [-> | ->]; done. }
  unfold main_outcome. rewrite Hmain. f_equal.
  destruct o as [| |d]; cbn; unfold count_step; cbn; rewrite ?Hw by done.
  - do 2 f_equal; lia.
  - do 2 f_equal; lia.
  - destruct d; cbn; rewrite ?Hw by done; do 2 f_equal; lia.
Qed.

Lemma count_step_ok n c o :
  counters_ok n c → counters_ok (n + 1) (count_step c o).
Proof.
  intros (Hh & Hm & He & Hd). unfold counters_ok, count_step, b2z. cbn.
  destruct o as [| |[]]; cbn; lia.
Qed.

Lemma main_event_valid fuel v s E b n cache sps ls bs ss ar rc k g out e c :
  cache_inv E n cache sps ls (State bs ss ar rc k (S g) out) →
  geometry_ok s E b → Z.of_nat (length sps) = 2 ^ s →
  n < INT_MAX → (2 * Z.to_nat E < fuel)%nat →
  counters_ok n c →
  valid_operator (ev_operator e) = true →
  ∃ o bs' ss' ls' k',
    Model.step s E b (is_store (ev_operator e)) (ev_address e) (view bs <$> ls)
    = (view bs' <$> ls', o)
    ∧ main_event fuel v s E b (2 ^ s) (Some cache) e c
        (State bs ss ar rc k (S g) out)
      = Ok (None, count_step c o)
           (State bs' ss' ar rc k' (if Model.is_miss o then g else S g)
                  (out ++ verbose_line v e o))
    ∧ cache_inv E (n + 1) cache sps ls'
        (State bs' ss' ar rc k' (if Model.is_miss o then g else S g)
               (out ++ verbose_line v e o)).
Proof.
  intros Hinv Hgeo HS Hn Hf Hc Hop.
  destruct (cache_access fuel s E b n cache sps ls bs ss ar rc k g out
              (ev_address e) (ev_operator e) (dirty_eviction c))
    as (o & bs' & ss' & ls' & k' & Hstep & Hrun & Hinv'); try done.
  exists o, bs', ss', ls', k'. split_and!; [done| |by eapply cache_inv_ext].
  unfold main_event. cbv zeta. rewrite Hrun.
  erewrite main_outcome_valid by done. cbn [fst snd Z.eqb negb].
  unfold verbose_line. destruct (negb (v =? 0)).
  - unfold bind, printf, ret. cbn. done.
  - unfold bind, ret. cbn. by rewrite app_nil_r.
Qed.

(** ** Tearing the cache down *)

Lemma lookup_drop_keys {V} (l : list loc) (m : gmap loc V) a :
  drop_keys l m !! a = if decide (a ∈ l) then None else m !! a.
Proof.
  revert m. induction l as [|x l IH]; intros m.
  - cbn. by rewrite decide_False by set_solver.
  - change (drop_keys (x :: l) m) with (drop_keys l (delete x m)).
    rewrite IH. destruct (decide (a = x)) as [->|Hax].
    + rewrite lookup_delete_eq. rewrite (decide_True (P := x ∈ x :: l)) by set_solver.
      by destruct (decide (x ∈ l)).
    + rewrite lookup_delete_ne by done.
      destruct (decide (a ∈ l)).
      * by rewrite decide_True by set_solver.
      * by rewrite decide_False by set_solver.
Qed.

Lemma drop_keys_app {V} (l1 l2 : list loc) (m : gmap loc V) :
  drop_keys (l1 ++ l2) m = drop_keys l2 (drop_keys l1 m).
Proof. unfold drop_keys. apply foldl_app. Qed.

Lemma free_chain_run fuel ss ar rc k g out l :
  ∀ bs p, chain bs p l → (length l < fuel)%nat →
  while fuel
    (fun curr => ret (bool_decide (is_Some curr)))
    (fun curr => next <- rd_next curr ;; free_block curr ;; ret next)
    p (State bs ss ar rc k g out)
  = Ok None (State (drop_keys l bs) ss ar rc k g out).
Proof.
  revert fuel. induction l as [|a l IH]; intros fuel bs p Hch Hf;
    (destruct fuel as [|fuel]; [cbn in Hf; lia|]); rewrite while_unroll.
  - cbn in Hch. subst p. step. rewrite bool_decide_false by (by intros [? ?]). done.
  - pose proof (chain_NoDup _ _ _ Hch) as Hnd. apply NoDup_cons in Hnd as (Ha & Hnd).
    cbn in Hch. destruct Hch as (-> & b & Hb & Hch).
    step. rewrite bool_decide_true by eauto. repeat step.
    erewrite IH; [done| |cbn in Hf; lia].
    eapply lseg_agree; [|exact Hch]. intros a' Ha'.
    apply lookup_delete_ne. intros ->. done.
Qed.

Lemma drop_S_lookup {A} (l : list A) j x :
  l !! j = Some x → drop j l = x :: drop (S j) l.
Proof.
  revert j. induction l as [|y l IH]; intros [|j]; cbn; try done.
  - by intros [= ->].
  - apply IH.
Qed.

(** The first loop of [full_free_cache], from set [j] on. *)
Lemma free_chains_run fuel ss ar rc k g out cache sps (ls : list (list loc)) :
  ar !! cache = Some (Some <$> sps) →
  length ls = length sps →
  (∀ j1 j2 l1 l2 a, ls !! j1 = Some l1 → ls !! j2 = Some l2 →
                    a ∈ l1 → a ∈ l2 → j1 = j2) →
  ∀ n j bs,
  (j + n = length sps)%nat →
  (∀ i sp l, (j ≤ i)%nat → sps !! i = Some sp → ls !! i = Some l →
     ∃ st, ss !! sp = Some st ∧ chain bs (s_head st) l ∧ (length l < fuel)%nat) →
  for_range (R := unit) n (Z.of_nat j)
    (fun i =>
       set <- rd_index (Some cache) i ;;
       curr <- rd_head set ;;
       while fuel
         (fun curr => ret (bool_decide (is_Some curr)))
         (fun curr => next <- rd_next curr ;; free_block curr ;; ret next)
         curr ;;
       ret None)
    (State bs ss ar rc k g out)
  = Ok None (State (drop_keys (concat (drop j ls)) bs) ss ar rc k g out).
Proof.
  intros Har Hlen Hdisj. induction n as [|n IH]; intros j bs Hj Hsets.
  - rewrite drop_ge by lia. done.
  - assert (Hjs : (j < length sps)%nat) by lia.
    destruct (lookup_lt_is_Some_2 sps j Hjs) as [sp Hsp].
    destruct (lookup_lt_is_Some_2 ls j ltac:(lia)) as [l Hl].
    destruct (Hsets j sp l ltac:(lia) Hsp Hl) as (st & Hst & Hch & Hf).
    cbn [for_range].
    step_by (eapply rd_index_run; [solve_lookup | by rewrite list_lookup_fmap, Hsp]).
    step.
    step_by (eapply free_chain_run; [exact Hch | done]).
    step.
    replace (Z.of_nat j + 1) with (Z.of_nat (S j)) by lia.
    rewrite IH; [| lia |].
    + rewrite (drop_S_lookup _ _ _ Hl). cbn [concat]. by rewrite drop_keys_app.
    + intros i spi li Hi Hspi Hli.
      destruct (Hsets i spi li ltac:(lia) Hspi Hli) as (sti & Hsti & Hchi & Hfi).
      exists sti. split_and!; [done| |done].
      eapply lseg_agree; [|exact Hchi]. intros a Ha.
      rewrite lookup_drop_keys. rewrite decide_False; [done|].
      intros Hal. assert (i = j) by (by eapply Hdisj). lia.
Qed.

(** The loop that frees the set structures, from set [j] on. *)
Lemma free_set_structs_run bs ar rc k g out cache sps :
  ar !! cache = Some (Some <$> sps) →
  NoDup sps →
  ∀ n j ss,
  (j + n = length sps)%nat →
  (∀ i sp, (j ≤ i)%nat → sps !! i = Some sp → is_Some (ss !! sp)) →
  for_range (R := unit) n (Z.of_nat j)
    (fun j => set <- rd_index (Some cache) j ;; free_set set ;; ret None)
    (State bs ss ar rc k g out)
  = Ok None (State bs (drop_keys (drop j sps) ss) ar rc k g out).
Proof.
  intros Har Hnd. induction n as [|n IH]; intros j ss Hj Hsets.
  - rewrite drop_ge by lia. done.
  - assert (Hjs : (j < length sps)%nat) by lia.
    destruct (lookup_lt_is_Some_2 sps j Hjs) as [sp Hsp].
    destruct (Hsets j sp ltac:(lia) Hsp) as [st Hst].
    cbn [for_range].
    step_by (eapply rd_index_run; [solve_lookup | by rewrite list_lookup_fmap, Hsp]).
    repeat step.
    replace (Z.of_nat j + 1) with (Z.of_nat (S j)) by lia.
    rewrite IH; [| lia |].
    + by rewrite (drop_S_lookup _ _ _ Hsp).
    + intros i spi Hi Hspi. rewrite lookup_delete_ne; [by eapply Hsets; [|done]; lia|].
      intros <-. assert (j = i) by (by eapply NoDup_lookup). lia.
Qed.

(** [full_free_cache] releases the array, every set and every block that
    is still linked in a set. *)
Lemma full_free_cache_run fuel E n cache sps ls bs ss ar rc k g out :
  cache_inv E n cache sps ls (State bs ss ar rc k g out) →
  1 ≤ E → (Z.to_nat E < fuel)%nat →
  full_free_cache fuel (Some cache) (Z.of_nat (length sps))
    (State bs ss ar rc k g out)
  = Ok tt (State (drop_keys (linked ls) bs) ∅ ∅ rc k g out).
Proof.
  intros [Harr Hnd Hdom Hlen Hsets Hdisj Hfresh Hleak] HE Hf.
  cbn [arrays records sets blocks brk] in *.
  unfold full_free_cache. rewrite bool_decide_true by eauto.
  rewrite Nat2Z.id.
  assert (Hchains : ∀ i sp l, (0 ≤ i)%nat → sps !! i = Some sp → ls !! i = Some l →
            ∃ st, ss !! sp = Some st ∧ chain bs (s_head st) l
                  ∧ (length l < fuel)%nat).
  { intros i sp l _ Hsp Hl. destruct (Hsets i sp l Hsp Hl) as (st & Hst & Hinv).
    exists st. split_and!; [done|by destruct Hinv|].
    destruct Hinv as [_ _ _ _ Hbelow Hfull _].
    destruct (decide (s_size st < E)); [rewrite <- Hbelow in *; lia|].
    assert (Z.of_nat (length l) = E) by (apply Hfull; lia). lia. }
  assert (Hlive : ∀ i sp, (0 ≤ i)%nat → sps !! i = Some sp → is_Some (ss !! sp)).
  { intros i sp _ Hsp. apply Hdom. by eapply list_elem_of_lookup_2. }
  step_by (eapply (free_chains_run fuel ss ar rc k g out cache sps ls)
             with (j := O);
           [ rewrite Harr; apply lookup_singleton_eq | done | done | done
           | exact Hchains ]).
  step_by (eapply (free_set_structs_run _ ar rc k g out cache sps) with (j := O);
           [ rewrite Harr; apply lookup_singleton_eq | done | done
           | exact Hlive ]).
  erewrite free_array_run by (reduce_state; rewrite Harr; apply lookup_singleton_eq).
  reduce_state. rewrite !drop_0. f_equal. f_equal.
  - apply map_eq. intros a. rewrite lookup_drop_keys, lookup_empty.
    destruct (decide (a ∈ sps)) as [Ha|Ha]; [done|].
    destruct (ss !! a) eqn:Hsa; [|done]. exfalso. apply Ha, Hdom. eauto.
  - rewrite Harr. apply delete_singleton_eq.
Qed.

(** ** Counting dirty blocks *)

Lemma wrap_int_idemp z : wrap_int (wrap_int z) = wrap_int z.
Proof.
  unfold wrap_int. replace ((z + 2 ^ 31) mod 2 ^ 32 - 2 ^ 31 + 2 ^ 31)
    with ((z + 2 ^ 31) mod 2 ^ 32) by lia.
  by rewrite Z.mod_mod by lia.
Qed.

Lemma wrap_int_add_l x y : wrap_int (wrap_int x + y) = wrap_int (x + y).
Proof.
  unfold wrap_int. f_equal.
  replace ((x + 2 ^ 31) mod 2 ^ 32 - 2 ^ 31 + y + 2 ^ 31)
    with ((x + 2 ^ 31) mod 2 ^ 32 + y) by lia.
  rewrite Zplus_mod_idemp_l. f_equal. lia.
Qed.

Lemma dirty_count_cons x v :
  dirty_count (x :: v) = b2z (Model.dirty x) + dirty_count v.
Proof.
  unfold dirty_count. rewrite filter_cons. destruct (Model.dirty x) eqn:Hx; cbn.
  - rewrite decide_True by done. cbn [length]. lia.
  - rewrite decide_False by done. lia.
Qed.

Lemma dirty_count_app v1 v2 :
  dirty_count (v1 ++ v2) = dirty_count v1 + dirty_count v2.
Proof.
  unfold dirty_count. rewrite filter_app, length_app. lia.
Qed.

Lemma count_chain_run fuel m l :
  ∀ p d, chain (blocks m) p l → (length l < fuel)%nat → wrap_int d = d →
  while fuel
    (fun st : ptr * Z => ret (bool_decide (is_Some (fst st))))
    (fun st : ptr * Z =>
       d <- rd_dirty (fst st) ;;
       let dirty := if negb (d =? 0) then wrap_int (snd st + 1) else snd st in
       next <- rd_next (fst st) ;;
       ret (next, dirty))
    (p, d) m
  = Ok (None, wrap_int (d + dirty_count (view (blocks m) l))) m.
Proof.
  revert fuel. induction l as [|a l IH]; intros fuel p d Hch Hf Hd;
    (destruct fuel as [|fuel]; [cbn in Hf; lia|]); rewrite while_unroll.
  - cbn in Hch. subst p. step. rewrite bool_decide_false by (by intros [? ?]).
    cbn. unfold dirty_count. cbn. by rewrite Z.add_0_r, Hd.
  - cbn in Hch. destruct Hch as (-> & b & Hb & Hch).
    step. rewrite bool_decide_true by eauto. repeat step.
    cbn zeta. repeat step.
    rewrite IH; [| done | cbn in Hf; lia |].
    + do 2 f_equal. cbn [view fmap list_fmap]. fold (view (blocks m) l).
      rewrite dirty_count_cons. rewrite (block_at_dirty _ _ _ Hb).
      destruct (negb (b_dirty b =? 0)); cbn [b2z].
      * rewrite wrap_int_add_l. f_equal. lia.
      * f_equal.
    + destruct (negb (b_dirty b =? 0)); [apply wrap_int_idemp|done].
Qed.

Lemma count_dirty_loop fuel m cache sps (ls : list (list loc)) :
  arrays m !! cache = Some (Some <$> sps) →
  length ls = length sps →
  (∀ i sp l, sps !! i = Some sp → ls !! i = Some l →
     ∃ st, sets m !! sp = Some st ∧ chain (blocks m) (s_head st) l
           ∧ (length l < fuel)%nat) →
  ∀ n j d,
  (j + n = length sps)%nat → wrap_int d = d →
  for_fold n (Z.of_nat j)
    (fun i dirty =>
       set <- rd_index (Some cache) i ;;
       curr <- rd_head set ;;
       r <- while fuel
              (fun st : ptr * Z => ret (bool_decide (is_Some (fst st))))
              (fun st : ptr * Z =>
                 d <- rd_dirty (fst st) ;;
                 let dirty := if negb (d =? 0) then wrap_int (snd st + 1) else snd st in
                 next <- rd_next (fst st) ;;
                 ret (next, dirty))
              (curr, dirty) ;;
       ret (snd r))
    d m
  = Ok (wrap_int (d + dirty_count (concat (view (blocks m) <$> drop j ls)))) m.
Proof.
  intros Har Hlen Hsets. induction n as [|n IH]; intros j d Hj Hd.
  - rewrite drop_ge by lia. cbn. unfold dirty_count. cbn. by rewrite Z.add_0_r, Hd.
  - assert (Hjs : (j < length sps)%nat) by lia.
    destruct (lookup_lt_is_Some_2 sps j Hjs) as [sp Hsp].
    destruct (lookup_lt_is_Some_2 ls j ltac:(lia)) as [l Hl].
    destruct (Hsets j sp l Hsp Hl) as (st & Hst & Hch & Hf).
    cbn [for_fold].
    step_by (eapply rd_index_run; [solve_lookup | by rewrite list_lookup_fmap, Hsp]).
    step.
    step_by (eapply count_chain_run; [exact Hch | done | done]).
    step.
    replace (Z.of_nat j + 1) with (Z.of_nat (S j)) by lia.
    rewrite IH; [| lia | apply wrap_int_idemp].
    f_equal. rewrite (drop_S_lookup _ _ _ Hl). cbn [fmap list_fmap concat].
    rewrite dirty_count_app, wrap_int_add_l. f_equal. lia.
Qed.

(** [count_dirty] yields the number of resident dirty blocks, as an [int]. *)
Lemma count_dirty_run fuel E n cache sps ls m :
  cache_inv E n cache sps ls m →
  1 ≤ E → (Z.to_nat E < fuel)%nat →
  count_dirty fuel (Some cache) (Z.of_nat (length sps)) m
  = Ok (wrap_int (Model.resident_dirty (view (blocks m) <$> ls))) m.
Proof.
  intros [Harr Hnd Hdom Hlen Hsets Hdisj Hfresh Hleak] HE Hf.
  cbn [arrays records sets blocks brk] in *.
  assert (Ha : arrays m !! cache = Some (Some <$> sps)).
  { rewrite Harr. apply lookup_singleton_eq. }
  assert (Hchains : ∀ i sp l, sps !! i = Some sp → ls !! i = Some l →
            ∃ st, sets m !! sp = Some st ∧ chain (blocks m) (s_head st) l
                  ∧ (length l < fuel)%nat).
  { intros i sp l Hsp Hl. destruct (Hsets i sp l Hsp Hl) as (st & Hst & Hinv).
    exists st. split_and!; [done|by destruct Hinv|].
    destruct Hinv as [_ _ _ _ Hbelow Hfull _].
    destruct (decide (s_size st < E)); [rewrite <- Hbelow in *; lia|].
    assert (Z.of_nat (length l) = E) by (apply Hfull; lia). lia. }
  unfold count_dirty. rewrite Nat2Z.id.
  pose proof (count_dirty_loop fuel m cache sps ls Ha Hlen Hchains (length sps) O 0
                eq_refl eq_refl) as Hrun.
  rewrite drop_0 in Hrun. exact Hrun.
Qed.

(** ** Building the cache *)

Lemma new_cache_set_run bs ss ar rc k g out :
  new_cache_set (State bs ss ar rc k (S g) out)
  = Ok (Some k)
       (State bs (<[k := CacheSet None None 0 None]> ss) ar rc (Pos.succ k) g out).
Proof.
  unfold new_cache_set. step_by (apply malloc_set_run).
  rewrite bool_decide_true by eauto. cbn [negb]. repeat step. done.
Qed.

Lemma fresh_ptrs_length k n : length (fresh_ptrs k n) = n.
Proof. revert k. induction n as [|n IH]; intros k; cbn; [done|]. by rewrite IH. Qed.

Lemma fresh_ptrs_ge k n a : a ∈ fresh_ptrs k n → (k ≤ a)%positive.
Proof.
  revert k. induction n as [|n IH]; intros k; cbn; [set_solver|].
  intros [->|Ha]%elem_of_cons; [lia|]. apply IH in Ha. lia.
Qed.

Lemma fresh_ptrs_NoDup k n : NoDup (fresh_ptrs k n).
Proof.
  revert k. induction n as [|n IH]; intros k; cbn; [constructor|].
  constructor; [|apply IH]. intros Ha%fresh_ptrs_ge. lia.
Qed.

Lemma lookup_add_sets l ss a :
  add_sets l ss !! a
  = if decide (a ∈ l) then Some (CacheSet None None 0 None) else ss !! a.
Proof.
  revert ss. induction l as [|x l IH]; intros ss.
  - cbn. by rewrite decide_False by set_solver.
  - change (add_sets (x :: l) ss)
      with (add_sets l (<[x := CacheSet None None 0 None]> ss)).
    rewrite IH. destruct (decide (a ∈ l)).
    + by rewrite decide_True by set_solver.
    + destruct (decide (a = x)) as [->|Hax].
      * rewrite lookup_insert_eq. by rewrite decide_True by set_solver.
      * rewrite lookup_insert_ne by done. by rewrite decide_False by set_solver.
Qed.

Lemma main_build_loop bs rc out cache n :
  ∀ sps ss k g,
  for_range n (Z.of_nat (length sps))
    (fun i =>
       p <- new_cache_set ;;
       wr_index (Some cache) i p ;;
       ci <- rd_index (Some cache) i ;;
       if negb (bool_decide (is_Some ci)) then
         free_sets (Some cache) i ;; ret (Some 0)
       else ret None)
    (State bs ss {[cache := (Some <$> sps) ++ replicate n None]} rc k (n + g) out)
  = Ok None
       (State bs (add_sets (fresh_ptrs k n) ss)
              {[cache := Some <$> (sps ++ fresh_ptrs k n)]} rc
              (Pos.of_nat (Pos.to_nat k + n)) g out).
Proof.
  induction n as [|n IH]; intros sps ss k g.
  - cbn. rewrite !app_nil_r, Nat.add_0_r, Pos2Nat.id. done.
  - cbn [for_range Nat.add].
    step_by (apply new_cache_set_run).
    assert (Hlen : (length sps < length ((Some <$> sps) ++ replicate (S n) None))%nat).
    { rewrite length_app, length_fmap, length_replicate. lia. }
    step_by (eapply wr_index_run; [reduce_state; apply lookup_singleton_eq | exact Hlen]).
    rewrite insert_singleton_eq.
    assert (Harr : <[length sps := Some k]> ((Some <$> sps) ++ replicate (S n) None)
                   = (Some <$> (sps ++ [k])) ++ replicate n None).
    { rewrite fmap_app. cbn [fmap list_fmap replicate]. rewrite <- app_assoc. cbn.
      replace (length sps) with (length (Some <$> sps) + 0)%nat
        by (rewrite length_fmap; lia).
      by rewrite insert_app_r. }
    rewrite Harr.
    step_by (eapply rd_index_run with (sp := Some k);
             [ reduce_state; apply lookup_singleton_eq
             | rewrite lookup_app_l by (rewrite length_fmap, length_app; cbn; lia);
               rewrite list_lookup_fmap, lookup_app_r by lia;
               by rewrite Nat.sub_diag ]).
    rewrite bool_decide_true by eauto. cbn [negb]. step.
    replace (Z.of_nat (length sps) + 1) with (Z.of_nat (length (sps ++ [k])))
      by (rewrite length_app; cbn; lia).
    rewrite IH. cbn [fresh_ptrs]. rewrite <- app_assoc. cbn [app].
    do 2 f_equal. lia.
Qed.

Lemma main_build_run E s g :
  1 ≤ E → 0 ≤ s < 64 →
  ∃ sps ss k,
    main_build (2 ^ s) (boot (S (Z.to_nat (2 ^ s) + g)))
    = Ok (None, Some 1%positive) (State ∅ ss {[1%positive := Some <$> sps]} ∅ k g [])
    ∧ Z.of_nat (length sps) = 2 ^ s
    ∧ cache_inv E 0 1 sps (replicate (length sps) [])
        (State ∅ ss {[1%positive := Some <$> sps]} ∅ k g []).
Proof.
  intros HE Hs. unfold main_build, boot.
  pose proof (main_build_loop ∅ ∅ [] 1%positive (Z.to_nat (2 ^ s)) [] ∅ 2%positive g)
    as Hloop.
  cbn [fmap list_fmap app length Z.of_nat] in Hloop.
  set (sps := fresh_ptrs 2 (Z.to_nat (2 ^ s))) in *.
  exists sps, (add_sets sps ∅), (Pos.of_nat (Pos.to_nat 2 + Z.to_nat (2 ^ s))).
  assert (Hlen : length sps = Z.to_nat (2 ^ s)) by apply fresh_ptrs_length.
  split_and!.
  - step_by (unfold calloc, malloc, bind; cbn; reflexivity).
    rewrite insert_empty.
    step_by (exact Hloop). done.
  - rewrite Hlen. lia.
  - split; cbn [arrays records sets blocks brk].
    + done.
    + apply fresh_ptrs_NoDup.
    + intros a. rewrite lookup_add_sets, lookup_empty.
      destruct (decide (a ∈ sps)); split; try done; try (by intros [? ?]); eauto.
    + by rewrite length_replicate.
    + intros i sp l Hsp Hl. apply lookup_replicate in Hl as (-> & _).
      exists (CacheSet None None 0 None). split.
      * rewrite lookup_add_sets. rewrite decide_True; [done|].
        by eapply list_elem_of_lookup_2.
      * split; cbn; try done; try lia; [by left | constructor].
    + intros j1 j2 l1 l2 a Hj1 _ Ha. apply lookup_replicate in Hj1 as (-> & _).
      set_solver.
    + intros a [? Ha]. by rewrite lookup_empty in Ha.
    + intros _ a [? Ha]. by rewrite lookup_empty in Ha.
Qed.

(** ** Replaying a trace *)

Lemma allocations_cons o os :
  allocations (o :: os)
  = ((if Model.is_miss o then 1 else 0) + allocations os)%nat.
Proof.
  unfold allocations. rewrite filter_cons. destruct (Model.is_miss o).
  - by rewrite decide_True by done.
  - by rewrite decide_False by done.
Qed.

Lemma main_loop_valid fuel v s E b cache sps trace :
  ∀ n c ls bs ss ar rc k g out,
  cache_inv E n cache sps ls (State bs ss ar rc k g out) →
  geometry_ok s E b → Z.of_nat (length sps) = 2 ^ s →
  n + Z.of_nat (length trace) ≤ INT_MAX → (2 * Z.to_nat E < fuel)%nat →
  (length trace ≤ g)%nat →
  counters_ok n c →
  valid_trace trace = true →
  ∃ bs' ss' ls' k' g',
    fst (Model.run s E b (accesses trace) (view bs <$> ls)) = view bs' <$> ls'
    ∧ main_loop fuel v s E b (2 ^ s) (Some cache) trace c
        (State bs ss ar rc k g out)
      = Ok (None, counters_after c
                    (snd (Model.run s E b (accesses trace) (view bs <$> ls))))
           (State bs' ss' ar rc k' g'
              (out ++ verbose_lines v trace
                        (snd (Model.run s E b (accesses trace) (view bs <$> ls)))))
    ∧ cache_inv E (n + Z.of_nat (length trace)) cache sps ls'
        (State bs' ss' ar rc k' g'
           (out ++ verbose_lines v trace
                     (snd (Model.run s E b (accesses trace) (view bs <$> ls)))))
    ∧ counters_ok (n + Z.of_nat (length trace))
        (counters_after c
           (snd (Model.run s E b (accesses trace) (view bs <$> ls))))
    ∧ (g = g' + allocations
                  (snd (Model.run s E b (accesses trace) (view bs <$> ls))))%nat.
Proof.
  induction trace as [|e trace IH]; intros n c ls bs ss ar rc k g out
    Hinv Hgeo HS Hn Hf Hg Hc Hvalid.
  - exists bs, ss, ls, k, g. cbn. rewrite app_nil_r, Z.add_0_r.
    split_and!; try done.
  - cbn in Hvalid. apply andb_true_iff in Hvalid as (Hop & Hvalid).
    cbn [length] in Hn, Hg. destruct g as [|g]; [lia|].
    destruct (main_event_valid fuel v s E b n cache sps ls bs ss ar rc k g out e c)
      as (o & bs1 & ss1 & ls1 & k1 & Hstep & Hrun & Hinv1); try done; [lia|].
    set (g1 := if Model.is_miss o then g else S g) in *.
    destruct (IH (n + 1) (count_step c o) ls1 bs1 ss1 ar rc k1 g1
                (out ++ verbose_line v e o))
      as (bs' & ss' & ls' & k' & g' & Hfinal & Hloop & Hinv' & Hc' & Hg');
      try done; [lia | subst g1; destruct (Model.is_miss o); lia
                | by apply count_step_ok |].
    exists bs', ss', ls', k', g'.
    cbn [accesses fmap list_fmap Model.run]. fold (accesses trace).
    rewrite Hstep. cbn [fst snd counters_after foldl verbose_lines].
    fold (counters_after (count_step c o)).
    rewrite app_assoc. cbn [length].
    replace (n + Z.of_nat (S (length trace))) with (n + 1 + Z.of_nat (length trace))
      by lia.
    split_and!; try done.
    + cbn [main_loop]. step_by (exact Hrun). cbn [fst snd]. exact Hloop.
    + rewrite allocations_cons. subst g1. destruct (Model.is_miss o); lia.
Qed.

(** ** The summary *)

Lemma malloc_stats_run bs ss ar rc k g out :
  malloc_stats (State bs ss ar rc k (S g) out)
  = Ok (Some k)
       (State bs ss ar (<[k := CsimStats 0 0 0 0 0]> rc) (Pos.succ k) g out).
Proof. reflexivity. Qed.

Lemma store_stats_run p s s' m :
  records m !! p = Some s →
  store_stats (Some p) s' m = Ok tt (with_records <[p := s']> m).
Proof. unfold store_stats. by intros ->. Qed.

Lemma load_stats_run p s m :
  records m !! p = Some s → load_stats (Some p) m = Ok s m.
Proof. unfold load_stats. by intros ->. Qed.

Lemma free_stats_run p s m :
  records m !! p = Some s →
  free_stats (Some p) m = Ok tt (with_records (delete p) m).
Proof. unfold free_stats. by intros ->. Qed.

Lemma cache_inv_brk E n cache sps ls bs ss ar rc k g out rc' k' g' out' :
  (k ≤ k')%positive →
  cache_inv E n cache sps ls (State bs ss ar rc k g out) →
  cache_inv E n cache sps ls (State bs ss ar rc' k' g' out').
Proof.
  intros Hk [Harr Hnd Hdom Hlen Hsets Hdisj Hfresh Hleak]. split; try done.
  cbn in *. intros a Ha. specialize (Hfresh a Ha). lia.
Qed.

Lemma main_summary_run fuel E n b cache sps ls bs ss ar k g out c :
  cache_inv E n cache sps ls (State bs ss ar ∅ k (S g) out) →
  1 ≤ E → (Z.to_nat E < fuel)%nat →
  main_summary fuel b (Z.of_nat (length sps)) (Some cache) c
    (State bs ss ar ∅ k (S g) out)
  = Ok 0 (State (drop_keys (linked ls) bs) ∅ ∅ ∅ (Pos.succ k) g
            (out ++ [Summary (summary_of b c
                                (Model.resident_dirty (view bs <$> ls)))])).
Proof.
  intros Hinv HE Hf. unfold main_summary.
  step_by (eapply count_dirty_run; done). cbv zeta.
  step_by (apply malloc_stats_run).
  step_by (eapply store_stats_run; reduce_state; apply lookup_insert_eq).
  rewrite insert_empty.
  step_by (eapply full_free_cache_run; [ | exact HE | exact Hf ];
           eapply cache_inv_brk; [|exact Hinv]; lia).
  step_by (eapply load_stats_run; reduce_state; apply lookup_singleton_eq).
  step_by (unfold printf; reflexivity).
  step_by (eapply free_stats_run; reduce_state; apply lookup_singleton_eq).
  rewrite delete_singleton_eq. reflexivity.
Qed.

Lemma counters_after_count c os :
  counters_after c os
  = Counters (hit c + Model.count Model.is_hit os)
             (miss c + Model.count Model.is_miss os)
             (eviction c + Model.count Model.is_eviction os)
             (dirty_eviction c + Model.count Model.is_dirty_eviction os).
Proof.
  revert c. induction os as [|o os IH]; intros c.
  - cbn. unfold Model.count. cbn. rewrite !Z.add_0_r. by destruct c.
  - cbn [counters_after foldl]. fold (counters_after (count_step c o) os).
    rewrite IH. unfold count_step, Model.count. cbn [hit miss eviction dirty_eviction].
    rewrite !filter_cons.
    f_equal; [destruct (Model.is_hit o) | destruct (Model.is_miss o)
             | destruct (Model.is_eviction o) | destruct (Model.is_dirty_eviction o)];
      cbn [b2z]; (rewrite decide_True by done) || (rewrite decide_False by done);
      cbn [length]; lia.
Qed.

(** ** Facts about the cache of the specification *)

Lemma run_length s E b trace c :
  length (snd (Model.run s E b trace c)) = length trace.
Proof.
  revert c. induction trace as [|[st A] trace IH]; intros c; cbn; [done|].
  by rewrite IH.
Qed.

Lemma accesses_length trace : length (accesses trace) = length trace.
Proof. unfold accesses. by rewrite length_fmap. Qed.

Lemma allocations_le os : (allocations os ≤ length os)%nat.
Proof. unfold allocations. apply length_filter. Qed.

Lemma count_le f os : 0 ≤ Model.count f os ≤ Z.of_nat (length os).
Proof.
  unfold Model.count. pose proof (length_filter (fun o => f o = true) os). lia.
Qed.

Lemma run_app s E b t1 t2 c :
  Model.run s E b (t1 ++ t2) c
  = (fst (Model.run s E b t2 (fst (Model.run s E b t1 c))),
     snd (Model.run s E b t1 c) ++ snd (Model.run s E b t2 (fst (Model.run s E b t1 c)))).
Proof.
  revert c. induction t1 as [|[st A] t1 IH]; intros c; cbn.
  - by destruct (Model.run s E b t2 c).
  - by rewrite IH.
Qed.


(** ** Whole runs *)

Lemma empty_views (n : nat) :
  view ∅ <$> replicate n ([] : list loc)
  = replicate n ([] : list Model.block).
Proof. by rewrite fmap_replicate. Qed.

Lemma drop_linked_no_leak E n cache sps ls m :
  cache_inv E n cache sps ls m → E ≠ 1 →
  drop_keys (linked ls) (blocks m) = ∅.
Proof.
  intros [_ _ _ _ _ _ _ Hleak] HE. apply map_eq. intros a.
  rewrite lookup_drop_keys, lookup_empty.
  destruct (decide (a ∈ linked ls)) as [|Hn]; [done|].
  destruct (blocks m !! a) eqn:Ha; [|done]. exfalso. apply Hn.
  destruct (Hleak HE a (mk_is_Some _ _ Ha)) as (j & l & Hj & Hal).
  unfold linked. apply list_elem_of_In, in_concat. exists l.
  split; apply list_elem_of_In; [by eapply list_elem_of_lookup_2 | done].
Qed.

Lemma main_args_ok fuel v s E b t :
  0 ≤ s < 64 → 0 ≤ b < 64 → E ≠ UNSET →
  main fuel v s E b true t
  = (built <- main_build (2 ^ s) ;;
     match fst built with
     | Some z => ret z
     | None =>
         match t with
         | None =>
             full_free_cache fuel (snd built) (2 ^ s) ;;
             printf FileCanNotBeOpened ;;
             ret 0
         | Some trace =>
             r <- main_loop fuel v s E b (2 ^ s) (snd built) trace (Counters 0 0 0 0) ;;
             match fst r with
             | Some z => ret z
             | None => main_summary fuel b (2 ^ s) (snd built) (snd r)
             end
         end
     end).
Proof.
  intros Hs Hb HE. unfold main, UNSET in *.
  rewrite (proj2 (Z.eqb_neq s _)) by lia.
  rewrite (proj2 (Z.eqb_neq E _)) by lia.
  rewrite (proj2 (Z.eqb_neq b _)) by lia.
  cbn [negb]. cbv zeta. rewrite set_count_mod by lia. reflexivity.
Qed.

(** A trace of loads and stores is replayed as the specification says, and
    the summary reports the counters of the specification. *)
Lemma main_valid fuel v s E b trace grants :
  geometry_ok s E b → E ≠ UNSET →
  valid_trace trace = true →
  Z.of_nat (length trace) ≤ INT_MAX →
  (2 * Z.to_nat E < fuel)%nat →
  (Z.to_nat (2 ^ s) + length trace + 2 ≤ grants)%nat →
  ∃ bs k g,
    main fuel v s E b true (Some trace) (boot grants)
    = Ok 0
        (State bs ∅ ∅ ∅ k g
           (verbose_lines v trace
              (snd (Model.run s E b (accesses trace) (Model.empty s)))
            ++ [Summary
                  (summary_of b
                     (counters_after (Counters 0 0 0 0)
                        (snd (Model.run s E b (accesses trace) (Model.empty s))))
                     (Model.resident_dirty
                        (fst (Model.run s E b (accesses trace) (Model.empty s)))))]))
    ∧ (E ≠ 1 → bs = ∅).
Proof.
  intros Hgeo HE Hvalid Hlen Hf Hg.
  pose proof Hgeo as [Hs Hb Hw HE1].
  rewrite main_args_ok by lia.
  replace grants
    with (S (Z.to_nat (2 ^ s) + (grants - Z.to_nat (2 ^ s) - 1)))%nat by lia.
  destruct (main_build_run E s (grants - Z.to_nat (2 ^ s) - 1)%nat)
    as (sps & ss & k & Hbuild & HS & Hinv); [lia..|].
  step_by (exact Hbuild). cbn [fst snd].
  assert (Hc0 : counters_ok 0 (Counters 0 0 0 0)) by (unfold counters_ok; cbn; lia).
  assert (Hn0 : 0 + Z.of_nat (length trace) ≤ INT_MAX) by lia.
  assert (Hg0 : (length trace ≤ grants - Z.to_nat (2 ^ s) - 1)%nat) by lia.
  destruct (main_loop_valid fuel v s E b 1%positive sps trace 0 (Counters 0 0 0 0)
              (replicate (length sps) []) ∅ ss {[1%positive := Some <$> sps]} ∅ k
              (grants - Z.to_nat (2 ^ s) - 1)%nat [] Hinv Hgeo HS Hn0 Hf Hg0 Hc0 Hvalid)
    as (bs' & ss' & ls' & k' & g' & Hfinal & Hloop & Hinv' & Hc' & Hg').
  rewrite empty_views in Hfinal, Hloop, Hinv', Hg'.
  replace (replicate (length sps) []) with (Model.empty s) in Hfinal, Hloop, Hinv', Hg'
    by (unfold Model.empty; f_equal; lia).
  step_by (exact Hloop). cbn [fst snd app].
  pose proof (allocations_le (snd (Model.run s E b (accesses trace) (Model.empty s))))
    as Hal.
  rewrite run_length, accesses_length in Hal.
  destruct g' as [|g']; [lia|].
  rewrite <- HS.
  erewrite main_summary_run; [ | exact Hinv' | done | lia ].
  rewrite Hfinal.
  eexists _, _, _. split; [reflexivity|].
  intros HE'. by eapply (drop_linked_no_leak _ _ _ _ _ _ Hinv').
Qed.

(** ** An invalid operation character *)





(** No more blocks are resident than events have been replayed. *)
Lemma lookup_length t l x r :
  Model.lookup t l = Some (x, r) → length l = S (length r).
Proof.
  revert x r. induction l as [|y l IH]; intros x r; cbn; [done|].
  destruct (Model.tag y =? t).
  - by intros [= <- <-].
  - destruct (Model.lookup t l) as [[x' r']|]; [|done].
    intros [= <- <-]. cbn. by rewrite (IH x' r').
Qed.

Lemma access_length E st t l :
  (length (fst (Model.access E st t l)) ≤ S (length l))%nat.
Proof.
  unfold Model.access, Model.insert.
  destruct (Model.lookup t l) as [[x r]|] eqn:Hl.
  - cbn. apply lookup_length in Hl. lia.
  - destruct (Z.of_nat (length l) <? E); cbn; [lia|].
    destruct l as [|y l] using rev_ind; [cbn; lia|].
    rewrite removelast_last, length_app. cbn. lia.
Qed.

Lemma step_total s E b st A c :
  (length (concat (fst (Model.step s E b st A c))) ≤ S (length (concat c)))%nat.
Proof.
  unfold Model.step. cbn [fst].
  set (i := Z.to_nat (Model.set_index s b A)).
  destruct (c !! i) as [ci|] eqn:Hi.
  - pose proof (access_length E st (Model.tag_of s b A) ci) as Hacc.
    cbn [default from_option id].
    rewrite insert_take_drop by (by eapply lookup_lt_Some).
    rewrite <- (take_drop_middle c i ci Hi) at 3.
    rewrite !concat_app. cbn [concat]. rewrite !length_app. lia.
  - rewrite list_insert_ge by (by apply lookup_ge_None). lia.
Qed.

Lemma run_total s E b trace c :
  (length (concat (fst (Model.run s E b trace c)))
   ≤ length (concat c) + length trace)%nat.
Proof.
  revert c. induction trace as [|[st A] trace IH]; intros c;
    cbn [Model.run fst snd length]; [lia|].
  specialize (IH (fst (Model.step s E b st A c))).
  pose proof (step_total s E b st A c). lia.
Qed.

Lemma empty_total s : concat (Model.empty s) = ([] : list Model.block).
Proof.
  unfold Model.empty. induction (Z.to_nat (2 ^ s)) as [|n IH]; cbn; done.
Qed.

Lemma resident_dirty_bound s E b trace :
  0 ≤ Model.resident_dirty (fst (Model.run s E b (accesses trace) (Model.empty s)))
    ≤ Z.of_nat (length trace).
Proof.
  unfold Model.resident_dirty.
  pose proof (run_total s E b (accesses trace) (Model.empty s)) as Ht.
  rewrite empty_total, accesses_length in Ht. cbn in Ht.
  pose proof (length_filter (fun x => Model.dirty x = true)
                (concat (fst (Model.run s E b (accesses trace) (Model.empty s))))).
  lia.
Qed.

(** * The claims *)

(** ** Address decomposition *)

(** C7, amended: for every address [A] and every geometry with [0 <= s],
    [0 <= b] and [s + b < 64], [main] computes the set index
    [(A >> b) mod 2^s] and the tag [A >> (b + s)]; no address is rejected:
    the index always lies inside the array of [S = 1UL << s] sets. *)
Theorem address_decomposition (A s b : Z) :
  0 ≤ s → 0 ≤ b → s + b < 64 →
  which_set A b (wrap_ulong (Z.shiftl 1 (s mod 64))) = Z.shiftr A b mod 2 ^ s
  ∧ which_cache_line A b s = Z.shiftr A (b + s)
  ∧ 0 ≤ which_set A b (wrap_ulong (Z.shiftl 1 (s mod 64)))
      < wrap_ulong (Z.shiftl 1 (s mod 64)).
Proof.
  intros Hs Hb Hw. rewrite set_count_mod by lia.
  rewrite which_set_spec, which_cache_line_spec by lia.
  split_and!; [done | done | apply set_index_range; lia ..].
Qed.

Lemma address_decomposition_witness :
  which_set 4660 3 (wrap_ulong (Z.shiftl 1 (2 mod 64))) = Z.shiftr 4660 3 mod 2 ^ 2
  ∧ which_cache_line 4660 3 2 = Z.shiftr 4660 (3 + 2)
  ∧ 0 ≤ which_set 4660 3 (wrap_ulong (Z.shiftl 1 (2 mod 64)))
      < wrap_ulong (Z.shiftl 1 (2 mod 64)).
Proof. apply (address_decomposition 4660 2 3); lia. Defined.

(** C7, as stated for every geometry, fails once [b + s] reaches the width
    of the address.  With [-s 0 -b 64] the shift [address >> (b + s)] is by
    [64 mod 64 = 0], so the tag of address 1 is 1 where [1 >> 64] is 0; the
    accesses [L 1,1] and [L 0,1], which the specification puts in one block,
    are replayed as two misses. *)
Lemma tag_shift_count_wraps :
  which_cache_line 1 64 0 = 1
  ∧ Z.shiftr 1 (64 + 0) = 0
  ∧ which_cache_line 1 64 0 ≠ Z.shiftr 1 (64 + 0)
  ∧ snd (Model.run 0 1 64 (accesses [Event "L" 1 1; Event "L" 0 1]) (Model.empty 0))
    = [Model.Miss; Model.Hit]
  ∧ ∃ m,
      main 3 1 0 1 64 true (Some [Event "L" 1 1; Event "L" 0 1]) (boot 6) = Ok 0 m
      ∧ stdout m
        = [VerboseLine "L" 1 1 "miss";
           VerboseLine "L" 0 1 "miss eviction";
           Summary (CsimStats 0 2 1 0 0)].
Proof.
  split_and!; [reflexivity | reflexivity | vm_compute; discriminate | reflexivity |].
  eexists. split; vm_compute; reflexivity.
Qed.

(** ** The set-size getter *)

(** C8: the guard of [cache_set_size] is inverted.  For every non-NULL
    argument the function returns 0 without looking at the set, also for a
    set that holds blocks; a NULL argument is dereferenced; so the getter
    does not meet the intended contract. *)
Theorem cache_set_size_inverted_guard :
  (∀ a m, cache_set_size (Some a) m = Ok 0 m)
  ∧ (∀ m, cache_set_size None m = Fault)
  ∧ intended_set_size (Some 2%positive) two_block_set = 2
  ∧ cache_set_size (Some 2%positive) two_block_set
    ≠ Ok (intended_set_size (Some 2%positive) two_block_set) two_block_set.
Proof.
  split_and!.
  - intros a m. unfold cache_set_size. rewrite bool_decide_true by eauto.
    reflexivity.
  - intros m. reflexivity.
  - reflexivity.
  - vm_compute. discriminate.
Qed.

(** ** The eviction scenario *)

(** C6: with [E = 1], one set ([s = 0]) and [b = 0], replaying [L 0,1],
    [L 1,1], [L 0,1] gives the outcomes miss, miss eviction, miss eviction
    and the totals hits = 0, misses = 3, evictions = 2, whenever the loops
    have fuel for a list of one block and [malloc] serves the six
    allocations of the run. *)
Theorem scenario_evictions_run (fuel grants : nat) :
  (2 < fuel)%nat → (6 ≤ grants)%nat →
  ∃ bs k g,
    main fuel 1 0 1 0 true (Some scenario_evictions) (boot grants)
    = Ok 0
        (State bs ∅ ∅ ∅ k g
           [VerboseLine "L" 0 1 "miss";
            VerboseLine "L" 1 1 "miss eviction";
            VerboseLine "L" 0 1 "miss eviction";
            Summary (CsimStats 0 3 2 0 0)]).
Proof.
  intros Hf Hg.
  destruct (main_valid fuel 1 0 1 0 scenario_evictions grants)
    as (bs & k & g & Hmain & _).
  - split; lia.
  - unfold UNSET. lia.
  - reflexivity.
  - unfold INT_MAX. cbn. lia.
  - cbn. lia.
  - cbn. lia.
  - exists bs, k, g. rewrite Hmain. reflexivity.
Qed.

Lemma scenario_evictions_witness :
  ∃ bs k g,
    main 3 1 0 1 0 true (Some scenario_evictions) (boot 6)
    = Ok 0
        (State bs ∅ ∅ ∅ k g
           [VerboseLine "L" 0 1 "miss";
            VerboseLine "L" 1 1 "miss eviction";
            VerboseLine "L" 0 1 "miss eviction";
            Summary (CsimStats 0 3 2 0 0)]).
Proof. apply (scenario_evictions_run 3 6); lia. Defined.

(** ** The tracked size *)

(** C1, at the failing input [-s 0 -E 1 -b 0] with the trace [L 0,1],
    [L 1,1]: the second access evicts, [cache_set_remove_tail] leaves [size]
    alone and [cache_set_insert_head] increments it, so the set with
    capacity [E = 1] ends with the tracked size 2 while one block is
    linked. *)
Theorem tracked_size_exceeds_capacity :
  ∃ r m st,
    replay 3 0 0 1 0 [Event "L" 0 1; Event "L" 1 1] (boot 8) = Ok r m
    ∧ sets m !! 2%positive = Some st
    ∧ s_size st = 2
    ∧ chain (blocks m) (s_head st) [4%positive].
Proof.
  eexists _, _, _. split_and!.
  - vm_compute. reflexivity.
  - vm_compute. reflexivity.
  - reflexivity.
  - vm_compute. split; [reflexivity|]. eexists. split; reflexivity.
Qed.

(** Every evicting insert adds one to the tracked size, while the number
    of linked blocks stays what it was. *)
Lemma eviction_increments_size fuel E n bs ss ar rc k g out cache arr i sp st l
    line operator de :
  ar !! cache = Some arr → arr !! i = Some (Some sp) → ss !! sp = Some st →
  set_inv E n bs st l →
  1 ≤ E → n < INT_MAX →
  (length l < fuel)%nat →
  (∀ a, is_Some (bs !! a) → (a < k)%positive) →
  Model.lookup line (view bs l) = None →
  E ≤ s_size st →
  ∃ r bs' st' l',
    main_insert fuel (Some cache) E (Z.of_nat i) line operator de
      (State bs ss ar rc k (S g) out)
    = Ok r (State bs' (<[sp := st']> ss) ar rc (Pos.succ k) g out)
    ∧ chain bs' (s_head st') l'
    ∧ length l' = length l
    ∧ s_size st' = s_size st + 1.
Proof.
  intros Har Hi Hs Hinv HE Hn Hf Hfresh Hlook Hge.
  destruct (main_access_evict fuel E n bs ss ar rc k g out cache arr i sp st l
              line operator de)
    as (bs' & st' & l' & d & _ & Hrun & [Hinv' _ _ _ _ _] & Hsize & Hlen);
    try done.
  eexists _, bs', st', l'. split_and!; [exact Hrun | by destruct Hinv' | done | done].
Qed.

(** ** Allocation failure *)

Lemma cache_set_insert_head_null sp st m :
  sets m !! sp = Some st → cache_set_insert_head (Some sp) None m = Fault.
Proof.
  intros Hs. unfold cache_set_insert_head. rewrite bool_decide_true by eauto.
  step. apply bind_fault. reflexivity.
Qed.

(** On an empty set, without a served allocation, the insertion of the
    first block runs into the [NULL] that [new_cache_block] returned. *)
Lemma main_insert_null fuel E bs ss ar rc k out cache arr i sp st line operator de :
  ar !! cache = Some arr → arr !! i = Some (Some sp) → ss !! sp = Some st →
  s_size st < E →
  main_insert fuel (Some cache) E (Z.of_nat i) line operator de
    (State bs ss ar rc k O out)
  = Fault.
Proof.
  intros Har Hi Hs Hlt. unfold main_insert. do 2 step.
  rewrite (proj2 (Z.ltb_lt _ _)) by done.
  step_by (apply new_cache_block_null).
  step. apply bind_fault. by eapply cache_set_insert_head_null.
Qed.

(** C5: for every geometry and every trace with at least one event, when
    [malloc] serves the set array and the sets and then fails for the
    block of the first miss, [new_cache_block] yields [NULL], nothing
    tests it, and [cache_set_insert_head] dereferences it: the run does not
    abort cleanly. *)
Theorem block_allocation_failure_faults fuel v s E b e rest :
  0 ≤ s → 0 ≤ b → s + b < 64 → 1 ≤ E → E ≠ UNSET → (0 < fuel)%nat →
  main fuel v s E b true (Some (e :: rest)) (boot (S (Z.to_nat (2 ^ s))))
  = Fault.
Proof.
  intros Hs Hb Hw HE HE' Hf.
  rewrite main_args_ok by lia.
  replace (S (Z.to_nat (2 ^ s))) with (S (Z.to_nat (2 ^ s) + 0)) by lia.
  destruct (main_build_run E s O) as (sps & ss & k & Hbuild & HS & Hinv); [lia..|].
  step_by (exact Hbuild). cbn [fst snd].
  apply bind_fault. cbn [main_loop]. apply bind_fault.
  destruct Hinv as [Harr Hnd Hdom Hlen Hsets Hdisj Hfresh Hleak].
  cbn [arrays sets blocks brk] in *.
  pose proof (set_index_range (ev_address e) s b Hs) as Hidx.
  unfold main_event. cbv zeta. rewrite which_set_spec by lia.
  set (i := Z.to_nat (Model.set_index s b (ev_address e))).
  replace (Model.set_index s b (ev_address e)) with (Z.of_nat i) by (unfold i; lia).
  assert (Hi : (i < length sps)%nat) by (unfold i; lia).
  destruct (lookup_lt_is_Some_2 sps i Hi) as [sp Hsp].
  assert (Hl : replicate (length sps) ([] : list loc) !! i = Some []).
  { by apply lookup_replicate. }
  destruct (Hsets i sp [] Hsp Hl) as (st & Hst & Hinv).
  assert (Ha : ({[1%positive := Some <$> sps]} : gmap loc (list ptr)) !! 1%positive
               = Some (Some <$> sps)) by apply lookup_singleton_eq.
  assert (Hai : (Some <$> sps) !! i = Some (Some sp)).
  { by rewrite list_lookup_fmap, Hsp. }
  step_by (eapply main_search_miss with (l := []);
           [exact Ha | exact Hai | exact Hst | by destruct Hinv
           | by intros ? ? ?%elem_of_nil | cbn; lia]).
  cbn [Z.eqb]. apply bind_fault.
  eapply main_insert_null; [exact Ha | exact Hai | exact Hst |].
  destruct Hinv as [_ _ _ _ Hbelow Hfull _].
  destruct (decide (s_size st < E)) as [|Hge]; [done|].
  assert (Z.of_nat (length ([] : list loc)) = E) by (apply Hfull; lia).
  cbn in *. lia.
Qed.

Lemma block_allocation_failure_faults_witness :
  main 3 0 0 1 0 true (Some [Event "L" 0 1]) (boot 2) = Fault.
Proof.
  apply (block_allocation_failure_faults 3 0 0 1 0 (Event "L" 0 1) []);
    first [ lia | (unfold UNSET; lia) ].
Defined.

(** The sibling path: when [malloc] fails for a set, [main] frees the sets
    built so far and the array and returns without output. *)
Example set_allocation_failure_returns :
  main 3 0 1 2 4 true (Some [Event "L" 0 1]) (boot 2)
  = Ok 0 (State ∅ ∅ ∅ ∅ 3%positive 0 []).
Proof. vm_compute. reflexivity. Qed.

(** ** Dirty-byte accounting *)

Lemma wrap_int_range z : - 2 ^ 31 ≤ wrap_int z < 2 ^ 31.
Proof.
  unfold wrap_int. pose proof (Z.mod_pos_bound (z + 2 ^ 31) (2 ^ 32)). lia.
Qed.

(** [1 << b] as the program computes it: the shift is by [b mod 32]. *)
Lemma block_size_int b : 0 ≤ b ≤ 30 → wrap_int (Z.shiftl 1 (b mod 32)) = 2 ^ b.
Proof.
  intros Hb. rewrite Z.mod_small by lia. rewrite Z.shiftl_1_l. apply wrap_int_id.
  assert (0 < 2 ^ b) by (apply Z.pow_pos_nonneg; lia).
  assert (2 ^ b ≤ 2 ^ 30) by (apply Z.pow_le_mono_r; lia). lia.
Qed.

Lemma block_size_int_cases b :
  (0 ≤ b mod 32 ≤ 30 ∧ wrap_int (Z.shiftl 1 (b mod 32)) = 2 ^ (b mod 32))
  ∨ (b mod 32 = 31 ∧ wrap_int (Z.shiftl 1 (b mod 32)) = - 2 ^ 31).
Proof.
  pose proof (Z.mod_pos_bound b 32 ltac:(lia)) as Hk.
  destruct (decide (b mod 32 = 31)) as [->|Hne]; [by right|left].
  split; [lia|]. rewrite <- (Z.mod_mod b 32) at 1 by lia.
  apply block_size_int. lia.
Qed.

(** The image of an [int] in [unsigned long] is never a proper multiple of
    the block size once the product has left the range of [int]. *)
Lemma dirty_bytes_wrap b R X :
  0 ≤ b < 64 → 0 ≤ R ≤ INT_MAX → INT_MAX < 2 ^ b * R →
  wrap_ulong (wrap_int X) ≠ 2 ^ b * R.
Proof.
  intros Hb HR Hover. unfold INT_MAX in *.
  pose proof (wrap_int_range X) as Hw. set (w := wrap_int X) in *. clearbody w.
  unfold wrap_ulong. destruct (decide (0 ≤ w)) as [Hpos|Hneg].
  - rewrite Z.mod_small by lia. lia.
  - replace (w mod 2 ^ 64) with (w + 2 ^ 64).
    2:{ symmetry. rewrite <- (Z_mod_plus_full w 1 (2 ^ 64)).
        rewrite Z.mod_small; lia. }
    destruct (decide (b ≤ 30)) as [Hlow|Hhigh].
    + assert (0 < 2 ^ b) by (apply Z.pow_pos_nonneg; lia).
      assert (2 ^ b ≤ 2 ^ 30) by (apply Z.pow_le_mono_r; lia). nia.
    + replace b with (31 + (b - 31)) by lia. rewrite Z.pow_add_r by lia.
      assert (Hq : 0 < 2 ^ (b - 31)) by (apply Z.pow_pos_nonneg; lia).
      destruct (decide (b = 31)) as [->|Hb31].
      * replace (2 ^ (31 - 31)) with 1 by reflexivity. lia.
      * replace (b - 31) with (1 + (b - 32)) by lia. rewrite Z.pow_add_r by lia.
        set (t := 2 ^ (b - 32)). intros Heq.
        assert (Hpar : 2 * (t * R * 2 ^ 31) = w + 2 ^ 64) by lia.
        assert (Hdiv : ∃ u, w = 2 ^ 31 * u).
        { exists (2 * t * R - 2 ^ 33). lia. }
        destruct Hdiv as [u Hu].
        assert (u = -1) by lia. subst u.
        assert (2 * (t * R) = 2 ^ 33 - 1) by lia. lia.
Qed.

(** For [b >= 31] the [unsigned long] product with the [int] value
    [1 << b] is never [2^b] times a positive count. *)
Lemma dirty_evictions_wrap b N :
  31 ≤ b → 1 ≤ N ≤ INT_MAX →
  wrap_ulong (N * wrap_ulong (wrap_int (Z.shiftl 1 (b mod 32)))) ≠ 2 ^ b * N.
Proof.
  intros Hb HN. unfold INT_MAX in *.
  assert (H2b : 2 ^ 31 ≤ 2 ^ b) by (apply Z.pow_le_mono_r; lia).
  destruct (decide (64 ≤ b)) as [Hhigh|Hlow].
  { assert (2 ^ 64 ≤ 2 ^ b) by (apply Z.pow_le_mono_r; lia).
    pose proof (Z.mod_pos_bound
                  (N * wrap_ulong (wrap_int (Z.shiftl 1 (b mod 32)))) (2 ^ 64)
                  ltac:(lia)) as Hw.
    unfold wrap_ulong at 1. nia. }
  destruct (block_size_int_cases b) as [[Hk ->]|[Hk ->]].
  - assert (0 < 2 ^ (b mod 32)) by (apply Z.pow_pos_nonneg; lia).
    assert (2 ^ (b mod 32) ≤ 2 ^ 30) by (apply Z.pow_le_mono_r; lia).
    assert (b = 32 + b mod 32) as Hb32.
    { pose proof (Z.div_mod b 32 ltac:(lia)) as Hdm. lia. }
    rewrite (wrap_ulong_id (2 ^ (b mod 32))) by lia.
    rewrite wrap_ulong_id by nia.
    rewrite Hb32 at 2. rewrite Z.pow_add_r by lia. nia.
  - replace (wrap_ulong (- 2 ^ 31)) with (2 ^ 64 - 2 ^ 31) by reflexivity.
    unfold wrap_ulong.
    replace (N * (2 ^ 64 - 2 ^ 31)) with ((2 ^ 64 - N * 2 ^ 31) + (N - 1) * 2 ^ 64)
      by lia.
    rewrite Z_mod_plus_full. rewrite Z.mod_small by lia.
    assert (b = 31 ∨ b = 63) as [-> | ->]
      by (pose proof (Z.div_mod b 32 ltac:(lia)); lia); lia.
Qed.

(** What a run without fatal error reports: the summary is the last line
    of output and carries the counters of the specification, with the byte
    totals formed as [summary_of] says. *)
Lemma main_reports fuel v s E b trace grants :
  0 ≤ s → 0 ≤ b → s + b < 64 → 1 ≤ E → E ≠ UNSET →
  valid_trace trace = true →
  Z.of_nat (length trace) ≤ INT_MAX →
  (2 * Z.to_nat E < fuel)%nat →
  (Z.to_nat (2 ^ s) + length trace + 2 ≤ grants)%nat →
  let final := fst (Model.run s E b (accesses trace) (Model.empty s)) in
  let os := snd (Model.run s E b (accesses trace) (Model.empty s)) in
  ∃ m,
    main fuel v s E b true (Some trace) (boot grants) = Ok 0 m
    ∧ reported (stdout m)
      = Some (CsimStats (Model.count Model.is_hit os)
                (Model.count Model.is_miss os)
                (Model.count Model.is_eviction os)
                (wrap_ulong (wrap_int (wrap_int (Model.resident_dirty final)
                                       * wrap_int (Z.shiftl 1 (b mod 32)))))
                (wrap_ulong (Model.count Model.is_dirty_eviction os
                             * wrap_ulong (wrap_int (Z.shiftl 1 (b mod 32))))))
    ∧ 0 ≤ Model.resident_dirty final ≤ INT_MAX
    ∧ 0 ≤ Model.count Model.is_dirty_eviction os ≤ INT_MAX.
Proof.
  intros Hs Hb Hw HE HE' Hvalid Hlen Hf Hg final os.
  destruct (main_valid fuel v s E b trace grants)
    as (bs & k & g & Hmain & _); try done.
  eexists. split; [exact Hmain|].
  cbn [stdout]. unfold reported. rewrite last_snoc.
  fold final os. rewrite counters_after_count. unfold summary_of.
  cbn [hit miss eviction dirty_eviction]. rewrite !Z.add_0_l.
  pose proof (resident_dirty_bound s E b trace) as HR. fold final in HR.
  pose proof (count_le Model.is_dirty_eviction os) as HN.
  unfold os in HN. rewrite run_length, accesses_length in HN. fold os in HN.
  split_and!; [reflexivity | lia..].
Qed.

(** C10: the two byte totals of the summary are formed with the [int]
    value [1 << b].  The dirty-byte total is the [unsigned long] image of an
    [int] product, so it differs from [2^b] times the number of resident
    dirty blocks as soon as that product exceeds [INT_MAX] (in particular
    for every [b >= 31] with a dirty block resident); for [b >= 31] the
    dirty-eviction total differs from [2^b] times the number of dirty
    evictions as soon as there is one. *)
Theorem byte_totals_in_int_arithmetic fuel v s E b trace grants :
  0 ≤ s → 0 ≤ b → s + b < 64 → 1 ≤ E → E ≠ UNSET →
  valid_trace trace = true →
  Z.of_nat (length trace) ≤ INT_MAX →
  (2 * Z.to_nat E < fuel)%nat →
  (Z.to_nat (2 ^ s) + length trace + 2 ≤ grants)%nat →
  let final := fst (Model.run s E b (accesses trace) (Model.empty s)) in
  let os := snd (Model.run s E b (accesses trace) (Model.empty s)) in
  let R := Model.resident_dirty final in
  let N := Model.count Model.is_dirty_eviction os in
  ∃ m st,
    main fuel v s E b true (Some trace) (boot grants) = Ok 0 m
    ∧ reported (stdout m) = Some st
    ∧ dirty_bytes st
      = wrap_ulong (wrap_int (wrap_int R * wrap_int (Z.shiftl 1 (b mod 32))))
    ∧ dirty_evictions st
      = wrap_ulong (N * wrap_ulong (wrap_int (Z.shiftl 1 (b mod 32))))
    ∧ (INT_MAX < 2 ^ b * R → dirty_bytes st ≠ 2 ^ b * R)
    ∧ (31 ≤ b → 1 ≤ N → dirty_evictions st ≠ 2 ^ b * N).
Proof.
  intros Hs Hb Hw HE HE' Hvalid Hlen Hf Hg final os R N.
  destruct (main_reports fuel v s E b trace grants)
    as (m & Hmain & Hrep & HR & HN); try done.
  fold final os R N in Hrep, HR, HN.
  eexists m, _. split_and!; [exact Hmain | exact Hrep | reflexivity | reflexivity | |].
  - intros Hover. cbn [dirty_bytes]. apply dirty_bytes_wrap; lia.
  - intros Hb31 HN1. cbn [dirty_evictions]. apply dirty_evictions_wrap; lia.
Qed.

(** At [-s 0 -E 1 -b 33] the stores [S 0,1] and [S 200000000,1] leave one
    dirty block resident and evict one dirty block; [1 << 33] is 2 and both
    totals are reported as 2, not [2^33]. *)
Lemma byte_totals_in_int_arithmetic_witness :
  let trace := [Event "S" 0 1; Event "S" 8589934592 1] in
  ∃ m st,
    main 3 0 0 1 33 true (Some trace) (boot 5) = Ok 0 m
    ∧ reported (stdout m) = Some st
    ∧ Model.resident_dirty
        (fst (Model.run 0 1 33 (accesses trace) (Model.empty 0))) = 1
    ∧ Model.count Model.is_dirty_eviction
        (snd (Model.run 0 1 33 (accesses trace) (Model.empty 0))) = 1
    ∧ dirty_bytes st = 2
    ∧ dirty_evictions st = 2
    ∧ dirty_bytes st ≠ 2 ^ 33 * 1
    ∧ dirty_evictions st ≠ 2 ^ 33 * 1.
Proof.
  destruct (byte_totals_in_int_arithmetic 3 0 0 1 33
              [Event "S" 0 1; Event "S" 8589934592 1] 5)
    as (m & st & Hmain & Hrep & Hdb & Hde & Hover & Hhigh);
    try solve [ reflexivity | lia | (unfold UNSET; lia)
              | (unfold INT_MAX; cbn; lia) | (cbn; lia) ].
  exists m, st.
  split_and!; [exact Hmain | exact Hrep | reflexivity | reflexivity
              | exact Hdb | exact Hde | | ].
  - apply Hover. reflexivity.
  - apply Hhigh; [lia | vm_compute; discriminate].
Defined.

(** In the range of [int] the totals are those of the specification: for
    [b <= 30] the reported dirty-eviction total is [2^b] times the number
    of evictions whose victim was dirty when it was evicted (line 423
    multiplies in [unsigned long]), and the reported dirty-byte total is
    [2^b] times the number of resident dirty blocks whenever this product
    fits an [int]. *)
Lemma byte_totals_exact fuel v s E b trace grants :
  0 ≤ s → 0 ≤ b → s + b < 64 → 1 ≤ E → E ≠ UNSET →
  valid_trace trace = true →
  Z.of_nat (length trace) ≤ INT_MAX →
  (2 * Z.to_nat E < fuel)%nat →
  (Z.to_nat (2 ^ s) + length trace + 2 ≤ grants)%nat →
  let final := fst (Model.run s E b (accesses trace) (Model.empty s)) in
  let os := snd (Model.run s E b (accesses trace) (Model.empty s)) in
  b ≤ 30 →
  ∃ m st,
    main fuel v s E b true (Some trace) (boot grants) = Ok 0 m
    ∧ reported (stdout m) = Some st
    ∧ dirty_evictions st = 2 ^ b * Model.count Model.is_dirty_eviction os
    ∧ dirty_bytes st = wrap_ulong (wrap_int (2 ^ b * Model.resident_dirty final))
    ∧ (2 ^ b * Model.resident_dirty final ≤ INT_MAX →
       dirty_bytes st = 2 ^ b * Model.resident_dirty final).
Proof.
  intros Hs Hb Hw HE HE' Hvalid Hlen Hf Hg final os Hb30.
  destruct (main_reports fuel v s E b trace grants)
    as (m & Hmain & Hrep & HR & HN); try done.
  fold final os in Hrep, HR, HN.
  assert (H2b : 0 < 2 ^ b) by (apply Z.pow_pos_nonneg; lia).
  assert (H2b' : 2 ^ b ≤ 2 ^ 30) by (apply Z.pow_le_mono_r; lia).
  assert (Hdb : wrap_ulong (wrap_int (wrap_int (Model.resident_dirty final)
                                      * wrap_int (Z.shiftl 1 (b mod 32))))
                = wrap_ulong (wrap_int (2 ^ b * Model.resident_dirty final))).
  { rewrite block_size_int by lia. unfold INT_MAX in *.
    rewrite (wrap_int_id (Model.resident_dirty final)) by lia.
    by rewrite Z.mul_comm. }
  eexists m, _. split_and!; [exact Hmain | exact Hrep | | |]; cbn [dirty_bytes
    dirty_evictions]; unfold INT_MAX in *.
  - rewrite block_size_int by lia.
    rewrite (wrap_ulong_id (2 ^ b)) by lia.
    rewrite wrap_ulong_id by nia. lia.
  - exact Hdb.
  - intros Hfit. rewrite Hdb.
    rewrite wrap_int_id by nia. apply wrap_ulong_id. nia.
Qed.

(** C3: the specification's dirty-byte total is [2^b] times the number of
    resident dirty blocks.  Line 422 forms it as the [int] product
    [count_dirty(cache, S) * (1 << b)], where its sibling on line 423
    multiplies in [unsigned long]: for [b <= 30], as soon as the product
    exceeds [INT_MAX], the reported dirty-byte total is the [unsigned long]
    image of the wrapped [int] and not the total of the specification,
    while the dirty-eviction total of the same run is exact. *)
Theorem dirty_byte_total_overflows fuel v s E b trace grants :
  0 ≤ s → 0 ≤ b → s + b < 64 → 1 ≤ E → E ≠ UNSET →
  valid_trace trace = true →
  Z.of_nat (length trace) ≤ INT_MAX →
  (2 * Z.to_nat E < fuel)%nat →
  (Z.to_nat (2 ^ s) + length trace + 2 ≤ grants)%nat →
  let final := fst (Model.run s E b (accesses trace) (Model.empty s)) in
  let os := snd (Model.run s E b (accesses trace) (Model.empty s)) in
  let R := Model.resident_dirty final in
  let N := Model.count Model.is_dirty_eviction os in
  b ≤ 30 →
  INT_MAX < 2 ^ b * R →
  ∃ m st,
    main fuel v s E b true (Some trace) (boot grants) = Ok 0 m
    ∧ reported (stdout m) = Some st
    ∧ dirty_evictions st = 2 ^ b * N
    ∧ dirty_bytes st = wrap_ulong (wrap_int (2 ^ b * R))
    ∧ dirty_bytes st ≠ 2 ^ b * R.
Proof.
  intros Hs Hb Hw HE HE' Hvalid Hlen Hf Hg final os R N Hb30 Hover.
  destruct (main_reports fuel v s E b trace grants)
    as (m & Hmain & Hrep & HR & HN); try done.
  fold final os R N in Hrep, HR, HN.
  assert (H2b : 0 < 2 ^ b) by (apply Z.pow_pos_nonneg; lia).
  assert (H2b' : 2 ^ b ≤ 2 ^ 30) by (apply Z.pow_le_mono_r; lia).
  eexists m, _. split_and!; [exact Hmain | exact Hrep | | |]; cbn [dirty_bytes
    dirty_evictions].
  - unfold INT_MAX in *. rewrite block_size_int by lia.
    rewrite (wrap_ulong_id (2 ^ b)) by lia.
    rewrite wrap_ulong_id by nia. lia.
  - rewrite block_size_int by lia. unfold INT_MAX in *.
    rewrite (wrap_int_id R) by lia. by rewrite Z.mul_comm.
  - apply dirty_bytes_wrap; lia.
Qed.

(** The failing input: [-s 0 -E 2 -b 30] with the stores [S 0,1],
    [S 40000000,1], [S 80000000,1].  The third store evicts the dirty block
    of the first; two dirty blocks stay resident.  The dirty-eviction total
    is reported as [2^30], the dirty-byte total as [2^64 - 2^31] where the
    specification has [2^31]. *)
Lemma dirty_byte_total_overflows_witness :
  let trace :=
    [Event "S" 0 1; Event "S" 1073741824 1; Event "S" 2147483648 1] in
  ∃ m st,
    main 5 0 0 2 30 true (Some trace) (boot 6) = Ok 0 m
    ∧ reported (stdout m) = Some st
    ∧ Model.resident_dirty
        (fst (Model.run 0 2 30 (accesses trace) (Model.empty 0))) = 2
    ∧ Model.count Model.is_dirty_eviction
        (snd (Model.run 0 2 30 (accesses trace) (Model.empty 0))) = 1
    ∧ dirty_evictions st = 2 ^ 30 * 1
    ∧ dirty_bytes st = 2 ^ 64 - 2 ^ 31
    ∧ dirty_bytes st ≠ 2 ^ 30 * 2.
Proof.
  destruct (dirty_byte_total_overflows 5 0 0 2 30
              [Event "S" 0 1; Event "S" 1073741824 1; Event "S" 2147483648 1] 6)
    as (m & st & Hmain & Hrep & Hde & Hdb & Hne);
    try solve [ reflexivity | lia | (unfold UNSET; lia)
              | (unfold INT_MAX; cbn; lia) | (cbn; lia) ].
  exists m, st.
  split_and!; [exact Hmain | exact Hrep | reflexivity | reflexivity
              | exact Hde | exact Hdb | exact Hne ].
Defined.

(** ** An invalid operation character *)


(** ** Lookup and promotion *)

(** C2: in a well-formed set, a search for tag [T] that finds a block [p]
    with this tag unlinks [p] from its position and links it in again at the
    head: the set then heads [p :: l1 ++ l2], [p] is the same address with
    the same tag, its dirty flag is kept (a store sets it, which is the
    caller's business in the specification), and no other block changes its
    tag or dirty flag.  A search that finds no block with tag [T] leaves
    memory as it was. *)
Theorem lookup_and_promote fuel E n bs ss ar rc k g out cache arr i sp st l T
    operator :
  ar !! cache = Some arr → arr !! i = Some (Some sp) → ss !! sp = Some st →
  set_inv E n bs st l → (2 * length l < fuel)%nat →
  (∀ l1 p bp l2,
     l = l1 ++ p :: l2 → bs !! p = Some bp → b_tag bp = T →
     ∃ bs' st' bp',
       main_search fuel (Some cache) (Z.of_nat i) T operator
         (State bs ss ar rc k g out)
       = Ok 1 (State bs' (<[sp := st']> ss) ar rc k g out)
       ∧ s_head st' = Some p
       ∧ chain bs' (Some p) (p :: l1 ++ l2)
       ∧ bs' !! p = Some bp'
       ∧ b_tag bp' = T
       ∧ b_dirty bp' = (if Ascii.eqb operator "S" then 1 else b_dirty bp)
       ∧ (∀ a, a ≠ p → payload <$> bs' !! a = payload <$> bs !! a))
  ∧ ((∀ a ba, a ∈ l → bs !! a = Some ba → b_tag ba ≠ T) →
     main_search fuel (Some cache) (Z.of_nat i) T operator
       (State bs ss ar rc k g out)
     = Ok 0 (State bs ss ar rc k g out)).
Proof.
  intros Har Hi Hs [Hch Hcur Htl Hrange Hbelow Hfull Htags] Hf. split.
  - intros l1 p bp l2 -> Hp Htag.
    destruct (main_search_hit fuel bs ss ar rc k g out cache arr i sp st p bp l1 l2
                T operator)
      as (bs' & tl' & Hrun & Hch' & Htl' & Hpp & Hpay & Hfr); try done.
    { eapply tags_other; [exact Htags|]. by rewrite (block_at_tag _ _ _ Hp). }
    destruct (bs' !! p) as [bp'|] eqn:Hp'; [|done].
    cbn in Hpp. injection Hpp as Ht Hd.
    eexists bs', _, bp'. split_and!; [exact Hrun | done | done | done | | done | done].
    by rewrite Ht.
  - intros Hmiss. eapply main_search_miss; try done. lia.
Qed.

Lemma two_block_set_inv :
  set_inv 2 2 (blocks two_block_set)
    (CacheSet (Some 3%positive) (Some 3%positive) 2 None) [3%positive; 4%positive].
Proof.
  split; cbn [s_head s_curr s_size s_tail length].
  - split; [reflexivity|]. eexists. split; [reflexivity|].
    split; [reflexivity|]. eexists. split; reflexivity.
  - reflexivity.
  - by left.
  - lia.
  - lia.
  - reflexivity.
  - vm_compute. repeat constructor; set_solver.
Qed.

Lemma lookup_and_promote_witness :
  ∃ bs' st' bp',
    main_search 5 (Some 1%positive) 0 9 "L" two_block_set
    = Ok 1 (State bs' (<[2%positive := st']> (sets two_block_set))
              (arrays two_block_set) ∅ 5%positive 0 [])
    ∧ s_head st' = Some 4%positive
    ∧ chain bs' (Some 4%positive) [4%positive; 3%positive]
    ∧ bs' !! 4%positive = Some bp'
    ∧ b_tag bp' = 9
    ∧ b_dirty bp' = 1
    ∧ (∀ a, a ≠ 4%positive
            → payload <$> bs' !! a = payload <$> blocks two_block_set !! a).
Proof.
  exact (proj1 (lookup_and_promote 5 2 2 (blocks two_block_set)
                  (sets two_block_set) (arrays two_block_set) ∅ 5%positive O []
                  1%positive [Some 2%positive] O 2%positive
                  (CacheSet (Some 3%positive) (Some 3%positive) 2 None)
                  [3%positive; 4%positive] 9 "L"
                  eq_refl eq_refl eq_refl two_block_set_inv ltac:(cbn; lia))
               [3%positive] 4%positive (CacheBlock 9 1 None) []
               eq_refl eq_refl eq_refl).
Defined.

(** ** The [curr] pointer *)

Lemma chain_unique bs p l l' : chain bs p l → chain bs p l' → l = l'.
Proof.
  unfold chain. revert p l'. induction l as [|a l IH]; intros p [|a' l']; cbn.
  - done.
  - by intros -> (? & _).
  - by intros (-> & _) ?.
  - intros (-> & b & Hb & Hl) ([= <-] & b' & Hb' & Hl').
    rewrite Hb in Hb'. injection Hb' as <-. f_equal. by eapply IH.
Qed.

(** C9: when [main] comes to an event, after any number of loads and
    stores, [curr] equals [head] in every set.  From there, for the set the
    event is mapped to, with [l] the blocks linked from its head (they are
    the blocks the cache of the specification holds in this set): for every
    block [p] of [l] whose tag is the event's, the walk of [curr] returns
    with [curr] on [p] and nothing else changed, and the search returns
    [found = 1] with [p] at the head and [curr] equal to [head] again; when
    no block of [l] has the event's tag the search returns [found = 0] and
    leaves memory as it was. *)
Theorem curr_is_head_before_every_event fuel v s E b pre budget :
  0 ≤ s → 0 ≤ b → s + b < 64 → 1 ≤ E →
  valid_trace pre = true →
  Z.of_nat (length pre) < INT_MAX →
  (2 * Z.to_nat E < fuel)%nat →
  (Z.to_nat (2 ^ s) + length pre + 1 ≤ budget)%nat →
  ∃ c cache m,
    replay fuel v s E b pre (boot budget) = Ok (None, c, Some cache) m
    ∧ (∀ a st, sets m !! a = Some st → s_curr st = s_head st)
    ∧ (∀ e,
         let ws :=
           which_set (ev_address e) b (wrap_ulong (Z.shiftl 1 (s mod 64))) in
         let line := which_cache_line (ev_address e) b s in
         ∃ arr sp st l,
           arrays m !! cache = Some arr
           ∧ arr !! Z.to_nat ws = Some (Some sp)
           ∧ sets m !! sp = Some st
           ∧ chain (blocks m) (s_head st) l
           ∧ fst (Model.run s E b (accesses pre) (Model.empty s)) !! Z.to_nat ws
             = Some (view (blocks m) l)
           ∧ (∀ p bp,
                p ∈ l → blocks m !! p = Some bp → b_tag bp = line →
                main_seek fuel (Some cache) ws (Some p) m
                = Ok tt
                    (with_sets
                       <[sp := CacheSet (s_head st) (Some p) (s_size st) (s_tail st)]>
                       m)
                ∧ ∃ m' st',
                    main_search fuel (Some cache) ws line (ev_operator e) m
                    = Ok 1 m'
                    ∧ sets m' !! sp = Some st'
                    ∧ s_head st' = Some p
                    ∧ s_curr st' = Some p)
           ∧ ((∀ p bp, p ∈ l → blocks m !! p = Some bp → b_tag bp ≠ line) →
              main_search fuel (Some cache) ws line (ev_operator e) m = Ok 0 m)).
Proof.
  intros Hs Hb Hw HE Hvalid Hlen Hf Hg.
  assert (Hgeo : geometry_ok s E b) by (split; lia).
  unfold replay. rewrite set_count_mod by lia.
  replace budget
    with (S (Z.to_nat (2 ^ s) + (budget - Z.to_nat (2 ^ s) - 1)))%nat by lia.
  destruct (main_build_run E s (budget - Z.to_nat (2 ^ s) - 1)%nat)
    as (sps & ss & k & Hbuild & HS & Hinv); [lia..|].
  assert (Hc0 : counters_ok 0 (Counters 0 0 0 0)) by (unfold counters_ok; cbn; lia).
  assert (Hn0 : 0 + Z.of_nat (length pre) ≤ INT_MAX) by lia.
  assert (Hg0 : (length pre ≤ budget - Z.to_nat (2 ^ s) - 1)%nat) by lia.
  destruct (main_loop_valid fuel v s E b 1%positive sps pre 0 (Counters 0 0 0 0)
              (replicate (length sps) []) ∅ ss {[1%positive := Some <$> sps]} ∅ k
              (budget - Z.to_nat (2 ^ s) - 1)%nat [] Hinv Hgeo HS Hn0 Hf Hg0 Hc0 Hvalid)
    as (bs1 & ss1 & ls1 & k1 & g1 & Hfinal & Hloop & Hinv1 & Hc1 & Hg1).
  eexists _, _, _. split_and!.
  - step_by (exact Hbuild). cbn [fst snd]. step_by (exact Hloop). reflexivity.
  - intros a st Ha. destruct Hinv1 as [_ _ Hdom Hlen1 Hsets _ _ _].
    cbn [sets blocks] in *.
    assert (Hin : a ∈ sps) by (apply Hdom; eauto).
    apply list_elem_of_lookup in Hin as [i Hi].
    destruct (lookup_lt_is_Some_2 ls1 i) as [l Hl].
    { rewrite Hlen1. by eapply lookup_lt_Some. }
    destruct (Hsets i a l Hi Hl) as (st' & Hst' & Hinv').
    rewrite Ha in Hst'. injection Hst' as <-. by destruct Hinv'.
  - intros e. cbv zeta.
    destruct Hinv1 as [Harr _ _ Hlen1 Hsets _ _ _].
    cbn [arrays sets blocks] in *.
    rewrite which_set_spec, which_cache_line_spec by lia.
    pose proof (set_index_range (ev_address e) s b Hs) as Hidx.
    set (i := Z.to_nat (Model.set_index s b (ev_address e))).
    replace (Model.set_index s b (ev_address e)) with (Z.of_nat i)
      by (unfold i; lia).
    assert (Hi : (i < length sps)%nat) by (unfold i; lia).
    destruct (lookup_lt_is_Some_2 sps i Hi) as [sp Hsp].
    destruct (lookup_lt_is_Some_2 ls1 i ltac:(lia)) as [l Hl].
    destruct (Hsets i sp l Hsp Hl) as (st & Hst & Hsinv).
    pose proof Hsinv as [Hch Hcur Htl Hrange Hbelow Hfull Htags].
    assert (Hlenl : Z.of_nat (length l) ≤ E).
    { destruct (decide (s_size st < E)); [rewrite Hbelow by done; lia|].
      rewrite Hfull; lia. }
    assert (Ha : ({[1%positive := Some <$> sps]} : gmap loc (list ptr)) !! 1%positive
                 = Some (Some <$> sps)) by apply lookup_singleton_eq.
    assert (Hai : (Some <$> sps) !! i = Some (Some sp)).
    { by rewrite list_lookup_fmap, Hsp. }
    exists (Some <$> sps), sp, st, l. rewrite ?Nat2Z.id.
    split_and!; [done..| | |].
    + replace (Model.empty s) with (view ∅ <$> replicate (length sps) []).
      2:{ rewrite empty_views. unfold Model.empty. f_equal. lia. }
      by rewrite Hfinal, list_lookup_fmap, Hl.
    + intros p bp Hp Hbp Htag.
      apply list_elem_of_split in Hp as (l1 & l2 & ->).
      pose proof (chain_NoDup _ _ _ Hch) as Hnd.
      pose proof (NoDup_app_cons_inv _ _ _ Hnd) as (Hp1 & Hp2 & H12).
      rewrite length_app in Hlenl. cbn [length] in Hlenl.
      split.
      * unfold main_seek.
        erewrite main_seek_run with (l1 := l1); [reflexivity | done..| | done | lia].
        rewrite Hcur. unfold chain in Hch.
        apply lseg_app in Hch as (r & Hseg1 & Hseg2).
        cbn in Hseg2. by destruct Hseg2 as (-> & _).
      * destruct (main_search_hit fuel bs1 ss1 {[1%positive := Some <$> sps]} ∅ k1
                    g1 (verbose_lines v pre
                          (snd (Model.run s E b (accesses pre)
                                  (view ∅ <$> replicate (length sps) []))))
                    1%positive (Some <$> sps) i sp st p bp l1 l2
                    (Model.tag_of s b (ev_address e)) (ev_operator e))
          as (bs' & tl' & Hrun & _); try done.
        { eapply tags_other; [exact Htags|]. by rewrite (block_at_tag _ _ _ Hbp). }
        { rewrite length_app. cbn [length]. lia. }
        eexists _, _. split; [exact Hrun|]. cbn [sets].
        rewrite lookup_insert_eq. done.
    + intros Hnone. eapply main_search_miss with (l := l); try done. lia.
Qed.

(** At [-s 1 -E 2 -b 4], after [S 0,1] and [L 40,1], set 0 heads the block
    at 5 (tag 2) followed by the block at 4 (tag 0).  For the event
    [L 0,1] the walk of [curr] passes the head and stops on the block at 4,
    and the search puts this block at the head; for the event [L 80,1],
    whose tag 4 is not in the set, the search finds nothing. *)
Lemma curr_is_head_before_every_event_witness :
  ∃ c cache m,
    replay 5 0 1 2 4 [Event "S" 0 1; Event "L" 64 1] (boot 6)
    = Ok (None, c, Some cache) m
    ∧ (∀ a st, sets m !! a = Some st → s_curr st = s_head st)
    ∧ sets m !! 2%positive
      = Some (CacheSet (Some 5%positive) (Some 5%positive) 2 None)
    ∧ chain (blocks m) (Some 5%positive) [5%positive; 4%positive]
    ∧ fst (Model.run 1 2 4 (accesses [Event "S" 0 1; Event "L" 64 1])
             (Model.empty 1)) !! O
      = Some [Model.Block 2 false; Model.Block 0 true]
    ∧ main_seek 5 (Some cache) 0 (Some 4%positive) m
      = Ok tt
          (with_sets
             <[2%positive := CacheSet (Some 5%positive) (Some 4%positive) 2 None]>
             m)
    ∧ (∃ m' st',
         main_search 5 (Some cache) 0 0 "L" m = Ok 1 m'
         ∧ sets m' !! 2%positive = Some st'
         ∧ s_head st' = Some 4%positive
         ∧ s_curr st' = Some 4%positive)
    ∧ main_search 5 (Some cache) 0 4 "L" m = Ok 0 m.
Proof.
  destruct (curr_is_head_before_every_event 5 0 1 2 4
              [Event "S" 0 1; Event "L" 64 1] 6)
    as (c & cache & m & Hrep & Hcur & Hev);
    try solve [ reflexivity | lia | (unfold INT_MAX; cbn; lia) | (cbn; lia) ].
  exists c, cache, m.
  destruct (Hev (Event "L" 0 1)) as (arr & sp & st & l & Harr & Hsp & Hst & Hch
                                     & _ & Hhit & _).
  destruct (Hev (Event "L" 128 1)) as (arr2 & sp2 & st2 & l2 & Harr2 & Hsp2 & Hst2
                                       & Hch2 & _ & _ & Hmiss).
  vm_compute in Hrep. injection Hrep as <- <- <-.
  vm_compute in Harr. injection Harr as <-.
  vm_compute in Hsp. injection Hsp as <-.
  vm_compute in Hst. injection Hst as <-.
  vm_compute in Harr2. injection Harr2 as <-.
  vm_compute in Hsp2. injection Hsp2 as <-.
  vm_compute in Hst2. injection Hst2 as <-.
  match type of Hch with
  | chain ?bs _ _ =>
      assert (Hlist : chain bs (Some 5%positive) [5%positive; 4%positive])
  end.
  { split; [reflexivity|]. eexists. split; [reflexivity|].
    split; [reflexivity|]. eexists. split; reflexivity. }
  pose proof (chain_unique _ _ _ _ Hch Hlist) as ->.
  pose proof (chain_unique _ _ _ _ Hch2 Hlist) as ->.
  destruct (Hhit 4%positive (CacheBlock 0 1 None)
              ltac:(apply list_elem_of_further, list_elem_of_here) eq_refl eq_refl)
    as (Hseek & m' & st' & Hsearch & Hst' & Hhead & Hcurr).
  split_and!; [reflexivity | exact Hcur | reflexivity | exact Hlist | reflexivity
              | exact Hseek | | ].
  - exists m', st'.
    split_and!; [exact Hsearch | exact Hst' | exact Hhead | exact Hcurr].
  - apply Hmiss. intros p bp Hp Hbp.
    apply elem_of_cons in Hp as [->|Hp].
    { vm_compute in Hbp. injection Hbp as <-. discriminate. }
    apply elem_of_cons in Hp as [->|Hp].
    { vm_compute in Hbp. injection Hbp as <-. discriminate. }
    by apply elem_of_nil in Hp.
Defined.

(** * Further properties of the list operations *)

(** ** [cache_set_remove_current] *)

(** X1: [cache_set_remove_current] unlinks the block [curr] points at,
    wherever it stands in the list: for a set whose list is
    [l1 ++ p :: l2] with [curr] on [p] (and, when [tail] is on [p] too, [p]
    the last block), it returns [p], leaves the list [l1 ++ l2] in the same
    order, decrements [size], frees nothing, and changes no block outside
    [l1]. *)
Theorem cache_set_remove_current_unlinks fuel bs ss ar rc k g out sp st l1 p l2 :
  ss !! sp = Some st →
  chain bs (s_head st) (l1 ++ p :: l2) →
  s_curr st = Some p →
  (s_tail st = Some p → l1 ≠ [] → l2 = []) →
  (length l1 < fuel)%nat →
  ∃ bs' st',
    cache_set_remove_current fuel (Some sp) (State bs ss ar rc k g out)
    = Ok (Some p) (State bs' (<[sp := st']> ss) ar rc k g out)
    ∧ chain bs' (s_head st') (l1 ++ l2)
    ∧ s_size st' = wrap_int (s_size st - 1)
    ∧ (∀ a, a ∉ l1 → bs' !! a = bs !! a)
    ∧ (∀ a, is_Some (bs' !! a) ↔ is_Some (bs !! a)).
Proof.
  intros Hst Hch Hcurr Htail Hf.
  pose proof (chain_NoDup _ _ _ Hch) as Hnd.
  destruct (NoDup_app_cons_inv _ _ _ Hnd) as (Hp1 & Hp2 & Hdisj).
  destruct l1 as [|x l1' _] using rev_ind.
  - cbn in Hch. destruct Hch as (Hh & bp & Hbp & Hrest).
    exists bs, (CacheSet (b_next bp) (b_next bp) (wrap_int (s_size st - 1))
                  (s_tail st)).
    split_and!; [by eapply cache_set_remove_current_head|done..].
  - apply lseg_app in Hch as (r & Hl1 & Hr).
    apply lseg_snoc in Hl1 as (Hl1 & bq & Hbq & Hnext).
    cbn in Hr. destruct Hr as (-> & bp & Hbp & Hrest).
    apply NoDup_app in Hnd as (Hnd1 & _ & _).
    apply NoDup_snoc_inv in Hnd1 as (_ & Hq).
    assert (Hpq : p ≠ x).
    { intros ->. apply Hp1, elem_of_app. right. by apply list_elem_of_singleton. }
    assert (Hpl : p ∉ l1').
    { intros Hin. apply Hp1, elem_of_app. by left. }
    rewrite length_app in Hf. cbn in Hf.
    destruct (decide (s_tail st = Some p)) as [Ht|Ht].
    + assert (l2 = []) as ->.
      { apply Htail; [done|]. by destruct l1'. }
      cbn in Hrest.
      exists (<[x := CacheBlock (b_tag bq) (b_dirty bq) None]> bs),
        (CacheSet (s_head st) (Some x) (wrap_int (s_size st - 1)) (Some x)).
      split_and!.
      * eapply cache_set_remove_current_tail; eauto; lia.
      * rewrite app_nil_r. apply lseg_snoc. split.
        -- by apply lseg_insert_ne.
        -- eexists. split; [apply lookup_insert_eq|done].
      * done.
      * intros a Ha. apply lookup_insert_ne. intros ->. apply Ha, elem_of_app.
        right. by apply list_elem_of_singleton.
      * intros a. destruct (decide (a = x)) as [->|Hne].
        -- rewrite lookup_insert_eq, Hbq. split; eauto.
        -- by rewrite lookup_insert_ne.
    + exists (<[x := CacheBlock (b_tag bq) (b_dirty bq) (b_next bp)]> bs),
        (CacheSet (s_head st) (Some p) (wrap_int (s_size st - 1)) (s_tail st)).
      split_and!.
      * eapply cache_set_remove_current_mid; eauto; lia.
      * apply lseg_app. exists (b_next bp). split.
        -- apply lseg_snoc. split.
           ++ by apply lseg_insert_ne.
           ++ eexists. split; [apply lookup_insert_eq|done].
        -- apply lseg_insert_ne; [|done]. apply Hdisj, elem_of_app. right.
           by apply list_elem_of_singleton.
      * done.
      * intros a Ha. apply lookup_insert_ne. intros ->. apply Ha, elem_of_app.
        right. by apply list_elem_of_singleton.
      * intros a. destruct (decide (a = x)) as [->|Hne].
        -- rewrite lookup_insert_eq, Hbq. split; eauto.
        -- by rewrite lookup_insert_ne.
Qed.

Lemma three_block_chain :
  chain (blocks three_block_set) (Some 3%positive)
    [3%positive; 4%positive; 5%positive].
Proof.
  split; [reflexivity|]. eexists. split; [reflexivity|].
  split; [reflexivity|]. eexists. split; [reflexivity|].
  split; [reflexivity|]. eexists. split; reflexivity.
Qed.

Lemma cache_set_remove_current_unlinks_witness :
  ∃ bs' st',
    cache_set_remove_current 2 (Some 2%positive) three_block_set
    = Ok (Some 4%positive)
         (State bs' (<[2%positive := st']> (sets three_block_set))
            (arrays three_block_set) ∅ 6%positive 0 [])
    ∧ chain bs' (s_head st') ([3%positive] ++ [5%positive])
    ∧ s_size st' = wrap_int (3 - 1)
    ∧ (∀ a, a ∉ [3%positive] → bs' !! a = blocks three_block_set !! a)
    ∧ (∀ a, is_Some (bs' !! a) ↔ is_Some (blocks three_block_set !! a)).
Proof.
  apply (cache_set_remove_current_unlinks 2 (blocks three_block_set)
           (sets three_block_set) (arrays three_block_set) ∅ 6%positive O []
           2%positive (CacheSet (Some 3%positive) (Some 4%positive) 3 None)
           [3%positive] 4%positive [5%positive]).
  - reflexivity.
  - exact three_block_chain.
  - reflexivity.
  - discriminate.
  - cbn. lia.
Defined.

(** X2: inserting a block at the head and removing the current block right
    after is a round trip: the call returns the block just inserted and the
    set has its old head and size again, with [curr] reset to the head; the
    block keeps its tag and dirty flag and points at the old head. *)
Theorem insert_head_remove_current_round_trip fuel bs ss ar rc k g out sp st p b :
  ss !! sp = Some st → bs !! p = Some b →
  - 2 ^ 31 ≤ s_size st < INT_MAX →
  (cache_set_insert_head (Some sp) (Some p) ;;
   cache_set_remove_current fuel (Some sp)) (State bs ss ar rc k g out)
  = Ok (Some p)
       (State (<[p := CacheBlock (b_tag b) (b_dirty b) (s_head st)]> bs)
          (<[sp := CacheSet (s_head st) (s_head st) (s_size st) (s_tail st)]> ss)
          ar rc k g out).
Proof.
  intros Hst Hb Hsz.
  step_by (by eapply cache_set_insert_head_run).
  erewrite cache_set_remove_current_head;
    [|apply lookup_insert_eq|reflexivity|reflexivity|apply lookup_insert_eq].
  cbn [s_size s_tail b_next]. rewrite insert_insert_eq.
  do 3 f_equal. f_equal.
  rewrite (wrap_int_id (s_size st + 1)) by (unfold INT_MAX in Hsz; lia).
  rewrite wrap_int_id by (unfold INT_MAX in Hsz; lia). lia.
Qed.

Lemma insert_head_remove_current_round_trip_witness :
  (cache_set_insert_head (Some 2%positive) (Some 5%positive) ;;
   cache_set_remove_current 1 (Some 2%positive)) three_block_set
  = Ok (Some 5%positive)
       (State (<[5%positive := CacheBlock 11 0 (Some 3%positive)]>
                 (blocks three_block_set))
          (<[2%positive := CacheSet (Some 3%positive) (Some 3%positive) 3 None]>
             (sets three_block_set))
          (arrays three_block_set) ∅ 6%positive 0 []).
Proof.
  apply (insert_head_remove_current_round_trip 1 (blocks three_block_set)
           (sets three_block_set) (arrays three_block_set) ∅ 6%positive O []
           2%positive (CacheSet (Some 3%positive) (Some 4%positive) 3 None)
           5%positive (CacheBlock 11 0 None)).
  - reflexivity.
  - reflexivity.
  - unfold INT_MAX. cbn. lia.
Defined.

(** ** [cache_set_remove_tail] *)

(** X3: on a set with at least two blocks [cache_set_remove_tail] frees
    exactly the last block: the list loses its last element, the block
    before it becomes the [tail] and gets a [NULL] link, [head], [curr] and
    [size] keep their values, and no other block changes. *)
Theorem cache_set_remove_tail_frees_last fuel bs ss ar rc k g out sp st l y z :
  ss !! sp = Some st →
  chain bs (s_head st) (l ++ [y; z]) →
  (length l < fuel)%nat →
  ∃ bs',
    cache_set_remove_tail fuel (Some sp) (State bs ss ar rc k g out)
    = Ok tt (State bs'
               (<[sp := CacheSet (s_head st) (s_curr st) (s_size st) (Some y)]> ss)
               ar rc k g out)
    ∧ chain bs' (s_head st) (l ++ [y])
    ∧ bs' !! z = None
    ∧ (∀ a, a ≠ y → a ≠ z → bs' !! a = bs !! a).
Proof.
  intros Hst Hch Hf.
  pose proof (chain_NoDup _ _ _ Hch) as Hnd.
  apply NoDup_app in Hnd as (_ & Hdisj & Hyz).
  apply NoDup_cons in Hyz as (Hyz & _).
  assert (Hne : y ≠ z).
  { intros ->. apply Hyz. by apply list_elem_of_singleton. }
  apply lseg_app in Hch as (r & Hl & Hr).
  cbn in Hr. destruct Hr as (-> & by_ & Hby & Hyn & bz & Hbz & Hend).
  exists (delete z (<[y := CacheBlock (b_tag by_) (b_dirty by_) None]> bs)).
  split_and!.
  - eapply cache_set_remove_tail_run; eauto.
  - apply lseg_snoc. split.
    + apply lseg_agree with (bs := bs); [|done].
      intros a Ha. rewrite lookup_delete_ne, lookup_insert_ne; [done|..].
      * intros ->. apply (Hdisj _ Ha). set_solver.
      * intros ->. apply (Hdisj _ Ha). set_solver.
    + exists (CacheBlock (b_tag by_) (b_dirty by_) None). split; [|reflexivity].
      rewrite lookup_delete_ne by done. apply lookup_insert_eq.
  - apply lookup_delete_eq.
  - intros a Hay Haz. by rewrite lookup_delete_ne, lookup_insert_ne.
Qed.

Lemma cache_set_remove_tail_frees_last_witness :
  ∃ bs',
    cache_set_remove_tail 2 (Some 2%positive) three_block_set
    = Ok tt (State bs'
               (<[2%positive := CacheSet (Some 3%positive) (Some 4%positive) 3
                                  (Some 4%positive)]> (sets three_block_set))
               (arrays three_block_set) ∅ 6%positive 0 [])
    ∧ chain bs' (Some 3%positive) ([3%positive] ++ [4%positive])
    ∧ bs' !! 5%positive = None
    ∧ (∀ a, a ≠ 4%positive → a ≠ 5%positive
            → bs' !! a = blocks three_block_set !! a).
Proof.
  apply (cache_set_remove_tail_frees_last 2 (blocks three_block_set)
           (sets three_block_set) (arrays three_block_set) ∅ 6%positive O []
           2%positive (CacheSet (Some 3%positive) (Some 4%positive) 3 None)
           [3%positive] 4%positive 5%positive).
  - reflexivity.
  - exact three_block_chain.
  - cbn. lia.
Defined.

(** X4: on a set with a single block [cache_set_remove_tail] only clears
    [head]: the block is not freed (the block heap is unchanged, so the
    block stays allocated with nothing in the set leading to it but the
    stale [curr]), and [size] and [tail] keep their values. *)
Theorem cache_set_remove_tail_keeps_single_block fuel bs ss ar rc k g out sp st z :
  ss !! sp = Some st →
  chain bs (s_head st) [z] →
  ∃ m',
    cache_set_remove_tail fuel (Some sp) (State bs ss ar rc k g out) = Ok tt m'
    ∧ blocks m' = bs
    ∧ is_Some (blocks m' !! z)
    ∧ sets m' !! sp
      = Some (CacheSet None (s_curr st) (s_size st) (s_tail st)).
Proof.
  intros Hst (Hh & bz & Hbz & Hend). cbn in Hend.
  eexists. split_and!.
  - by eapply cache_set_remove_tail_single.
  - reflexivity.
  - cbn [blocks]. eauto.
  - cbn [sets]. apply lookup_insert_eq.
Qed.

Lemma cache_set_remove_tail_keeps_single_block_witness :
  ∃ m',
    cache_set_remove_tail 0 (Some 2%positive) one_block_set = Ok tt m'
    ∧ blocks m' = blocks one_block_set
    ∧ is_Some (blocks m' !! 3%positive)
    ∧ sets m' !! 2%positive = Some (CacheSet None (Some 3%positive) 1 None).
Proof.
  apply (cache_set_remove_tail_keeps_single_block 0 (blocks one_block_set)
           (sets one_block_set) (arrays one_block_set) ∅ 4%positive O []
           2%positive (CacheSet (Some 3%positive) (Some 3%positive) 1 None)
           3%positive).
  - reflexivity.
  - split; [reflexivity|]. eexists. split; reflexivity.
Defined.

(** ** [dirty_tail] *)

(** X5: [dirty_tail] returns the dirty flag of the last block of the list,
    whatever the flags of the blocks before it, and changes nothing in
    memory. *)
Theorem dirty_tail_reads_last_block fuel bs ss ar rc k g out sp st l z bz :
  ss !! sp = Some st →
  chain bs (s_head st) (l ++ [z]) → bs !! z = Some bz →
  (length l < fuel)%nat →
  dirty_tail fuel (Some sp) (State bs ss ar rc k g out)
  = Ok (b_dirty bz) (State bs ss ar rc k g out).
Proof. intros. by eapply dirty_tail_run. Qed.

Lemma dirty_tail_reads_last_block_witness :
  dirty_tail 3 (Some 2%positive) three_block_set = Ok 0 three_block_set.
Proof.
  apply (dirty_tail_reads_last_block 3 (blocks three_block_set)
           (sets three_block_set) (arrays three_block_set) ∅ 6%positive O []
           2%positive (CacheSet (Some 3%positive) (Some 4%positive) 3 None)
           [3%positive; 4%positive] 5%positive (CacheBlock 11 0 None)).
  - reflexivity.
  - exact three_block_chain.
  - reflexivity.
  - cbn. lia.
Defined.

(** ** [count_dirty] and [full_free_cache] *)

Lemma three_block_lists :
  cache_lists 4 three_block_set 1 [2%positive]
    [[3%positive; 4%positive; 5%positive]].
Proof.
  split_and!; [reflexivity..|].
  intros [|i] sp l Hsp Hl; [|done]. injection Hsp as <-. injection Hl as <-.
  eexists. split_and!; [reflexivity|exact three_block_chain|cbn; lia].
Qed.

(** X6: [count_dirty] returns the number of linked blocks, over all sets,
    whose dirty flag is not zero (as an [int]), and changes nothing in
    memory. *)
Theorem count_dirty_counts_dirty_blocks fuel m cache sps ls :
  cache_lists fuel m cache sps ls →
  count_dirty fuel (Some cache) (Z.of_nat (length sps)) m
  = Ok (wrap_int (dirty_count (concat (view (blocks m) <$> ls)))) m.
Proof.
  intros (Ha & Hlen & Hchains).
  unfold count_dirty. rewrite Nat2Z.id.
  pose proof (count_dirty_loop fuel m cache sps ls Ha Hlen Hchains (length sps) O 0
                eq_refl eq_refl) as Hrun.
  rewrite drop_0 in Hrun. exact Hrun.
Qed.

Lemma count_dirty_counts_dirty_blocks_witness :
  count_dirty 4 (Some 1%positive) 1 three_block_set = Ok 1 three_block_set.
Proof.
  exact (count_dirty_counts_dirty_blocks 4 three_block_set 1 [2%positive]
           [[3%positive; 4%positive; 5%positive]] three_block_lists).
Defined.

(** X7: [full_free_cache] on a cache whose sets are distinct and whose
    lists share no block frees every linked block, every set and the array,
    and touches nothing else: blocks outside the lists stay allocated, and
    so do the summary records. *)
Theorem full_free_cache_releases fuel bs ss ar rc k g out cache sps ls :
  cache_lists fuel (State bs ss ar rc k g out) cache sps ls →
  NoDup sps →
  (∀ j1 j2 l1 l2 a, ls !! j1 = Some l1 → ls !! j2 = Some l2 →
                    a ∈ l1 → a ∈ l2 → j1 = j2) →
  ∃ bs' ss',
    full_free_cache fuel (Some cache) (Z.of_nat (length sps))
      (State bs ss ar rc k g out)
    = Ok tt (State bs' ss' (delete cache ar) rc k g out)
    ∧ (∀ a, bs' !! a = if decide (a ∈ concat ls) then None else bs !! a)
    ∧ (∀ a, ss' !! a = if decide (a ∈ sps) then None else ss !! a).
Proof.
  intros (Ha & Hlen & Hchains) Hnd Hdisj. cbn [arrays sets blocks] in *.
  exists (drop_keys (concat ls) bs), (drop_keys sps ss). split_and!.
  - unfold full_free_cache. rewrite bool_decide_true by eauto.
    rewrite Nat2Z.id.
    assert (Hchains' : ∀ i sp l, (0 ≤ i)%nat → sps !! i = Some sp →
              ls !! i = Some l →
              ∃ st, ss !! sp = Some st ∧ chain bs (s_head st) l
                    ∧ (length l < fuel)%nat) by eauto.
    assert (Hlive : ∀ i sp, (0 ≤ i)%nat → sps !! i = Some sp → is_Some (ss !! sp)).
    { intros i sp _ Hsp.
      destruct (lookup_lt_is_Some_2 ls i) as [l Hl].
      { rewrite Hlen. by eapply lookup_lt_Some. }
      destruct (Hchains i sp l Hsp Hl) as (st & Hst & _). eauto. }
    step_by (eapply (free_chains_run fuel ss ar rc k g out cache sps ls)
               with (j := O); [ done | done | done | done | exact Hchains' ]).
    step_by (eapply (free_set_structs_run _ ar rc k g out cache sps) with (j := O);
             [ done | done | done | exact Hlive ]).
    erewrite free_array_run by (reduce_state; exact Ha).
    reduce_state. by rewrite !drop_0.
  - intros a. apply lookup_drop_keys.
  - intros a. apply lookup_drop_keys.
Qed.

Lemma full_free_cache_releases_witness :
  ∃ bs' ss',
    full_free_cache 4 (Some 1%positive) 1 three_block_set
    = Ok tt (State bs' ss' (delete 1%positive (arrays three_block_set)) ∅
               6%positive 0 [])
    ∧ (∀ a, bs' !! a
            = if decide (a ∈ concat [[3%positive; 4%positive; 5%positive]])
              then None else blocks three_block_set !! a)
    ∧ (∀ a, ss' !! a
            = if decide (a ∈ [2%positive]) then None
              else sets three_block_set !! a).
Proof.
  apply (full_free_cache_releases 4 (blocks three_block_set)
           (sets three_block_set) (arrays three_block_set) ∅ 6%positive O []
           1%positive [2%positive] [[3%positive; 4%positive; 5%positive]]).
  - exact three_block_lists.
  - apply NoDup_singleton.
  - intros [|j1] [|j2] l1 l2 a H1 H2 _ _; done.
Defined.

(** * Further properties of [main] *)

(** ** Start-up and allocation failures *)

Lemma main_args_given fuel v s E b t :
  0 ≤ s < 64 → E ≠ UNSET → b ≠ UNSET →
  main fuel v s E b true t
  = (built <- main_build (2 ^ s) ;;
     match fst built with
     | Some z => ret z
     | None =>
         match t with
         | None =>
             full_free_cache fuel (snd built) (2 ^ s) ;;
             printf FileCanNotBeOpened ;;
             ret 0
         | Some trace =>
             r <- main_loop fuel v s E b (2 ^ s) (snd built) trace (Counters 0 0 0 0) ;;
             match fst r with
             | Some z => ret z
             | None => main_summary fuel b (2 ^ s) (snd built) (snd r)
             end
         end
     end).
Proof.
  intros Hs HE Hb. unfold main.
  rewrite (proj2 (Z.eqb_neq s _)) by (unfold UNSET; lia).
  rewrite (proj2 (Z.eqb_neq E _)) by done.
  rewrite (proj2 (Z.eqb_neq b _)) by done.
  cbn [negb]. cbv zeta. rewrite set_count_mod by lia. reflexivity.
Qed.

Lemma drop_keys_empty {V} (l : list loc) : drop_keys l (∅ : gmap loc V) = ∅.
Proof.
  apply map_eq. intros a. rewrite lookup_drop_keys, lookup_empty.
  by destruct (decide (a ∈ l)).
Qed.

(** X8: when the trace file cannot be opened, [main] has already built the
    cache: it frees the array and all [2^s] sets again, prints
    [File Can Not Be Opened] and returns 0, whatever [E], [b] and [-v]
    are. *)
Theorem unopenable_trace_file_releases_cache fuel v s E b g :
  0 ≤ s < 64 → E ≠ UNSET → b ≠ UNSET → (1 < fuel)%nat →
  ∃ k,
    main fuel v s E b true None (boot (S (Z.to_nat (2 ^ s) + g)))
    = Ok 0 (State ∅ ∅ ∅ ∅ k g [FileCanNotBeOpened]).
Proof.
  intros Hs HE Hb Hf. rewrite main_args_given by done.
  destruct (main_build_run 1 s g) as (sps & ss & k & Hbuild & HS & Hinv); [lia..|].
  exists k. step_by (exact Hbuild). cbn [fst snd].
  rewrite <- HS.
  erewrite bind_run
    by (eapply full_free_cache_run; [exact Hinv | lia | cbn; lia]).
  by rewrite drop_keys_empty.
Qed.

Lemma unopenable_trace_file_releases_cache_witness :
  ∃ k,
    main 2 1 2 4 5 true None (boot (S (Z.to_nat (2 ^ 2) + 0)))
    = Ok 0 (State ∅ ∅ ∅ ∅ k 0 [FileCanNotBeOpened]).
Proof.
  apply (unopenable_trace_file_releases_cache 2 1 2 4 5 0);
    first [ lia | (unfold UNSET; lia) ].
Defined.

(** The loop of [free_sets], from set [j] on, on an array whose first
    entries are the sets [sps]. *)
Lemma free_sets_loop bs ar rc k g out cache arr sps :
  ar !! cache = Some arr →
  (∀ i sp, sps !! i = Some sp → arr !! i = Some (Some sp)) →
  NoDup sps →
  ∀ n j ss,
  (j + n = length sps)%nat →
  (∀ i sp, (j ≤ i)%nat → sps !! i = Some sp → is_Some (ss !! sp)) →
  for_range (R := unit) n (Z.of_nat j)
    (fun j => set <- rd_index (Some cache) j ;; free_set set ;; ret None)
    (State bs ss ar rc k g out)
  = Ok None (State bs (drop_keys (drop j sps) ss) ar rc k g out).
Proof.
  intros Har Hpre Hnd. induction n as [|n IH]; intros j ss Hj Hsets.
  - rewrite drop_ge by lia. done.
  - assert (Hjs : (j < length sps)%nat) by lia.
    destruct (lookup_lt_is_Some_2 sps j Hjs) as [sp Hsp].
    destruct (Hsets j sp ltac:(lia) Hsp) as [st Hst].
    cbn [for_range].
    step_by (eapply rd_index_run; [solve_lookup | by apply Hpre]).
    repeat step.
    replace (Z.of_nat j + 1) with (Z.of_nat (S j)) by lia.
    rewrite IH; [| lia |].
    + by rewrite (drop_S_lookup _ _ _ Hsp).
    + intros i spi Hi Hspi. rewrite lookup_delete_ne; [by eapply Hsets; [|done]; lia|].
      intros <-. assert (j = i) by (by eapply NoDup_lookup). lia.
Qed.

Lemma new_cache_set_null bs ss ar rc k out :
  new_cache_set (State bs ss ar rc k O out) = Ok None (State bs ss ar rc k O out).
Proof. reflexivity. Qed.

(** The build loop of [main] when [malloc] serves [g] more sets and then
    fails: the sets built so far and the array are freed again. *)
Lemma main_build_short bs rc out cache :
  ∀ g n sps ss k,
  (g < n)%nat → NoDup sps →
  (∀ sp, sp ∈ sps → is_Some (ss !! sp) ∧ (sp < k)%positive) →
  for_range n (Z.of_nat (length sps))
    (fun i =>
       p <- new_cache_set ;;
       wr_index (Some cache) i p ;;
       ci <- rd_index (Some cache) i ;;
       if negb (bool_decide (is_Some ci)) then
         free_sets (Some cache) i ;; ret (Some 0)
       else ret None)
    (State bs ss {[cache := (Some <$> sps) ++ replicate n None]} rc k g out)
  = Ok (Some 0)
       (State bs (drop_keys (sps ++ fresh_ptrs k g) (add_sets (fresh_ptrs k g) ss))
              ∅ rc (Pos.of_nat (Pos.to_nat k + g)) O out).
Proof.
  induction g as [|g IH]; intros n sps ss k Hg Hnd Hlive;
    (destruct n as [|n]; [lia|]); cbn [for_range].
  - step_by (apply new_cache_set_null).
    assert (Hlen : (length sps < length ((Some <$> sps) ++ replicate (S n) None))%nat).
    { rewrite length_app, length_fmap, length_replicate. lia. }
    assert (Hnull : ((Some <$> sps) ++ replicate (S n) None) !! length sps
                    = Some (None : ptr)).
    { rewrite lookup_app_r by (rewrite length_fmap; lia).
      rewrite length_fmap, Nat.sub_diag. reflexivity. }
    step_by (eapply wr_index_run; [reduce_state; apply lookup_singleton_eq | exact Hlen]).
    rewrite insert_singleton_eq, (list_insert_id _ _ _ Hnull).
    step_by (eapply rd_index_run with (sp := None);
             [ reduce_state; apply lookup_singleton_eq | exact Hnull ]).
    rewrite bool_decide_false by (by intros [? ?]). cbn [negb].
    unfold free_sets. rewrite bool_decide_true by eauto. rewrite Nat2Z.id.
    step_by (eapply (free_sets_loop bs _ rc k O out cache _ sps) with (j := O);
             [ apply lookup_singleton_eq
             | intros i sp Hsp; rewrite lookup_app_l
                 by (rewrite length_fmap; by eapply lookup_lt_Some);
               by rewrite list_lookup_fmap, Hsp
             | done | done
             | intros i sp _ Hsp; apply Hlive; by eapply list_elem_of_lookup_2 ]).
    erewrite bind_run by (eapply free_array_run; apply lookup_singleton_eq).
    reduce_state. step.
    rewrite delete_singleton_eq, drop_0, Nat.add_0_r, Pos2Nat.id.
    cbn [fresh_ptrs]. by rewrite app_nil_r.
  - step_by (apply new_cache_set_run).
    assert (Hlen : (length sps < length ((Some <$> sps) ++ replicate (S n) None))%nat).
    { rewrite length_app, length_fmap, length_replicate. lia. }
    step_by (eapply wr_index_run; [reduce_state; apply lookup_singleton_eq | exact Hlen]).
    rewrite insert_singleton_eq.
    assert (Harr : <[length sps := Some k]> ((Some <$> sps) ++ replicate (S n) None)
                   = (Some <$> (sps ++ [k])) ++ replicate n None).
    { rewrite fmap_app. cbn [fmap list_fmap replicate]. rewrite <- app_assoc. cbn.
      replace (length sps) with (length (Some <$> sps) + 0)%nat
        by (rewrite length_fmap; lia).
      by rewrite insert_app_r. }
    rewrite Harr.
    step_by (eapply rd_index_run with (sp := Some k);
             [ reduce_state; apply lookup_singleton_eq
             | rewrite lookup_app_l by (rewrite length_fmap, length_app; cbn; lia);
               rewrite list_lookup_fmap, lookup_app_r by lia;
               by rewrite Nat.sub_diag ]).
    rewrite bool_decide_true by eauto. cbn [negb]. step.
    replace (Z.of_nat (length sps) + 1) with (Z.of_nat (length (sps ++ [k])))
      by (rewrite length_app; cbn; lia).
    rewrite IH.
    + cbn [fresh_ptrs]. rewrite <- app_assoc. cbn [app].
      do 2 f_equal. lia.
    + lia.
    + apply NoDup_app. split_and!; [done| |apply NoDup_singleton].
      intros sp Hsp ->%list_elem_of_singleton.
      destruct (Hlive _ Hsp) as [_ Hlt]. lia.
    + intros sp [Hsp| ->%list_elem_of_singleton]%elem_of_app.
      * destruct (Hlive _ Hsp) as [[st Hst] Hlt]. split; [|lia].
        destruct (decide (sp = k)) as [->|Hne]; [lia|].
        rewrite lookup_insert_ne by done. eauto.
      * split; [|lia]. rewrite lookup_insert_eq. eauto.
Qed.

(** X9: when [malloc] fails for one of the [2^s] sets (the array and
    [g < 2^s] sets were served), [main] frees the sets built so far and the
    array and returns 0: nothing stays allocated, nothing is printed, and
    the trace file is never opened. *)
Theorem set_allocation_failure_releases fuel v s E b t g :
  0 ≤ s < 64 → E ≠ UNSET → b ≠ UNSET → (g < Z.to_nat (2 ^ s))%nat →
  ∃ k, main fuel v s E b true t (boot (S g)) = Ok 0 (State ∅ ∅ ∅ ∅ k O []).
Proof.
  intros Hs HE Hb Hg. rewrite main_args_given by done.
  unfold main_build, boot.
  pose proof (main_build_short ∅ ∅ [] 1%positive g (Z.to_nat (2 ^ s)) [] ∅
                2%positive Hg (NoDup_nil_2 (A := loc))) as Hloop.
  cbn [fmap list_fmap app length Z.of_nat] in Hloop.
  eexists.
  step_by (unfold calloc, malloc, bind; cbn; reflexivity).
  rewrite insert_empty.
  step_by (apply Hloop; by intros sp ?%elem_of_nil).
  cbn [fst snd]. unfold ret. do 2 f_equal.
  apply map_eq. intros a. rewrite lookup_drop_keys, lookup_add_sets, lookup_empty.
  by destruct (decide (a ∈ fresh_ptrs 2 g)).
Qed.

Lemma set_allocation_failure_releases_witness :
  ∃ k, main 0 1 2 4 5 true (Some [Event "L" 0 1]) (boot 3)
       = Ok 0 (State ∅ ∅ ∅ ∅ k O []).
Proof.
  apply (set_allocation_failure_releases 0 1 2 4 5 (Some [Event "L" 0 1]) 2);
    first [ lia | (unfold UNSET; lia) | (cbn; lia) ].
Defined.

(** X10: the result of [calloc] is never tested.  When the allocation of
    the set array fails, the first [cache[0] = new_cache_set()] writes
    through [NULL]: [main] faults for every geometry, before the trace file
    is opened. *)
Theorem array_allocation_failure_faults fuel v s E b t :
  0 ≤ s < 64 → E ≠ UNSET → b ≠ UNSET →
  main fuel v s E b true t (boot O) = Fault.
Proof.
  intros Hs HE Hb. rewrite main_args_given by done.
  unfold main_build.
  assert (Hn : (0 < Z.to_nat (2 ^ s))%nat).
  { assert (0 < 2 ^ s) by (apply Z.pow_pos_nonneg; lia). lia. }
  destruct (Z.to_nat (2 ^ s)) as [|n]; [lia|].
  reflexivity.
Qed.

Lemma array_allocation_failure_faults_witness :
  main 3 0 2 4 5 true (Some [Event "L" 0 1]) (boot O) = Fault.
Proof.
  apply (array_allocation_failure_faults 3 0 2 4 5 (Some [Event "L" 0 1]));
    first [ lia | (unfold UNSET; lia) ].
Defined.

(** ** A capacity that is not positive *)

(** X11: [E] is not validated.  With [E <= 0] the test [size < E] fails on
    the empty set of the first event, so [main] takes the eviction branch
    and [dirty_tail] follows the [NULL] head: the run faults on its first
    event, for every geometry and every trace that is not empty. *)
Theorem nonpositive_capacity_faults fuel v s E b e rest g :
  0 ≤ s → 0 ≤ b → s + b < 64 → E ≤ 0 → (0 < fuel)%nat →
  main fuel v s E b true (Some (e :: rest)) (boot (S (Z.to_nat (2 ^ s) + g)))
  = Fault.
Proof.
  intros Hs Hb Hw HE Hf.
  rewrite main_args_ok by (unfold UNSET; lia).
  destruct (main_build_run 1 s g) as (sps & ss & k & Hbuild & HS & Hinv); [lia..|].
  step_by (exact Hbuild). cbn [fst snd].
  apply bind_fault. cbn [main_loop]. apply bind_fault.
  destruct Hinv as [Harr Hnd Hdom Hlen Hsets Hdisj Hfresh Hleak].
  cbn [arrays sets blocks brk] in *.
  pose proof (set_index_range (ev_address e) s b Hs) as Hidx.
  unfold main_event. cbv zeta. rewrite which_set_spec by lia.
  set (i := Z.to_nat (Model.set_index s b (ev_address e))).
  replace (Model.set_index s b (ev_address e)) with (Z.of_nat i) by (unfold i; lia).
  assert (Hi : (i < length sps)%nat) by (unfold i; lia).
  destruct (lookup_lt_is_Some_2 sps i Hi) as [sp Hsp].
  assert (Hl : replicate (length sps) ([] : list loc) !! i = Some []).
  { by apply lookup_replicate. }
  destruct (Hsets i sp [] Hsp Hl) as (st & Hst & Hinv).
  assert (Ha : ({[1%positive := Some <$> sps]} : gmap loc (list ptr)) !! 1%positive
               = Some (Some <$> sps)) by apply lookup_singleton_eq.
  assert (Hai : (Some <$> sps) !! i = Some (Some sp)).
  { by rewrite list_lookup_fmap, Hsp. }
  destruct Hinv as [Hch _ _ Hrange _ _ _]. cbn in Hch.
  step_by (eapply main_search_miss with (l := []);
           [ exact Ha | exact Hai | exact Hst | exact Hch
           | by intros ? ? ?%elem_of_nil | cbn; lia ]).
  cbn [Z.eqb]. apply bind_fault.
  unfold main_insert. do 2 step.
  rewrite (proj2 (Z.ltb_ge _ _)) by lia.
  destruct fuel as [|fuel]; [lia|].
  destruct g as [|g].
  - step_by (apply new_cache_block_null). step.
    apply bind_fault. by eapply dirty_tail_empty.
  - step_by (apply new_cache_block_run). step.
    apply bind_fault. by eapply dirty_tail_empty.
Qed.

Lemma nonpositive_capacity_faults_witness :
  main 1 0 1 0 2 true (Some [Event "L" 0 1]) (boot (S (Z.to_nat (2 ^ 1) + 1)))
  = Fault.
Proof.
  apply (nonpositive_capacity_faults 1 0 1 0 2 (Event "L" 0 1) [] 1); lia.
Defined.

(** ** A whole run on a trace of loads and stores *)

(** What a run on a valid trace leaves and prints, with the number of
    allocations it has used. *)
Lemma main_run fuel v s E b trace grants :
  geometry_ok s E b → E ≠ UNSET →
  valid_trace trace = true →
  Z.of_nat (length trace) ≤ INT_MAX →
  (2 * Z.to_nat E < fuel)%nat →
  (Z.to_nat (2 ^ s) + length trace + 2 ≤ grants)%nat →
  ∃ bs k g,
    main fuel v s E b true (Some trace) (boot grants)
    = Ok 0
        (State bs ∅ ∅ ∅ k g
           (verbose_lines v trace
              (snd (Model.run s E b (accesses trace) (Model.empty s)))
            ++ [Summary
                  (summary_of b
                     (counters_after (Counters 0 0 0 0)
                        (snd (Model.run s E b (accesses trace) (Model.empty s))))
                     (Model.resident_dirty
                        (fst (Model.run s E b (accesses trace) (Model.empty s)))))]))
    ∧ (E ≠ 1 → bs = ∅)
    ∧ (grants
       = g + Z.to_nat (2 ^ s) + 2
         + allocations (snd (Model.run s E b (accesses trace) (Model.empty s))))%nat.
Proof.
  intros Hgeo HE Hvalid Hlen Hf Hg.
  pose proof Hgeo as [Hs Hb Hw HE1].
  rewrite main_args_ok by lia.
  assert (∃ g0, grants = S (Z.to_nat (2 ^ s) + g0)) as [g0 ->].
  { exists (grants - Z.to_nat (2 ^ s) - 1)%nat. lia. }
  destruct (main_build_run E s g0) as (sps & ss & k & Hbuild & HS & Hinv); [lia..|].
  step_by (exact Hbuild). cbn [fst snd].
  assert (Hc0 : counters_ok 0 (Counters 0 0 0 0)) by (unfold counters_ok; cbn; lia).
  assert (Hn0 : 0 + Z.of_nat (length trace) ≤ INT_MAX) by lia.
  assert (Hg0 : (length trace ≤ g0)%nat) by lia.
  destruct (main_loop_valid fuel v s E b 1%positive sps trace 0 (Counters 0 0 0 0)
              (replicate (length sps) []) ∅ ss {[1%positive := Some <$> sps]} ∅ k
              g0 [] Hinv Hgeo HS Hn0 Hf Hg0 Hc0 Hvalid)
    as (bs' & ss' & ls' & k' & g' & Hfinal & Hloop & Hinv' & Hc' & Hg').
  rewrite empty_views in Hfinal, Hloop, Hinv', Hg'.
  replace (replicate (length sps) []) with (Model.empty s) in Hfinal, Hloop, Hinv', Hg'
    by (unfold Model.empty; f_equal; lia).
  step_by (exact Hloop). cbn [fst snd app].
  pose proof (allocations_le (snd (Model.run s E b (accesses trace) (Model.empty s))))
    as Hal.
  rewrite run_length, accesses_length in Hal.
  destruct g' as [|g']; [lia|].
  rewrite <- HS.
  erewrite main_summary_run; [ | exact Hinv' | done | lia ].
  rewrite Hfinal.
  eexists _, _, _. split_and!; [reflexivity| |lia].
  intros HE'. by eapply (drop_linked_no_leak _ _ _ _ _ _ Hinv').
Qed.

Lemma count_hit_miss os :
  Model.count Model.is_hit os + Model.count Model.is_miss os
  = Z.of_nat (length os).
Proof.
  unfold Model.count. induction os as [|o os IH]; [done|].
  rewrite !filter_cons. destruct o; cbn [Model.is_hit Model.is_miss];
    repeat case_decide; try done; cbn [length] in *; lia.
Qed.

Lemma count_eviction_miss os :
  0 ≤ Model.count Model.is_eviction os ≤ Model.count Model.is_miss os.
Proof.
  unfold Model.count. induction os as [|o os IH]; [done|].
  rewrite !filter_cons. destruct o; cbn [Model.is_eviction Model.is_miss];
    repeat case_decide; try done; cbn [length] in *; lia.
Qed.

Lemma count_allocations os :
  Model.count Model.is_miss os = Z.of_nat (allocations os).
Proof. reflexivity. Qed.

(** X12: on a trace of loads and stores [main] behaves as the list-based
    LRU cache started empty: it returns 0, prints in verbose mode the
    outcome of every event in order, and the hits, misses and evictions of
    the summary are the numbers of such outcomes. *)
Theorem main_replays_lru fuel v s E b trace grants :
  0 ≤ s → 0 ≤ b → s + b < 64 → 1 ≤ E → E ≠ UNSET →
  valid_trace trace = true →
  Z.of_nat (length trace) ≤ INT_MAX →
  (2 * Z.to_nat E < fuel)%nat →
  (Z.to_nat (2 ^ s) + length trace + 2 ≤ grants)%nat →
  ∃ m st,
    main fuel v s E b true (Some trace) (boot grants) = Ok 0 m
    ∧ stdout m
      = verbose_lines v trace
          (snd (Model.run s E b (accesses trace) (Model.empty s)))
        ++ [Summary st]
    ∧ hits st
      = Model.count Model.is_hit
          (snd (Model.run s E b (accesses trace) (Model.empty s)))
    ∧ misses st
      = Model.count Model.is_miss
          (snd (Model.run s E b (accesses trace) (Model.empty s)))
    ∧ evictions st
      = Model.count Model.is_eviction
          (snd (Model.run s E b (accesses trace) (Model.empty s))).
Proof.
  intros Hs Hb Hw HE1 HE Hvalid Hlen Hf Hg.
  destruct (main_run fuel v s E b trace grants) as (bs & k & g & Hmain & _);
    [by split|done..|].
  eexists _, _. split; [exact Hmain|]. cbn [stdout].
  split; [reflexivity|].
  rewrite counters_after_count. cbn. done.
Qed.

Lemma main_replays_lru_witness :
  ∃ m st,
    main 5 1 1 2 4 true
      (Some [Event "S" 0 1; Event "L" 32 1; Event "S" 0 1]) (boot 7)
    = Ok 0 m
    ∧ stdout m
      = verbose_lines 1 [Event "S" 0 1; Event "L" 32 1; Event "S" 0 1]
          (snd (Model.run 1 2 4
                  (accesses [Event "S" 0 1; Event "L" 32 1; Event "S" 0 1])
                  (Model.empty 1)))
        ++ [Summary st]
    ∧ hits st
      = Model.count Model.is_hit
          (snd (Model.run 1 2 4
                  (accesses [Event "S" 0 1; Event "L" 32 1; Event "S" 0 1])
                  (Model.empty 1)))
    ∧ misses st
      = Model.count Model.is_miss
          (snd (Model.run 1 2 4
                  (accesses [Event "S" 0 1; Event "L" 32 1; Event "S" 0 1])
                  (Model.empty 1)))
    ∧ evictions st
      = Model.count Model.is_eviction
          (snd (Model.run 1 2 4
                  (accesses [Event "S" 0 1; Event "L" 32 1; Event "S" 0 1])
                  (Model.empty 1))).
Proof.
  apply (main_replays_lru 5 1 1 2 4
           [Event "S" 0 1; Event "L" 32 1; Event "S" 0 1] 7);
    first [ reflexivity | lia | (unfold UNSET; lia) | (unfold INT_MAX; cbn; lia)
          | (cbn; lia) ].
Defined.

(** X13: in the summary of a run on [n] loads and stores, hits and misses
    add up to [n], and there are at most as many evictions as misses. *)
Theorem summary_counts_add_up fuel v s E b trace grants :
  0 ≤ s → 0 ≤ b → s + b < 64 → 1 ≤ E → E ≠ UNSET →
  valid_trace trace = true →
  Z.of_nat (length trace) ≤ INT_MAX →
  (2 * Z.to_nat E < fuel)%nat →
  (Z.to_nat (2 ^ s) + length trace + 2 ≤ grants)%nat →
  ∃ m st,
    main fuel v s E b true (Some trace) (boot grants) = Ok 0 m
    ∧ last (stdout m) = Some (Summary st)
    ∧ hits st + misses st = Z.of_nat (length trace)
    ∧ 0 ≤ evictions st ≤ misses st.
Proof.
  intros Hs Hb Hw HE1 HE Hvalid Hlen Hf Hg.
  destruct (main_run fuel v s E b trace grants) as (bs & k & g & Hmain & _);
    [by split|done..|].
  eexists _, _. split; [exact Hmain|]. cbn [stdout].
  split; [apply last_snoc|].
  rewrite counters_after_count. cbn [summary_of hits misses evictions hit miss eviction].
  rewrite !Z.add_0_l, count_hit_miss, run_length, accesses_length.
  split; [done|apply count_eviction_miss].
Qed.

Lemma summary_counts_add_up_witness :
  ∃ m st,
    main 5 0 1 2 4 true
      (Some [Event "S" 0 1; Event "L" 32 1; Event "S" 0 1]) (boot 7)
    = Ok 0 m
    ∧ last (stdout m) = Some (Summary st)
    ∧ hits st + misses st
      = Z.of_nat (length [Event "S" 0 1; Event "L" 32 1; Event "S" 0 1])
    ∧ 0 ≤ evictions st ≤ misses st.
Proof.
  apply (summary_counts_add_up 5 0 1 2 4
           [Event "S" 0 1; Event "L" 32 1; Event "S" 0 1] 7);
    first [ reflexivity | lia | (unfold UNSET; lia) | (unfold INT_MAX; cbn; lia)
          | (cbn; lia) ].
Defined.

(** X14: a run on a trace of loads and stores makes exactly
    [2^s + 2 + misses] allocations: the array, the [2^s] sets, one block
    for every miss (with or without eviction) and the summary record.  A
    hit allocates nothing. *)
Theorem main_allocation_count fuel v s E b trace budget :
  0 ≤ s → 0 ≤ b → s + b < 64 → 1 ≤ E → E ≠ UNSET →
  valid_trace trace = true →
  Z.of_nat (length trace) ≤ INT_MAX →
  (2 * Z.to_nat E < fuel)%nat →
  (Z.to_nat (2 ^ s) + length trace + 2 ≤ budget)%nat →
  ∃ m st,
    main fuel v s E b true (Some trace) (boot budget) = Ok 0 m
    ∧ last (stdout m) = Some (Summary st)
    ∧ Z.of_nat budget - Z.of_nat (grants_left m) = 2 ^ s + 2 + misses st.
Proof.
  intros Hs Hb Hw HE1 HE Hvalid Hlen Hf Hg.
  destruct (main_run fuel v s E b trace budget) as (bs & k & g & Hmain & _ & Hgr);
    [by split|done..|].
  eexists _, _. split; [exact Hmain|]. cbn [stdout].
  split; [apply last_snoc|].
  rewrite counters_after_count. cbn [summary_of misses miss grants_left grants].
  rewrite count_allocations.
  assert (0 < 2 ^ s) by (apply Z.pow_pos_nonneg; lia). lia.
Qed.

Lemma main_allocation_count_witness :
  ∃ m st,
    main 5 0 1 2 4 true
      (Some [Event "S" 0 1; Event "L" 32 1; Event "S" 0 1]) (boot 9)
    = Ok 0 m
    ∧ last (stdout m) = Some (Summary st)
    ∧ Z.of_nat 9 - Z.of_nat (grants_left m) = 2 ^ 1 + 2 + misses st.
Proof.
  apply (main_allocation_count 5 0 1 2 4
           [Event "S" 0 1; Event "L" 32 1; Event "S" 0 1] 9);
    first [ reflexivity | lia | (unfold UNSET; lia) | (unfold INT_MAX; cbn; lia)
          | (cbn; lia) ].
Defined.

(** X15: after a run on a trace of loads and stores with [E >= 2] nothing
    is left allocated: every block, every set, the array and the summary
    record have been freed. *)
Theorem valid_run_releases_memory fuel v s E b trace grants :
  0 ≤ s → 0 ≤ b → s + b < 64 → 2 ≤ E → E ≠ UNSET →
  valid_trace trace = true →
  Z.of_nat (length trace) ≤ INT_MAX →
  (2 * Z.to_nat E < fuel)%nat →
  (Z.to_nat (2 ^ s) + length trace + 2 ≤ grants)%nat →
  ∃ m,
    main fuel v s E b true (Some trace) (boot grants) = Ok 0 m
    ∧ blocks m = ∅ ∧ sets m = ∅ ∧ arrays m = ∅ ∧ records m = ∅.
Proof.
  intros Hs Hb Hw HE1 HE Hvalid Hlen Hf Hg.
  destruct (main_run fuel v s E b trace grants) as (bs & k & g & Hmain & Hbs & _);
    [split; lia|done..|].
  eexists. split; [exact Hmain|]. cbn [blocks sets arrays records].
  split_and!; [apply Hbs; lia|done..].
Qed.

Lemma valid_run_releases_memory_witness :
  ∃ m,
    main 5 0 1 2 4 true
      (Some [Event "S" 0 1; Event "L" 32 1; Event "S" 0 1]) (boot 7)
    = Ok 0 m
    ∧ blocks m = ∅ ∧ sets m = ∅ ∧ arrays m = ∅ ∧ records m = ∅.
Proof.
  apply (valid_run_releases_memory 5 0 1 2 4
           [Event "S" 0 1; Event "L" 32 1; Event "S" 0 1] 7);
    first [ reflexivity | lia | (unfold UNSET; lia) | (unfold INT_MAX; cbn; lia)
          | (cbn; lia) ].
Defined.

(** ** Verbose output *)

Lemma verbose_lines_silent trace os : verbose_lines 0 trace os = [].
Proof.
  revert os. induction trace as [|e trace IH]; intros [|o os]; try done.
  cbn. apply IH.
Qed.

Lemma verbose_lines_lookup v trace :
  v ≠ 0 →
  ∀ os i e o, trace !! i = Some e → os !! i = Some o →
  verbose_lines v trace os !! i
  = Some (VerboseLine (ev_operator e) (ev_address e) (ev_size e) (Model.label o)).
Proof.
  intros Hv. induction trace as [|e' trace IH]; intros [|o' os] i e o He Ho;
    try done.
  cbn [verbose_lines]. unfold verbose_line.
  rewrite (proj2 (Z.eqb_neq v 0)) by done. cbn [negb app].
  destruct i as [|i].
  - cbn in He, Ho. injection He as ->. injection Ho as ->. done.
  - cbn in He, Ho. cbn. by apply IH.
Qed.

Lemma verbose_lines_length v trace :
  v ≠ 0 → ∀ os, length os = length trace →
  length (verbose_lines v trace os) = length trace.
Proof.
  intros Hv. induction trace as [|e trace IH]; intros [|o os] Hlen; try done.
  cbn [verbose_lines]. unfold verbose_line.
  rewrite (proj2 (Z.eqb_neq v 0)) by done. cbn [negb app length].
  f_equal. apply IH. by injection Hlen.
Qed.

(** X16: without [-v] the summary is all that a run on a trace of loads
    and stores prints.  With [-v] the summary comes after one line for
    every event, in trace order, which repeats the operation, address and
    size of the event and ends in [hit], [miss] or [miss eviction]. *)
Theorem verbose_output_echoes_trace fuel v s E b trace grants :
  0 ≤ s → 0 ≤ b → s + b < 64 → 1 ≤ E → E ≠ UNSET →
  valid_trace trace = true →
  Z.of_nat (length trace) ≤ INT_MAX →
  (2 * Z.to_nat E < fuel)%nat →
  (Z.to_nat (2 ^ s) + length trace + 2 ≤ grants)%nat →
  ∃ m st,
    main fuel v s E b true (Some trace) (boot grants) = Ok 0 m
    ∧ last (stdout m) = Some (Summary st)
    ∧ (v = 0 → stdout m = [Summary st])
    ∧ (v ≠ 0 →
       length (stdout m) = S (length trace)
       ∧ ∀ i e, trace !! i = Some e →
           ∃ msg, stdout m !! i
                  = Some (VerboseLine (ev_operator e) (ev_address e) (ev_size e) msg)
                  ∧ msg ∈ ["hit"; "miss"; "miss eviction"]%string).
Proof.
  intros Hs Hb Hw HE1 HE Hvalid Hlen Hf Hg.
  destruct (main_run fuel v s E b trace grants) as (bs & k & g & Hmain & _);
    [by split|done..|].
  eexists _, _. split; [exact Hmain|]. cbn [stdout].
  split_and!.
  - apply last_snoc.
  - intros ->. by rewrite verbose_lines_silent.
  - intros Hv.
    assert (Hlos : length (snd (Model.run s E b (accesses trace) (Model.empty s)))
                   = length trace) by (by rewrite run_length, accesses_length).
    split.
    + rewrite length_app, verbose_lines_length by done. cbn. lia.
    + intros i e He.
      destruct (lookup_lt_is_Some_2
                  (snd (Model.run s E b (accesses trace) (Model.empty s))) i)
        as [o Ho].
      { rewrite Hlos. by eapply lookup_lt_Some. }
      exists (Model.label o). split.
      * rewrite lookup_app_l
          by (rewrite verbose_lines_length by done; by eapply lookup_lt_Some).
        by apply verbose_lines_lookup.
      * destruct o; cbn; set_solver.
Qed.

Lemma verbose_output_echoes_trace_witness :
  ∃ m st,
    main 5 1 1 2 4 true
      (Some [Event "S" 0 1; Event "L" 32 1; Event "S" 0 1]) (boot 7)
    = Ok 0 m
    ∧ last (stdout m) = Some (Summary st)
    ∧ (1 = 0 → stdout m = [Summary st])
    ∧ (1 ≠ 0 →
       length (stdout m)
       = S (length [Event "S" 0 1; Event "L" 32 1; Event "S" 0 1])
       ∧ ∀ i e, [Event "S" 0 1; Event "L" 32 1; Event "S" 0 1] !! i = Some e →
           ∃ msg, stdout m !! i
                  = Some (VerboseLine (ev_operator e) (ev_address e) (ev_size e) msg)
                  ∧ msg ∈ ["hit"; "miss"; "miss eviction"]%string).
Proof.
  apply (verbose_output_echoes_trace 5 1 1 2 4
           [Event "S" 0 1; Event "L" 32 1; Event "S" 0 1] 7);
    first [ reflexivity | lia | (unfold UNSET; lia) | (unfold INT_MAX; cbn; lia)
          | (cbn; lia) ].
Defined.

(** ** The lists between events *)

Lemma NoDup_fmap_inj_on {A B} (f : A → B) (l : list A) x y :
  NoDup (f <$> l) → x ∈ l → y ∈ l → f x = f y → x = y.
Proof.
  induction l as [|a l IH]; [by intros _ ?%elem_of_nil|].
  rewrite fmap_cons. intros [Ha Hnd]%NoDup_cons.
  intros [->|Hx]%elem_of_cons [->|Hy]%elem_of_cons Heq; [done|..].
  - exfalso. apply Ha. rewrite Heq. by apply list_elem_of_fmap_2.
  - exfalso. apply Ha. rewrite <- Heq. by apply list_elem_of_fmap_2.
  - by apply IH.
Qed.

(** X17: whenever [main] comes to an event, after any number of loads and
    stores, every set heads a [NULL]-terminated list of at most [E] blocks
    (whatever its [size] field says), and no two blocks of a list carry the
    same tag. *)
Theorem sets_stay_within_capacity fuel v s E b pre budget :
  0 ≤ s → 0 ≤ b → s + b < 64 → 1 ≤ E →
  valid_trace pre = true →
  Z.of_nat (length pre) < INT_MAX →
  (2 * Z.to_nat E < fuel)%nat →
  (Z.to_nat (2 ^ s) + length pre + 1 ≤ budget)%nat →
  ∃ c cache m,
    replay fuel v s E b pre (boot budget) = Ok (None, c, Some cache) m
    ∧ ∀ a st, sets m !! a = Some st →
        ∃ l, chain (blocks m) (s_head st) l
             ∧ Z.of_nat (length l) ≤ E
             ∧ ∀ x y bx by_, x ∈ l → y ∈ l →
                 blocks m !! x = Some bx → blocks m !! y = Some by_ →
                 b_tag bx = b_tag by_ → x = y.
Proof.
  intros Hs Hb Hw HE Hvalid Hlen Hf Hg.
  assert (Hgeo : geometry_ok s E b) by (split; lia).
  unfold replay. rewrite set_count_mod by lia.
  assert (∃ g0, budget = S (Z.to_nat (2 ^ s) + g0)) as [g0 ->].
  { exists (budget - Z.to_nat (2 ^ s) - 1)%nat. lia. }
  destruct (main_build_run E s g0) as (sps & ss & k & Hbuild & HS & Hinv); [lia..|].
  assert (Hc0 : counters_ok 0 (Counters 0 0 0 0)) by (unfold counters_ok; cbn; lia).
  assert (Hn0 : 0 + Z.of_nat (length pre) ≤ INT_MAX) by lia.
  assert (Hg0 : (length pre ≤ g0)%nat) by lia.
  destruct (main_loop_valid fuel v s E b 1%positive sps pre 0 (Counters 0 0 0 0)
              (replicate (length sps) []) ∅ ss {[1%positive := Some <$> sps]} ∅ k
              g0 [] Hinv Hgeo HS Hn0 Hf Hg0 Hc0 Hvalid)
    as (bs1 & ss1 & ls1 & k1 & g1 & Hfinal & Hloop & Hinv1 & Hc1 & Hg1).
  eexists _, _, _. split.
  - step_by (exact Hbuild). cbn [fst snd]. step_by (exact Hloop). reflexivity.
  - intros a st Ha. destruct Hinv1 as [_ _ Hdom Hlen1 Hsets _ _ _].
    cbn [sets blocks] in *.
    assert (Hin : a ∈ sps) by (apply Hdom; eauto).
    apply list_elem_of_lookup in Hin as [i Hi].
    destruct (lookup_lt_is_Some_2 ls1 i) as [l Hl].
    { rewrite Hlen1. by eapply lookup_lt_Some. }
    destruct (Hsets i a l Hi Hl) as (st' & Hst' & Hinv').
    rewrite Ha in Hst'. injection Hst' as <-.
    destruct Hinv' as [Hch _ _ _ Hbelow Hfull Htags].
    exists l. split_and!.
    + done.
    + destruct (decide (s_size st < E)); [rewrite Hbelow by done; lia|].
      rewrite Hfull; lia.
    + intros x y bx by_ Hx Hy Hbx Hby Heq.
      unfold view in Htags. rewrite <- list_fmap_compose in Htags.
      eapply NoDup_fmap_inj_on; [exact Htags|done..|].
      cbn. by rewrite (block_at_tag _ _ _ Hbx), (block_at_tag _ _ _ Hby).
Qed.

Lemma sets_stay_within_capacity_witness :
  ∃ c cache m,
    replay 5 0 1 2 4 [Event "S" 0 1; Event "L" 32 1; Event "S" 64 1] (boot 6)
    = Ok (None, c, Some cache) m
    ∧ ∀ a st, sets m !! a = Some st →
        ∃ l, chain (blocks m) (s_head st) l
             ∧ Z.of_nat (length l) ≤ 2
             ∧ ∀ x y bx by_, x ∈ l → y ∈ l →
                 blocks m !! x = Some bx → blocks m !! y = Some by_ →
                 b_tag bx = b_tag by_ → x = y.
Proof.
  apply (sets_stay_within_capacity 5 0 1 2 4
           [Event "S" 0 1; Event "L" 32 1; Event "S" 64 1] 6);
    first [ reflexivity | lia | (unfold INT_MAX; cbn; lia) | (cbn; lia) ].
Defined.

(** ** Two accesses to the same block *)

Lemma lookup_tag t l x r : Model.lookup t l = Some (x, r) → Model.tag x = t.
Proof.
  revert x r. induction l as [|y l IH]; intros x r; cbn; [done|].
  destruct (Z.eqb_spec (Model.tag y) t) as [Heq|_].
  - by intros [= <- <-].
  - destruct (Model.lookup t l) as [[x' r']|]; [|done].
    intros [= <- <-]. by eapply IH.
Qed.

Lemma access_again E st st' t l :
  snd (Model.access E st' t (fst (Model.access E st t l))) = Model.Hit.
Proof.
  assert (∃ d rest, fst (Model.access E st t l) = Model.Block t d :: rest)
    as (d & rest & ->).
  { unfold Model.access, Model.insert.
    destruct (Model.lookup t l) as [[x r]|] eqn:Hl.
    - rewrite (lookup_tag _ _ _ _ Hl). cbn. eauto.
    - destruct (Z.of_nat (length l) <? E); cbn; eauto. }
  unfold Model.access. cbn. by rewrite Z.eqb_refl.
Qed.

Lemma step_again s E b st st' A A' c :
  (Z.to_nat (Model.set_index s b A) < length c)%nat →
  Model.set_index s b A' = Model.set_index s b A →
  Model.tag_of s b A' = Model.tag_of s b A →
  snd (Model.step s E b st' A' (fst (Model.step s E b st A c))) = Model.Hit.
Proof.
  intros Hi Hset Htag. unfold Model.step. cbn [fst snd].
  rewrite Hset, Htag, list_lookup_insert_eq by done.
  apply access_again.
Qed.

Lemma step_cache_length s E b st A c :
  length (fst (Model.step s E b st A c)) = length c.
Proof. unfold Model.step. cbn [fst]. apply length_insert. Qed.

Lemma run_cache_length s E b trace :
  ∀ c, length (fst (Model.run s E b trace c)) = length c.
Proof.
  induction trace as [|[st A] trace IH]; intros c; [done|].
  cbn [Model.run fst]. by rewrite IH, step_cache_length.
Qed.

(** X18: an access to the block that the event before it accessed (the
    same set index and the same tag, as [main] computes them) is a hit,
    whatever came earlier in the trace and whichever of load and store the
    two operations are: in verbose mode its line ends in [hit]. *)
Theorem repeated_access_hits fuel v s E b pre e1 e2 post grants :
  0 ≤ s → 0 ≤ b → s + b < 64 → 1 ≤ E → E ≠ UNSET → v ≠ 0 →
  valid_trace (pre ++ e1 :: e2 :: post) = true →
  Z.of_nat (length (pre ++ e1 :: e2 :: post)) ≤ INT_MAX →
  (2 * Z.to_nat E < fuel)%nat →
  (Z.to_nat (2 ^ s) + length (pre ++ e1 :: e2 :: post) + 2 ≤ grants)%nat →
  which_set (ev_address e2) b (wrap_ulong (Z.shiftl 1 s))
  = which_set (ev_address e1) b (wrap_ulong (Z.shiftl 1 s)) →
  which_cache_line (ev_address e2) b s = which_cache_line (ev_address e1) b s →
  ∃ m,
    main fuel v s E b true (Some (pre ++ e1 :: e2 :: post)) (boot grants) = Ok 0 m
    ∧ stdout m !! S (length pre)
      = Some (VerboseLine (ev_operator e2) (ev_address e2) (ev_size e2) "hit").
Proof.
  intros Hs Hb Hw HE1 HE Hv Hvalid Hlen Hf Hg Hset Htag.
  rewrite set_count, !which_set_spec in Hset by lia.
  rewrite !which_cache_line_spec in Htag by lia.
  destruct (main_run fuel v s E b (pre ++ e1 :: e2 :: post) grants)
    as (bs & k & g & Hmain & _); [by split|done..|].
  eexists. split; [exact Hmain|]. cbn [stdout].
  set (trace := pre ++ e1 :: e2 :: post) in *.
  assert (He2 : trace !! S (length pre) = Some e2).
  { unfold trace. rewrite lookup_app_r by lia.
    by replace (S (length pre) - length pre)%nat with 1%nat by lia. }
  assert (Hlos : length (snd (Model.run s E b (accesses trace) (Model.empty s)))
                 = length trace) by (by rewrite run_length, accesses_length).
  rewrite lookup_app_l
    by (rewrite verbose_lines_length by done; by eapply lookup_lt_Some).
  assert (Ho : snd (Model.run s E b (accesses trace) (Model.empty s))
               !! S (length pre) = Some Model.Hit).
  { unfold trace, accesses. rewrite fmap_app, !fmap_cons.
    rewrite run_app. cbn [snd].
    rewrite lookup_app_r by (rewrite run_length, length_fmap; lia).
    rewrite run_length, length_fmap.
    replace (S (length pre) - length pre)%nat with 1%nat by lia.
    cbn [Model.run fst snd lookup list_lookup].
    f_equal. apply step_again; [|done..].
    rewrite run_cache_length. unfold Model.empty. rewrite length_replicate.
    pose proof (set_index_range (ev_address e1) s b Hs). lia. }
  by rewrite (verbose_lines_lookup v trace Hv _ _ _ _ He2 Ho).
Qed.

Lemma repeated_access_hits_witness :
  ∃ m,
    main 5 1 1 2 4 true
      (Some ([Event "L" 32 1] ++ Event "S" 0 1 :: Event "L" 8 4 :: [])) (boot 7)
    = Ok 0 m
    ∧ stdout m !! S (length [Event "L" 32 1])
      = Some (VerboseLine "L" 8 4 "hit").
Proof.
  apply (repeated_access_hits 5 1 1 2 4 [Event "L" 32 1] (Event "S" 0 1)
           (Event "L" 8 4) [] 7);
    first [ reflexivity | lia | (unfold UNSET; lia) | (unfold INT_MAX; cbn; lia)
          | (cbn; lia) ].
Defined.

(** ** The summary record *)

(** X19: the result of the [malloc] for the summary record is not tested
    either.  On a well-formed cache with no allocation left the summary
    code of [main] faults: [count_dirty] returns and leaves memory and
    output as they were, [malloc] returns [NULL] and leaves memory and
    output as they were, and the store through the [NULL] record pointer
    ([stats->hits = hit] is the first) faults. *)
Theorem summary_allocation_failure_faults fuel b m cache sps ls c :
  cache_lists fuel m cache sps ls → grants_left m = O →
  main_summary fuel b (Z.of_nat (length sps)) (Some cache) c m = Fault
  ∧ (∃ cd, count_dirty fuel (Some cache) (Z.of_nat (length sps)) m = Ok cd m)
  ∧ malloc_stats m = Ok None m
  ∧ (∀ st, store_stats None st m = Fault).
Proof.
  intros (Ha & Hlen & Hchains) Hg.
  assert (Hcount : count_dirty fuel (Some cache) (Z.of_nat (length sps)) m
                   = Ok (wrap_int (dirty_count (concat (view (blocks m) <$> ls)))) m).
  { unfold count_dirty. rewrite Nat2Z.id.
    pose proof (count_dirty_loop fuel m cache sps ls Ha Hlen Hchains (length sps) O 0
                  eq_refl eq_refl) as Hrun.
    rewrite drop_0 in Hrun. exact Hrun. }
  split_and!.
  - unfold main_summary. rewrite (bind_run _ _ _ _ _ Hcount).
    destruct m as [bs ss ar rc k g out]. cbn in Hg. subst g.
    reflexivity.
  - eauto.
  - destruct m as [bs ss ar rc k g out]. cbn in Hg. subst g. reflexivity.
  - intros st. reflexivity.
Qed.

Lemma summary_allocation_failure_faults_witness :
  main_summary 4 4 (Z.of_nat (length [2%positive])) (Some 1%positive)
    (Counters 1 2 0 0) three_block_set
  = Fault
  ∧ (∃ cd, count_dirty 4 (Some 1%positive) (Z.of_nat (length [2%positive]))
             three_block_set
           = Ok cd three_block_set)
  ∧ malloc_stats three_block_set = Ok None three_block_set
  ∧ (∀ st, store_stats None st three_block_set = Fault).
Proof.
  apply (summary_allocation_failure_faults 4 4 three_block_set 1 [2%positive]
           [[3%positive; 4%positive; 5%positive]] (Counters 1 2 0 0)).
  - exact three_block_lists.
  - reflexivity.
Defined.

(** ** Sets of one line *)

(** With [E = 1] a set holds at most one block.  The three ways an event
    can go, run on the heap; [K] is the rest of the loop body. *)
Lemma single_hit_run fuel bs ss ar rc k g out cache arr i sp st z bz line
    operator de :
  ar !! cache = Some arr → arr !! i = Some (Some sp) → ss !! sp = Some st →
  s_curr st = s_head st → s_head st = Some z → s_tail st = None →
  bs !! z = Some bz → b_next bz = None → b_tag bz = line →
  (2 < fuel)%nat →
  ∃ bs' st',
    (∀ T (K : Z → Z * Z * Z → M T),
       (found <- main_search fuel (Some cache) (Z.of_nat i) line operator ;;
        r <- (if found =? 0
              then main_insert fuel (Some cache) 1 (Z.of_nat i) line operator de
              else ret (0, 0, de)) ;;
        K found r) (State bs ss ar rc k g out)
       = K 1 (0, 0, de) (State bs' (<[sp := st']> ss) ar rc k g out))
    ∧ s_head st' = Some z
    ∧ (∀ a, is_Some (bs' !! a) ↔ is_Some (bs !! a)).
Proof.
  intros Har Hi Hs Hcur Hhead Htail Hz Hnext Htag Hf.
  destruct (main_search_hit fuel bs ss ar rc k g out cache arr i sp st z bz [] []
              line operator)
    as (bs' & tl' & Hrun & Hch & _ & _ & _ & Hframe); try done.
  { rewrite Hhead. split; [done|]. eauto. }
  { by left. }
  { by intros ? ? ?%elem_of_nil. }
  exists bs'. eexists. split_and!.
  - intros T K. step_by (exact Hrun). cbn [Z.eqb Pos.eqb]. by step.
  - reflexivity.
  - intros a. destruct (decide (a = z)) as [->|Hne].
    + destruct Hch as (_ & b' & -> & _). rewrite Hz. split; eauto.
    + rewrite Hframe; [done|]. cbn. by intros ?%list_elem_of_singleton.
Qed.

Lemma single_miss_run fuel bs ss ar rc k g out cache arr i sp st line operator de :
  ar !! cache = Some arr → arr !! i = Some (Some sp) → ss !! sp = Some st →
  s_head st = None → s_size st < 1 →
  (0 < fuel)%nat →
  ∃ bk st',
    (∀ T (K : Z → Z * Z * Z → M T),
       (found <- main_search fuel (Some cache) (Z.of_nat i) line operator ;;
        r <- (if found =? 0
              then main_insert fuel (Some cache) 1 (Z.of_nat i) line operator de
              else ret (0, 0, de)) ;;
        K found r) (State bs ss ar rc k (S g) out)
       = K 0 (1, 0, de)
           (State (<[k := bk]> bs) (<[sp := st']> ss) ar rc (Pos.succ k) g out))
    ∧ s_head st' = Some k.
Proof.
  intros Har Hi Hs Hhead Hsize Hf.
  eexists _, _. split.
  - intros T K.
    step_by (eapply main_search_miss with (l := []);
             [ exact Har | exact Hi | exact Hs | by rewrite Hhead
             | by intros ? ? ?%elem_of_nil | cbn; lia ]).
    cbn [Z.eqb]. unfold main_insert. do 2 step.
    rewrite (proj2 (Z.ltb_lt _ _)) by done.
    step_by (apply new_cache_block_run).
    step.
    step_by (eapply cache_set_insert_head_run; solve_lookup).
    step_by (eapply set_dirty_run; solve_lookup).
    reduce_state. step. reflexivity.
  - reflexivity.
Qed.

Lemma single_evict_run fuel bs ss ar rc k g out cache arr i sp st z bz line
    operator de :
  ar !! cache = Some arr → arr !! i = Some (Some sp) → ss !! sp = Some st →
  s_head st = Some z → 1 ≤ s_size st →
  bs !! z = Some bz → b_next bz = None → b_tag bz ≠ line → z ≠ k →
  (1 < fuel)%nat →
  ∃ bk st' de',
    (∀ T (K : Z → Z * Z * Z → M T),
       (found <- main_search fuel (Some cache) (Z.of_nat i) line operator ;;
        r <- (if found =? 0
              then main_insert fuel (Some cache) 1 (Z.of_nat i) line operator de
              else ret (0, 0, de)) ;;
        K found r) (State bs ss ar rc k (S g) out)
       = K 0 (0, 1, de')
           (State (<[k := bk]> bs) (<[sp := st']> ss) ar rc (Pos.succ k) g out))
    ∧ s_head st' = Some k.
Proof.
  intros Har Hi Hs Hhead Hsize Hz Hnext Htag Hzk Hf.
  assert (Hch : chain bs (s_head st) ([] ++ [z])).
  { rewrite Hhead. split; [done|]. eauto. }
  assert (Hmiss : main_search fuel (Some cache) (Z.of_nat i) line operator
                    (State bs ss ar rc k (S g) out)
                  = Ok 0 (State bs ss ar rc k (S g) out)).
  { eapply main_search_miss with (l := [z]);
      [ exact Har | exact Hi | exact Hs | exact Hch | | cbn; lia ].
    intros a b' ->%list_elem_of_singleton Hb'. rewrite Hz in Hb'.
    by injection Hb' as <-. }
  assert (Hch' : ∀ b', chain (<[k := b']> bs) (s_head st) ([] ++ [z])).
  { intros b'. apply lseg_insert_ne; [|done].
    cbn. by intros ->%list_elem_of_singleton. }
  assert (Hz' : ∀ b', <[k := b']> bs !! z = Some bz).
  { intros b'. by rewrite lookup_insert_ne. }
  destruct (Ascii.eqb operator "L") eqn:HL; [|destruct (Ascii.eqb operator "S") eqn:HS].
  - eexists _, _, _. split; [|shelve].
    intros T K. step_by (exact Hmiss). cbn [Z.eqb]. unfold main_insert. do 2 step.
    rewrite (proj2 (Z.ltb_ge _ _)) by done.
    step_by (apply new_cache_block_run).
    step.
    step_by (eapply dirty_tail_run; [solve_lookup | apply Hch' | apply Hz' | cbn; lia]).
    rewrite HL. step. step.
    step_by (eapply cache_set_remove_tail_single;
             [ solve_lookup | exact Hhead | by rewrite lookup_insert_ne | done ]).
    step.
    step_by (eapply cache_set_insert_head_run; solve_lookup).
    reduce_state. step. reflexivity.
  - eexists _, _, _. split; [|shelve].
    intros T K. step_by (exact Hmiss). cbn [Z.eqb]. unfold main_insert. do 2 step.
    rewrite (proj2 (Z.ltb_ge _ _)) by done.
    step_by (apply new_cache_block_run).
    step.
    step_by (eapply dirty_tail_run; [solve_lookup | apply Hch' | apply Hz' | cbn; lia]).
    rewrite HL, HS. step. step.
    step_by (eapply cache_set_remove_tail_single;
             [ solve_lookup | exact Hhead | by rewrite lookup_insert_ne | done ]).
    step.
    step_by (eapply cache_set_insert_head_run; solve_lookup).
    reduce_state. step. reflexivity.
  - eexists _, _, _. split; [|shelve].
    intros T K. step_by (exact Hmiss). cbn [Z.eqb]. unfold main_insert. do 2 step.
    rewrite (proj2 (Z.ltb_ge _ _)) by done.
    step_by (apply new_cache_block_run).
    step.
    step_by (eapply dirty_tail_run; [solve_lookup | apply Hch' | apply Hz' | cbn; lia]).
    rewrite HL, HS. step. step.
    step_by (eapply cache_set_remove_tail_single;
             [ solve_lookup | exact Hhead | by rewrite lookup_insert_ne | done ]).
    step.
    step_by (eapply cache_set_insert_head_run; solve_lookup).
    reduce_state. step. reflexivity.
  Unshelve. all: reflexivity.
Qed.

Lemma is_head_insert sps ss sp st' a :
  sp ∈ sps →
  is_head sps (<[sp := st']> ss) a
  ↔ s_head st' = Some a
    ∨ ∃ sp2 st2, sp2 ≠ sp ∧ sp2 ∈ sps ∧ ss !! sp2 = Some st2 ∧ s_head st2 = Some a.
Proof.
  intros Hsp. split.
  - intros (sp2 & st2 & Hin & Hst2 & Hh).
    destruct (decide (sp2 = sp)) as [->|Hne].
    + rewrite lookup_insert_eq in Hst2. injection Hst2 as <-. by left.
    + rewrite lookup_insert_ne in Hst2 by done. right. eauto 10.
  - intros [Hh|(sp2 & st2 & Hne & Hin & Hst2 & Hh)].
    + exists sp, st'. by rewrite lookup_insert_eq.
    + exists sp2, st2. by rewrite lookup_insert_ne.
Qed.

(** In a cache of one-line sets every set is empty or holds one block, and
    no block is the head of two sets. *)
Lemma single_set_shape n cache sps ls m i sp :
  cache_inv 1 n cache sps ls m → sps !! i = Some sp →
  ∃ st l, sets m !! sp = Some st ∧ ls !! i = Some l ∧ set_inv 1 n (blocks m) st l
    ∧ ((l = [] ∧ s_head st = None ∧ s_size st < 1)
       ∨ ∃ z bz, l = [z] ∧ s_head st = Some z ∧ blocks m !! z = Some bz
                 ∧ b_next bz = None ∧ 1 ≤ s_size st ∧ s_tail st = None).
Proof.
  intros [Harr Hnd Hdom Hlen Hsets Hdisj Hfresh Hleak] Hsp.
  destruct (lookup_lt_is_Some_2 ls i) as [l Hl].
  { rewrite Hlen. by eapply lookup_lt_Some. }
  destruct (Hsets i sp l Hsp Hl) as (st & Hst & Hinv).
  exists st, l. split_and!; [done..|].
  destruct Hinv as [Hch Hcur Htl Hrange Hbelow Hfull Htags].
  assert (Hone : (length l ≤ 1)%nat).
  { destruct (decide (s_size st < 1)) as [Hlt|]; [specialize (Hbelow Hlt); lia|].
    assert (Z.of_nat (length l) = 1) by (apply Hfull; lia). lia. }
  destruct l as [|z [|z' l]]; [left|right|cbn in Hone; lia].
  - cbn in Hch. split_and!; [done..|].
    destruct (decide (s_size st < 1)); [done|].
    assert (Z.of_nat (length ([] : list loc)) = 1) by (apply Hfull; lia). done.
  - destruct Hch as (Hh & bz & Hbz & Hnext). cbn in Hnext.
    exists z, bz. split_and!; [done..| |].
    + destruct (decide (s_size st < 1)) as [Hlt|]; [|lia].
      specialize (Hbelow Hlt). cbn in Hbelow. lia.
    + destruct Htl as [?|[Hlen2 _]]; [done|]. cbn in Hlen2. lia.
Qed.

Lemma single_head_linked n cache sps ls m a :
  cache_inv 1 n cache sps ls m →
  is_head sps (sets m) a ↔ a ∈ linked ls.
Proof.
  intros Hinv. pose proof Hinv as [Harr Hnd Hdom Hlen Hsets Hdisj Hfresh Hleak].
  unfold linked. rewrite list_elem_of_In, in_concat. split.
  - intros (sp & st & [i Hi]%list_elem_of_lookup & Hst & Hh).
    destruct (single_set_shape _ _ _ _ _ _ _ Hinv Hi)
      as (st' & l & Hst' & Hl & _ & [(-> & Hnone & _)|(z & bz & -> & Hz & _)]);
      rewrite Hst in Hst'; injection Hst' as <-; [congruence|].
    exists [z]. split.
    + apply list_elem_of_In. by eapply list_elem_of_lookup_2.
    + rewrite Hh in Hz. injection Hz as ->. by left.
  - intros (l & [i Hl]%list_elem_of_In%list_elem_of_lookup & Ha%list_elem_of_In).
    destruct (lookup_lt_is_Some_2 sps i) as [sp Hsp].
    { rewrite <- Hlen. by eapply lookup_lt_Some. }
    destruct (single_set_shape _ _ _ _ _ _ _ Hinv Hsp)
      as (st & l' & Hst & Hl' & _ & [(-> & _)|(z & bz & -> & Hz & _)]);
      rewrite Hl in Hl'; injection Hl' as ->; [by apply elem_of_nil in Ha|].
    apply list_elem_of_singleton in Ha as ->.
    exists sp, st. split_and!; [by eapply list_elem_of_lookup_2|done..].
Qed.

Lemma single_head_unique n cache sps ls m i sp st z sp2 st2 :
  cache_inv 1 n cache sps ls m →
  sps !! i = Some sp → sets m !! sp = Some st → s_head st = Some z →
  sp2 ∈ sps → sets m !! sp2 = Some st2 → s_head st2 = Some z → sp2 = sp.
Proof.
  intros Hinv Hsp Hst Hh [j Hj]%list_elem_of_lookup Hst2 Hh2.
  pose proof Hinv as [Harr Hnd Hdom Hlen Hsets Hdisj Hfresh Hleak].
  destruct (single_set_shape _ _ _ _ _ _ _ Hinv Hsp)
    as (st' & l & Hst' & Hl & _ & [(_ & Hnone & _)|(z1 & _ & -> & Hz1 & _)]);
    rewrite Hst in Hst'; injection Hst' as <-; [congruence|].
  destruct (single_set_shape _ _ _ _ _ _ _ Hinv Hj)
    as (st' & l2 & Hst' & Hl2 & _ & [(_ & Hnone & _)|(z2 & _ & -> & Hz2 & _)]);
    rewrite Hst2 in Hst'; injection Hst' as <-; [congruence|].
  rewrite Hh in Hz1. injection Hz1 as <-. rewrite Hh2 in Hz2. injection Hz2 as <-.
  assert (j = i) as ->.
  { eapply Hdisj; [exact Hl2|exact Hl|..]; by apply list_elem_of_singleton. }
  rewrite Hsp in Hj. by injection Hj.
Qed.

Lemma leaked_hit sps ss bs L sp st st' bs' :
  leaked sps ss bs L →
  sp ∈ sps → ss !! sp = Some st → s_head st' = s_head st →
  (∀ a, is_Some (bs' !! a) ↔ is_Some (bs !! a)) →
  leaked sps (<[sp := st']> ss) bs' L.
Proof.
  intros [Hnd Hdom Hapart] Hsp Hst Hh Hsame.
  assert (Hheads : ∀ a, is_head sps (<[sp := st']> ss) a ↔ is_head sps ss a).
  { intros a. rewrite is_head_insert by done. split.
    - intros [Ha|(sp2 & st2 & _ & Hin & Hst2 & Ha)].
      + exists sp, st. by rewrite <- Hh.
      + by exists sp2, st2.
    - intros (sp2 & st2 & Hin & Hst2 & Ha).
      destruct (decide (sp2 = sp)) as [->|Hne].
      + left. rewrite Hst in Hst2. injection Hst2 as <-. by rewrite Hh.
      + right. eauto 10. }
  split; [done|..].
  - intros a. by rewrite Hsame, Hheads.
  - intros a Ha. rewrite Hheads. by apply Hapart.
Qed.

Lemma leaked_miss sps ss bs L sp st st' k bk :
  leaked sps ss bs L →
  (∀ a, is_Some (bs !! a) → (a < k)%positive) →
  sp ∈ sps → ss !! sp = Some st → s_head st = None → s_head st' = Some k →
  leaked sps (<[sp := st']> ss) (<[k := bk]> bs) L.
Proof.
  intros [Hnd Hdom Hapart] Hfresh Hsp Hst Hnone Hh.
  assert (Hheads : ∀ a, is_head sps (<[sp := st']> ss) a ↔ a = k ∨ is_head sps ss a).
  { intros a. rewrite is_head_insert by done. split.
    - intros [Ha|(sp2 & st2 & _ & Hin & Hst2 & Ha)].
      + left. congruence.
      + right. by exists sp2, st2.
    - intros [->|(sp2 & st2 & Hin & Hst2 & Ha)]; [by left|].
      destruct (decide (sp2 = sp)) as [->|Hne].
      + rewrite Hst in Hst2. injection Hst2 as <-. congruence.
      + right. eauto 10. }
  assert (HkL : ∀ a, a ∈ L → a ≠ k).
  { intros a Ha ->. assert (is_Some (bs !! k)) as Hk by (apply Hdom; by right).
    apply Hfresh in Hk. lia. }
  split; [done|..].
  - intros a. rewrite Hheads. destruct (decide (a = k)) as [->|Hne].
    + rewrite lookup_insert_eq. split; eauto.
    + rewrite lookup_insert_ne, Hdom by done. tauto.
  - intros a Ha. rewrite Hheads. intros [->|Hhd].
    + by eapply HkL.
    + by eapply Hapart.
Qed.

Lemma leaked_evict sps ss bs L sp st st' k bk z :
  leaked sps ss bs L →
  (∀ a, is_Some (bs !! a) → (a < k)%positive) →
  sp ∈ sps → ss !! sp = Some st → s_head st = Some z → s_head st' = Some k →
  (∀ sp2 st2, sp2 ∈ sps → ss !! sp2 = Some st2 → s_head st2 = Some z → sp2 = sp) →
  leaked sps (<[sp := st']> ss) (<[k := bk]> bs) (z :: L).
Proof.
  intros [Hnd Hdom Hapart] Hfresh Hsp Hst Hz Hh Huniq.
  assert (Hzhead : is_head sps ss z) by (by exists sp, st).
  assert (Hzk : z ≠ k).
  { intros ->. assert (is_Some (bs !! k)) as Hk by (apply Hdom; by left).
    apply Hfresh in Hk. lia. }
  assert (Hheads : ∀ a, is_head sps (<[sp := st']> ss) a
                        ↔ a = k ∨ (is_head sps ss a ∧ a ≠ z)).
  { intros a. rewrite is_head_insert by done. split.
    - intros [Ha|(sp2 & st2 & Hne & Hin & Hst2 & Ha)].
      + left. congruence.
      + right. split; [by exists sp2, st2|]. intros ->. by eapply Hne, Huniq.
    - intros [->|[(sp2 & st2 & Hin & Hst2 & Ha) Hne]]; [by left|].
      destruct (decide (sp2 = sp)) as [->|Hne2].
      + rewrite Hst in Hst2. injection Hst2 as <-. congruence.
      + right. eauto 10. }
  assert (HkL : ∀ a, a ∈ L → a ≠ k).
  { intros a Ha ->. assert (is_Some (bs !! k)) as Hk by (apply Hdom; by right).
    apply Hfresh in Hk. lia. }
  split.
  - apply NoDup_cons. split; [|done]. intros Hin. by eapply Hapart.
  - intros a. rewrite Hheads, elem_of_cons. destruct (decide (a = k)) as [->|Hne].
    + rewrite lookup_insert_eq. split; eauto.
    + rewrite lookup_insert_ne, Hdom by done.
      destruct (decide (a = z)) as [->|Hnz]; tauto.
  - intros a [->|Ha]%elem_of_cons; rewrite Hheads.
    + intros [?|[_ ?]]; done.
    + intros [->|[Hhd _]]; [by eapply HkL|by eapply Hapart].
Qed.

(** After the release of the sets, the blocks left in a cache of one-line
    sets are the unlinked ones. *)
Lemma leaked_after_release n cache sps ls m L a :
  cache_inv 1 n cache sps ls m → leaked sps (sets m) (blocks m) L →
  is_Some (drop_keys (linked ls) (blocks m) !! a) ↔ a ∈ L.
Proof.
  intros Hinv [Hnd Hdom Hapart]. rewrite lookup_drop_keys.
  pose proof (single_head_linked _ _ _ _ _ a Hinv) as Hhl.
  destruct (decide (a ∈ linked ls)) as [Hin|Hnin].
  - split; [by intros [? ?]|]. intros HaL. exfalso.
    apply (Hapart a HaL). by apply Hhl.
  - rewrite Hdom. split; [|by right].
    intros [Hh|?]; [|done]. exfalso. by apply Hnin, Hhl.
Qed.

(** The search and the insertion of one access on a cache of one-line
    sets, for any operation character: what [cache_access] says, and the
    blocks that stay allocated without being linked. *)
Lemma cache_access_single fuel s b n cache sps ls bs ss ar rc k g out A operator
    de L :
  cache_inv 1 n cache sps ls (State bs ss ar rc k (S g) out) →
  geometry_ok s 1 b → Z.of_nat (length sps) = 2 ^ s →
  n < INT_MAX → (2 < fuel)%nat →
  leaked sps ss bs L →
  ∃ o bs' ss' ls' k' L',
    Model.step s 1 b (is_store operator) A (view bs <$> ls)
    = (view bs' <$> ls', o)
    ∧ (∀ T (K : Z → Z * Z * Z → M T),
         (found <- main_search fuel (Some cache) (which_set A b (2 ^ s))
                     (which_cache_line A b s) operator ;;
          r <- (if found =? 0
                then main_insert fuel (Some cache) 1 (which_set A b (2 ^ s))
                       (which_cache_line A b s) operator de
                else ret (0, 0, de)) ;;
          K found r) (State bs ss ar rc k (S g) out)
         = K (fst (flags_of o de)) (snd (flags_of o de))
             (State bs' ss' ar rc k' (if Model.is_miss o then g else S g) out))
    ∧ cache_inv 1 (n + 1) cache sps ls'
        (State bs' ss' ar rc k' (if Model.is_miss o then g else S g) out)
    ∧ leaked sps ss' bs' L'
    ∧ Z.of_nat (length L') = Z.of_nat (length L) + b2z (Model.is_eviction o).
Proof.
  intros Hinv Hgeo HS Hn Hf Hleak.
  destruct (cache_access fuel s 1 b n cache sps ls bs ss ar rc k g out
              A operator de)
    as (o & bs' & ss' & ls' & k' & Hstep & Hrun & Hinv'); try done;
    try (cbn; lia).
  pose proof Hgeo as [Hs Hb Hw _].
  pose proof Hinv as [Harr Hnd Hdom Hlen Hsets Hdisj Hfresh Hnoleak].
  cbn [arrays records sets blocks brk] in *.
  pose proof (Hrun _ (fun f r => ret (f, r))) as Hrun1.
  rewrite which_set_spec, which_cache_line_spec in Hrun1 by lia.
  pose proof (set_index_range A s b Hs) as Hidx.
  set (i := Z.to_nat (Model.set_index s b A)) in *.
  assert (Hi : (i < length sps)%nat) by (unfold i; lia).
  destruct (lookup_lt_is_Some_2 sps i Hi) as [sp Hsp].
  replace (Model.set_index s b A) with (Z.of_nat i) in Hrun1
    by (unfold i; lia).
  assert (Ha : ar !! cache = Some (Some <$> sps)).
  { rewrite Harr. apply lookup_singleton_eq. }
  assert (Hai : (Some <$> sps) !! i = Some (Some sp)).
  { by rewrite list_lookup_fmap, Hsp. }
  assert (Hin : sp ∈ sps) by (by eapply list_elem_of_lookup_2).
  destruct (single_set_shape _ _ _ _ _ _ _ Hinv Hsp)
    as (st & l & Hst & Hl & Hsinv
        & [(-> & Hnone & Hsize)|(z & bz & -> & Hz & Hbz & Hnext & Hsize & Htail)]);
    cbn [sets blocks] in *.
  - destruct (single_miss_run fuel bs ss ar rc k g out cache (Some <$> sps) i sp st
                (Model.tag_of s b A) operator de)
      as (bk & st' & Hmine & Hh); try done; [lia|].
    rewrite Hmine in Hrun1. unfold ret in Hrun1.
    injection Hrun1 as Hf1 Hf2 <- <- <- Hg.
    exists o, (<[k := bk]> bs), (<[sp := st']> ss), ls', (Pos.succ k), L.
    split_and!; [done|done|done|by eapply leaked_miss|].
    destruct o; cbn in Hf1, Hf2 |- *; try done; lia.
  - destruct (decide (b_tag bz = Model.tag_of s b A)) as [Htag|Htag].
    + destruct (single_hit_run fuel bs ss ar rc k (S g) out cache (Some <$> sps) i
                  sp st z bz (Model.tag_of s b A) operator de)
        as (bs1 & st' & Hmine & Hh & Hsame); try done; [by destruct Hsinv|].
      rewrite Hmine in Hrun1. unfold ret in Hrun1.
      injection Hrun1 as Hf1 Hf2 <- <- <- Hg.
      exists o, bs1, (<[sp := st']> ss), ls', k, L.
      split_and!; [done|done|done| |].
      * eapply leaked_hit; [done..|by rewrite Hh|done].
      * destruct o; cbn in Hf1, Hf2 |- *; try done; lia.
    + destruct (single_evict_run fuel bs ss ar rc k g out cache (Some <$> sps) i sp
                  st z bz (Model.tag_of s b A) operator de)
        as (bk & st' & de' & Hmine & Hh); try done; [|lia|].
      { intros ->. assert (is_Some (bs !! k)) as Hk by eauto.
        apply Hfresh in Hk. lia. }
      rewrite Hmine in Hrun1. unfold ret in Hrun1.
      injection Hrun1 as Hf1 Hf2 <- <- <- Hg.
      exists o, (<[k := bk]> bs), (<[sp := st']> ss), ls', (Pos.succ k), (z :: L).
      split_and!; [done|done|done| |].
      * eapply leaked_evict; [done..|].
        intros sp2 st2 Hin2 Hst2 Hh2.
        by eapply (single_head_unique _ _ _ _ _ _ _ _ _ _ _ Hinv Hsp).
      * destruct o; cbn in Hf1, Hf2 |- *; try done. cbn [length]. lia.
Qed.

(** One event on a cache of one-line sets: what [main_event_valid] says,
    and the blocks that stay allocated without being linked. *)
Lemma main_event_single fuel v s b n cache sps ls bs ss ar rc k g out e c L :
  cache_inv 1 n cache sps ls (State bs ss ar rc k (S g) out) →
  geometry_ok s 1 b → Z.of_nat (length sps) = 2 ^ s →
  n < INT_MAX → (2 < fuel)%nat →
  counters_ok n c →
  valid_operator (ev_operator e) = true →
  leaked sps ss bs L →
  ∃ o bs' ss' ls' k' L',
    Model.step s 1 b (is_store (ev_operator e)) (ev_address e) (view bs <$> ls)
    = (view bs' <$> ls', o)
    ∧ main_event fuel v s 1 b (2 ^ s) (Some cache) e c
        (State bs ss ar rc k (S g) out)
      = Ok (None, count_step c o)
           (State bs' ss' ar rc k' (if Model.is_miss o then g else S g)
                  (out ++ verbose_line v e o))
    ∧ cache_inv 1 (n + 1) cache sps ls'
        (State bs' ss' ar rc k' (if Model.is_miss o then g else S g)
               (out ++ verbose_line v e o))
    ∧ leaked sps ss' bs' L'
    ∧ Z.of_nat (length L') = Z.of_nat (length L) + b2z (Model.is_eviction o).
Proof.
  intros Hinv Hgeo HS Hn Hf Hc Hop Hleak.
  destruct (cache_access_single fuel s b n cache sps ls bs ss ar rc k g out
              (ev_address e) (ev_operator e) (dirty_eviction c) L)
    as (o & bs' & ss' & ls' & k' & L' & Hstep & Hrun & Hinv' & Hleak' & Hlen');
    try done.
  exists o, bs', ss', ls', k', L'.
  split_and!; [done| |by eapply cache_inv_ext|done|done].
  unfold main_event. cbv zeta. rewrite Hrun.
  erewrite main_outcome_valid by done. cbn [fst snd Z.eqb negb].
  unfold verbose_line. destruct (negb (v =? 0)).
  - unfold bind, printf, ret. cbn. done.
  - unfold bind, ret. cbn. by rewrite app_nil_r.
Qed.


Lemma count_cons f o os :
  Model.count f (o :: os) = b2z (f o) + Model.count f os.
Proof.
  unfold Model.count. rewrite filter_cons. destruct (f o); cbn [b2z].
  - rewrite decide_True by done. cbn [length]. lia.
  - rewrite decide_False by done. lia.
Qed.

(** A trace of loads and stores on a cache of one-line sets: what
    [main_loop_valid] says, and the blocks that stay allocated without
    being linked, one for every eviction. *)
Lemma main_loop_single fuel v s b cache sps trace :
  ∀ n c ls bs ss ar rc k g out L,
  cache_inv 1 n cache sps ls (State bs ss ar rc k g out) →
  geometry_ok s 1 b → Z.of_nat (length sps) = 2 ^ s →
  n + Z.of_nat (length trace) ≤ INT_MAX → (2 < fuel)%nat →
  (length trace ≤ g)%nat →
  counters_ok n c →
  valid_trace trace = true →
  leaked sps ss bs L →
  ∃ bs' ss' ls' k' g' L',
    fst (Model.run s 1 b (accesses trace) (view bs <$> ls)) = view bs' <$> ls'
    ∧ main_loop fuel v s 1 b (2 ^ s) (Some cache) trace c
        (State bs ss ar rc k g out)
      = Ok (None, counters_after c
                    (snd (Model.run s 1 b (accesses trace) (view bs <$> ls))))
           (State bs' ss' ar rc k' g'
              (out ++ verbose_lines v trace
                        (snd (Model.run s 1 b (accesses trace) (view bs <$> ls)))))
    ∧ cache_inv 1 (n + Z.of_nat (length trace)) cache sps ls'
        (State bs' ss' ar rc k' g'
           (out ++ verbose_lines v trace
                     (snd (Model.run s 1 b (accesses trace) (view bs <$> ls)))))
    ∧ leaked sps ss' bs' L'
    ∧ Z.of_nat (length L')
      = Z.of_nat (length L)
        + Model.count Model.is_eviction
            (snd (Model.run s 1 b (accesses trace) (view bs <$> ls)))
    ∧ (g = g' + allocations
                  (snd (Model.run s 1 b (accesses trace) (view bs <$> ls))))%nat.
Proof.
  induction trace as [|e trace IH]; intros n c ls bs ss ar rc k g out L
    Hinv Hgeo HS Hn Hf Hg Hc Hvalid Hleak.
  - exists bs, ss, ls, k, g, L. cbn. rewrite app_nil_r, Z.add_0_r.
    split_and!; try done. unfold Model.count. cbn. lia.
  - cbn in Hvalid. apply andb_true_iff in Hvalid as (Hop & Hvalid).
    cbn [length] in Hn, Hg. destruct g as [|g]; [lia|].
    destruct (main_event_single fuel v s b n cache sps ls bs ss ar rc k g out e c L)
      as (o & bs1 & ss1 & ls1 & k1 & L1 & Hstep & Hrun & Hinv1 & Hleak1 & Hlen1);
      try done; [lia|].
    set (g1 := if Model.is_miss o then g else S g) in *.
    destruct (IH (n + 1) (count_step c o) ls1 bs1 ss1 ar rc k1 g1
                (out ++ verbose_line v e o) L1)
      as (bs' & ss' & ls' & k' & g' & L' & Hfinal & Hloop & Hinv' & Hleak'
          & Hlen' & Hg');
      try done; [lia | subst g1; destruct (Model.is_miss o); lia
                | by apply count_step_ok |].
    exists bs', ss', ls', k', g', L'.
    cbn [accesses fmap list_fmap Model.run]. fold (accesses trace).
    rewrite Hstep. cbn [fst snd counters_after foldl verbose_lines].
    fold (counters_after (count_step c o)).
    rewrite app_assoc. cbn [length].
    replace (n + Z.of_nat (S (length trace))) with (n + 1 + Z.of_nat (length trace))
      by lia.
    split_and!; try done.
    + cbn [main_loop]. step_by (exact Hrun). cbn [fst snd]. exact Hloop.
    + rewrite count_cons. lia.
    + rewrite allocations_cons. subst g1. destruct (Model.is_miss o); lia.
Qed.

Lemma linked_empty (n : nat) a : a ∉ linked (replicate n ([] : list loc)).
Proof.
  unfold linked. rewrite list_elem_of_In, in_concat.
  intros (l & [-> _]%list_elem_of_In%elem_of_replicate & Ha). done.
Qed.

(** The cache [main] has built holds no block, linked or not. *)
Lemma leaked_empty n cache sps ss ar rc k g out :
  cache_inv 1 n cache sps (replicate (length sps) [])
    (State ∅ ss ar rc k g out) →
  leaked sps ss ∅ [].
Proof.
  intros Hinv. split; [constructor|..].
  - intros a. rewrite lookup_empty. split.
    + by intros [? ?].
    + intros [Hh|?%elem_of_nil]; [|done].
      apply (single_head_linked _ _ _ _ _ _ Hinv) in Hh.
      by apply linked_empty in Hh.
  - by intros a ?%elem_of_nil.
Qed.

(** X20: with [E = 1] every eviction leaks its victim, because
    [cache_set_remove_tail] does not free the only block of a list.  After
    a run on a trace of loads and stores the sets, the array and the
    summary record are gone, and the blocks still allocated are exactly the
    evicted ones: as many as the summary reports evictions. *)
Theorem one_line_sets_leak_evicted_blocks fuel v s b trace budget :
  0 ≤ s → 0 ≤ b → s + b < 64 →
  valid_trace trace = true →
  Z.of_nat (length trace) ≤ INT_MAX →
  (2 < fuel)%nat →
  (Z.to_nat (2 ^ s) + length trace + 2 ≤ budget)%nat →
  ∃ m st L,
    main fuel v s 1 b true (Some trace) (boot budget) = Ok 0 m
    ∧ last (stdout m) = Some (Summary st)
    ∧ NoDup L
    ∧ Z.of_nat (length L) = evictions st
    ∧ ∀ a, is_Some (blocks m !! a) ↔ a ∈ L.
Proof.
  intros Hs Hb Hw Hvalid Hlen Hf Hg.
  assert (Hgeo : geometry_ok s 1 b) by (split; lia).
  rewrite main_args_ok by (unfold UNSET; lia).
  assert (∃ g0, budget = S (Z.to_nat (2 ^ s) + g0)) as [g0 ->].
  { exists (budget - Z.to_nat (2 ^ s) - 1)%nat. lia. }
  destruct (main_build_run 1 s g0) as (sps & ss & k & Hbuild & HS & Hinv); [lia..|].
  step_by (exact Hbuild). cbn [fst snd].
  assert (Hc0 : counters_ok 0 (Counters 0 0 0 0)) by (unfold counters_ok; cbn; lia).
  pose proof (leaked_empty _ _ _ _ _ _ _ _ _ Hinv) as Hleak0.
  destruct (main_loop_single fuel v s b 1%positive sps trace 0 (Counters 0 0 0 0)
              (replicate (length sps) []) ∅ ss {[1%positive := Some <$> sps]} ∅ k
              g0 [] [])
    as (bs' & ss' & ls' & k' & g' & L' & Hfinal & Hloop & Hinv' & Hleak'
        & Hlen' & Hg'); try done; [lia..|].
  step_by (exact Hloop). cbn [fst snd].
  pose proof (allocations_le
                (snd (Model.run s 1 b (accesses trace)
                        (view ∅ <$> replicate (length sps) [])))) as Hal.
  rewrite run_length, accesses_length in Hal.
  destruct g' as [|g']; [lia|].
  rewrite <- HS.
  erewrite main_summary_run; [ | exact Hinv' | done | cbn; lia ].
  eexists _, _, L'. split; [reflexivity|]. cbn [stdout blocks].
  split_and!.
  - apply last_snoc.
  - by destruct Hleak'.
  - cbn [summary_of evictions]. rewrite counters_after_count.
    cbn [eviction length] in Hlen' |- *. lia.
  - intros a. by eapply (leaked_after_release _ _ _ _ _ _ _ Hinv').
Qed.

Lemma one_line_sets_leak_evicted_blocks_witness :
  ∃ m st L,
    main 3 0 0 1 0 true (Some [Event "L" 0 1; Event "L" 1 1; Event "L" 0 1])
      (boot 6)
    = Ok 0 m
    ∧ last (stdout m) = Some (Summary st)
    ∧ NoDup L
    ∧ Z.of_nat (length L) = evictions st
    ∧ ∀ a, is_Some (blocks m !! a) ↔ a ∈ L.
Proof.
  apply (one_line_sets_leak_evicted_blocks 3 0 0 0
           [Event "L" 0 1; Event "L" 1 1; Event "L" 0 1] 6);
    first [ reflexivity | lia | (unfold INT_MAX; cbn; lia) | (cbn; lia) ].
Defined.

(** ** An invalid operation character, once more *)





(** ** A block that was not accessed before *)

Lemma lookup_None_tags t l :
  Model.lookup t l = None ↔ t ∉ Model.tag <$> l.
Proof.
  induction l as [|y l IH]; cbn.
  - split; [by intros _ ?%elem_of_nil|done].
  - rewrite not_elem_of_cons. destruct (Z.eqb_spec (Model.tag y) t) as [Heq|Hne].
    + split; [done|]. by intros [? _].
    + destruct (Model.lookup t l) as [[x r]|].
      * split; [done|]. intros [_ Hin]. by apply IH in Hin.
      * split; [|done]. intros _. split; [done|]. by apply IH.
Qed.

Lemma lookup_rest t l x r y :
  Model.lookup t l = Some (x, r) → y ∈ r → y ∈ l.
Proof.
  revert x r. induction l as [|z l IH]; intros x r; cbn; [done|].
  destruct (Model.tag z =? t).
  - intros [= <- <-] Hy. by right.
  - destruct (Model.lookup t l) as [[x' r']|]; [|done].
    intros [= <- <-] [->|Hy]%elem_of_cons; [by left|].
    right. by eapply IH.
Qed.

Lemma access_members E st t l y :
  y ∈ fst (Model.access E st t l) → Model.tag y = t ∨ y ∈ l.
Proof.
  unfold Model.access, Model.insert.
  destruct (Model.lookup t l) as [[x r]|] eqn:Hl.
  - cbn. intros [->|Hy]%elem_of_cons.
    + left. cbn. by eapply lookup_tag.
    + right. by eapply lookup_rest.
  - destruct (Z.of_nat (length l) <? E); cbn.
    + intros [->|Hy]%elem_of_cons; [by left|by right].
    + intros [->|Hy]%elem_of_cons; [by left|]. right.
      destruct l as [|z l _] using rev_ind; [done|].
      rewrite removelast_last in Hy. apply elem_of_app. by left.
Qed.

Lemma run_members s E b trace :
  ∀ c i l x,
  fst (Model.run s E b trace c) !! i = Some l → x ∈ l →
  touched s b trace i (Model.tag x) ∨ ∃ l0, c !! i = Some l0 ∧ x ∈ l0.
Proof.
  induction trace as [|[st A] trace IH]; intros c i l x Hl Hx.
  - right. eauto.
  - cbn [Model.run fst] in Hl.
    destruct (IH _ _ _ _ Hl Hx) as [(st' & A' & Hin & Hi & Ht)|(l0 & Hl0 & Hx0)].
    + left. exists st', A'. split; [by right|done].
    + unfold Model.step in Hl0. cbn [fst] in Hl0.
      destruct (decide (i = Z.to_nat (Model.set_index s b A))) as [->|Hne].
      * apply list_lookup_insert_Some in Hl0 as [(_ & <- & Hlt)|[? _]]; [|done].
        apply access_members in Hx0 as [Ht|Hin].
        -- left. exists st, A. split; [by left|done].
        -- right. destruct (c !! Z.to_nat (Model.set_index s b A)) as [l1|];
             [eauto|by apply elem_of_nil in Hin].
      * rewrite list_lookup_insert_ne in Hl0 by done. right. eauto.
Qed.

(** X21: an access to a block that no earlier event of the trace accessed
    (no earlier event has both its set index and its tag, as [main]
    computes them) is never a hit: in verbose mode its line ends in [miss]
    or [miss eviction]. *)
Theorem first_access_misses fuel v s E b pre e post grants :
  0 ≤ s → 0 ≤ b → s + b < 64 → 1 ≤ E → E ≠ UNSET → v ≠ 0 →
  valid_trace (pre ++ e :: post) = true →
  Z.of_nat (length (pre ++ e :: post)) ≤ INT_MAX →
  (2 * Z.to_nat E < fuel)%nat →
  (Z.to_nat (2 ^ s) + length (pre ++ e :: post) + 2 ≤ grants)%nat →
  (∀ e', e' ∈ pre →
     which_set (ev_address e') b (wrap_ulong (Z.shiftl 1 s))
     = which_set (ev_address e) b (wrap_ulong (Z.shiftl 1 s)) →
     which_cache_line (ev_address e') b s ≠ which_cache_line (ev_address e) b s) →
  ∃ m msg,
    main fuel v s E b true (Some (pre ++ e :: post)) (boot grants) = Ok 0 m
    ∧ stdout m !! length pre
      = Some (VerboseLine (ev_operator e) (ev_address e) (ev_size e) msg)
    ∧ (msg = "miss"%string ∨ msg = "miss eviction"%string).
Proof.
  intros Hs Hb Hw HE1 HE Hv Hvalid Hlen Hf Hg Hnew.
  destruct (main_run fuel v s E b (pre ++ e :: post) grants)
    as (bs & k & g & Hmain & _); [by split|done..|].
  set (trace := pre ++ e :: post) in *.
  assert (He : trace !! length pre = Some e) by (by apply list_lookup_middle).
  assert (Hlos : length (snd (Model.run s E b (accesses trace) (Model.empty s)))
                 = length trace) by (by rewrite run_length, accesses_length).
  set (c := fst (Model.run s E b (accesses pre) (Model.empty s))).
  set (A := ev_address e).
  assert (Ho : snd (Model.run s E b (accesses trace) (Model.empty s)) !! length pre
               = Some (snd (Model.step s E b (is_store (ev_operator e)) A c))).
  { unfold trace, accesses. rewrite fmap_app, fmap_cons.
    rewrite run_app. cbn [snd].
    rewrite lookup_app_r by (rewrite run_length, length_fmap; lia).
    rewrite run_length, length_fmap, Nat.sub_diag. reflexivity. }
  assert (Hmiss : Model.is_hit (snd (Model.step s E b (is_store (ev_operator e)) A c))
                  = false).
  { unfold Model.step. cbn [snd]. unfold Model.access.
    set (i := Z.to_nat (Model.set_index s b A)).
    assert (Hl : Model.lookup (Model.tag_of s b A) (default [] (c !! i)) = None).
    { apply lookup_None_tags. intros (x & Hx & Hin)%list_elem_of_fmap.
      destruct (c !! i) as [l|] eqn:Hci; [|by apply elem_of_nil in Hin].
      cbn in Hin.
      destruct (run_members _ _ _ _ _ _ _ _ Hci Hin)
        as [(st' & A' & Hin' & Hi' & Ht')|(l0 & Hl0 & Hx0)].
      - apply list_elem_of_fmap in Hin' as (e' & [= -> ->] & He').
        apply (Hnew e' He').
        + rewrite set_count, !which_set_spec by lia.
          pose proof (set_index_range (ev_address e') s b Hs).
          pose proof (set_index_range A s b Hs). fold A. unfold i in Hi'. lia.
        + rewrite !which_cache_line_spec by lia. fold A. congruence.
      - unfold Model.empty in Hl0. apply lookup_replicate in Hl0 as [-> _].
        by apply elem_of_nil in Hx0. }
    rewrite Hl. unfold Model.insert.
    by destruct (Z.of_nat (length (default [] (c !! i))) <? E). }
  eexists _, _. split; [exact Hmain|]. cbn [stdout]. split.
  - rewrite lookup_app_l
      by (rewrite verbose_lines_length by done; by eapply lookup_lt_Some).
    by apply verbose_lines_lookup.
  - destruct (snd (Model.step s E b (is_store (ev_operator e)) A c));
      cbn in Hmiss |- *; [done|by left|by right].
Qed.

Lemma first_access_misses_witness :
  ∃ m msg,
    main 5 1 1 2 4 true
      (Some ([Event "L" 0 1; Event "S" 32 1] ++ Event "L" 64 4 :: [])) (boot 7)
    = Ok 0 m
    ∧ stdout m !! length [Event "L" 0 1; Event "S" 32 1]
      = Some (VerboseLine "L" 64 4 msg)
    ∧ (msg = "miss"%string ∨ msg = "miss eviction"%string).
Proof.
  apply (first_access_misses 5 1 1 2 4 [Event "L" 0 1; Event "S" 32 1]
           (Event "L" 64 4) [] 7);
    try first [ reflexivity | lia | (unfold UNSET; lia) | (unfold INT_MAX; cbn; lia)
              | (cbn; lia) ].
  intros e' [->|[->|?%elem_of_nil]%elem_of_cons]%elem_of_cons; [..|done];
    vm_compute; congruence.
Defined.

(** ** Traces without stores *)

Lemma lookup_found t l x r : Model.lookup t l = Some (x, r) → x ∈ l.
Proof.
  revert x r. induction l as [|z l IH]; intros x r; cbn; [done|].
  destruct (Model.tag z =? t).
  - intros [= <- <-]. by left.
  - destruct (Model.lookup t l) as [[x' r']|]; [|done].
    intros [= <- <-]. right. by eapply IH.
Qed.

Lemma access_clean E t l :
  (∀ x, x ∈ l → Model.dirty x = false) →
  (∀ x, x ∈ fst (Model.access E false t l) → Model.dirty x = false)
  ∧ Model.is_dirty_eviction (snd (Model.access E false t l)) = false.
Proof.
  intros Hl. unfold Model.access, Model.insert.
  destruct (Model.lookup t l) as [[y r]|] eqn:Hlook.
  - cbn. split; [|done]. intros x [->|Hx]%elem_of_cons.
    + cbn. rewrite orb_false_r. apply Hl. by eapply lookup_found.
    + apply Hl. by eapply lookup_rest.
  - destruct (Z.of_nat (length l) <? E); cbn.
    + split; [|done]. intros x [->|Hx]%elem_of_cons; [done|by apply Hl].
    + destruct l as [|z l _] using rev_ind.
      * split; [|done]. by intros x [->|?%elem_of_nil]%elem_of_cons.
      * rewrite removelast_last, last_snoc. cbn. split.
        -- intros x [->|Hx]%elem_of_cons; [done|].
           apply Hl, elem_of_app. by left.
        -- apply Hl, elem_of_app. right. by apply list_elem_of_singleton.
Qed.

Lemma run_clean s E b trace :
  ∀ c,
  (∀ st A, (st, A) ∈ trace → st = false) →
  (∀ l x, l ∈ c → x ∈ l → Model.dirty x = false) →
  (∀ l x, l ∈ fst (Model.run s E b trace c) → x ∈ l → Model.dirty x = false)
  ∧ ∀ o, o ∈ snd (Model.run s E b trace c) → Model.is_dirty_eviction o = false.
Proof.
  induction trace as [|[st A] trace IH]; intros c Hloads Hc.
  - split; [done|]. by intros o ?%elem_of_nil.
  - assert (st = false) as -> by (eapply Hloads; by left).
    cbn [Model.run fst snd].
    set (i := Z.to_nat (Model.set_index s b A)).
    assert (Hci : ∀ x, x ∈ default [] (c !! i) → Model.dirty x = false).
    { intros x Hx. destruct (c !! i) as [l|] eqn:Hl; [|by apply elem_of_nil in Hx].
      eapply Hc; [|exact Hx]. by eapply list_elem_of_lookup_2. }
    destruct (access_clean E (Model.tag_of s b A) _ Hci) as [Hfst Hsnd].
    destruct (IH (fst (Model.step s E b false A c))) as [IH1 IH2].
    + intros st' A' Hin. eapply Hloads. by right.
    + unfold Model.step. cbn [fst]. fold i. intros l x Hl Hx.
      apply list_elem_of_lookup in Hl as [j Hj].
      destruct (decide (j = i)) as [->|Hne].
      * apply list_lookup_insert_Some in Hj as [(_ & <- & _)|[? _]]; [|done].
        by apply Hfst.
      * rewrite list_lookup_insert_ne in Hj by done.
        eapply Hc; [|exact Hx]. by eapply list_elem_of_lookup_2.
    + split; [done|]. intros o [->|Ho]%elem_of_cons; [|by apply IH2].
      unfold Model.step. cbn [snd]. exact Hsnd.
Qed.

Lemma count_none f os :
  (∀ o, o ∈ os → f o = false) → Model.count f os = 0.
Proof.
  intros Hf. unfold Model.count. induction os as [|o os IH]; [done|].
  rewrite filter_cons, decide_False.
  - apply IH. intros o' Ho'. apply Hf. by right.
  - rewrite Hf; [done|by left].
Qed.

Lemma resident_dirty_clean c :
  (∀ l x, l ∈ c → x ∈ l → Model.dirty x = false) → Model.resident_dirty c = 0.
Proof.
  intros Hc. unfold Model.resident_dirty.
  assert (Hall : ∀ x, x ∈ concat c → Model.dirty x = false).
  { intros x Hx. apply list_elem_of_In, in_concat in Hx as (l & Hl & Hx).
    eapply Hc; by apply list_elem_of_In. }
  induction (concat c) as [|x xs IH]; [done|].
  rewrite filter_cons, decide_False.
  - apply IH. intros y Hy. apply Hall. by right.
  - rewrite Hall; [done|by left].
Qed.

(** X22: a run on a trace of loads only reports no dirty data: the dirty
    bytes and the dirty evicted bytes of the summary are both 0, for every
    block size, evictions or not. *)
Theorem load_only_trace_reports_no_dirty_bytes fuel v s E b trace grants :
  0 ≤ s → 0 ≤ b → s + b < 64 → 1 ≤ E → E ≠ UNSET →
  (∀ e, e ∈ trace → ev_operator e = "L"%char) →
  Z.of_nat (length trace) ≤ INT_MAX →
  (2 * Z.to_nat E < fuel)%nat →
  (Z.to_nat (2 ^ s) + length trace + 2 ≤ grants)%nat →
  ∃ m st,
    main fuel v s E b true (Some trace) (boot grants) = Ok 0 m
    ∧ last (stdout m) = Some (Summary st)
    ∧ dirty_bytes st = 0
    ∧ dirty_evictions st = 0.
Proof.
  intros Hs Hb Hw HE1 HE Hloads Hlen Hf Hg.
  assert (Hvalid : valid_trace trace = true).
  { unfold valid_trace. apply forallb_forall. intros e He%list_elem_of_In.
    by rewrite (Hloads e He). }
  destruct (main_run fuel v s E b trace grants) as (bs & k & g & Hmain & _);
    [by split|done..|].
  destruct (run_clean s E b (accesses trace) (Model.empty s)) as [Hfst Hsnd].
  { intros st A (e & [= -> ->] & He)%list_elem_of_fmap.
    unfold is_store. by rewrite (Hloads e He). }
  { intros l x [-> _]%elem_of_replicate. by intros ?%elem_of_nil. }
  eexists _, _. split; [exact Hmain|]. cbn [stdout].
  split; [apply last_snoc|].
  rewrite counters_after_count.
  cbn [summary_of dirty_bytes dirty_evictions dirty_eviction].
  rewrite (resident_dirty_clean _ Hfst), (count_none _ _ Hsnd).
  split; reflexivity.
Qed.

Lemma load_only_trace_reports_no_dirty_bytes_witness :
  ∃ m st,
    main 5 0 1 2 4 true
      (Some [Event "L" 0 1; Event "L" 32 1; Event "L" 64 1]) (boot 7)
    = Ok 0 m
    ∧ last (stdout m) = Some (Summary st)
    ∧ dirty_bytes st = 0
    ∧ dirty_evictions st = 0.
Proof.
  apply (load_only_trace_reports_no_dirty_bytes 5 0 1 2 4
           [Event "L" 0 1; Event "L" 32 1; Event "L" 64 1] 7);
    try first [ lia | (unfold UNSET; lia) | (unfold INT_MAX; cbn; lia)
              | (cbn; lia) ].
  intros e [->|[->|[->|?%elem_of_nil]%elem_of_cons]%elem_of_cons]%elem_of_cons;
    done.
Defined.

(** ** Missing options *)

(** X23: the options are checked in the order [s], [E], [b], trace file,
    before anything is allocated.  When one is missing (for [s], [E] and
    [b]: when its value is [0x7F800001], given or not), [main] names the
    first missing one, prints nothing else, leaves the memory as it is and
    returns 0. *)
Theorem missing_option_is_reported_first fuel v s E b t_initialized t m :
  s = UNSET ∨ E = UNSET ∨ b = UNSET ∨ t_initialized = false →
  main fuel v s E b t_initialized t m
  = Ok 0
      (State (blocks m) (sets m) (arrays m) (records m) (brk m) (grants_left m)
         (stdout m
          ++ [MissingArgument
                (if s =? UNSET then "s"
                 else if E =? UNSET then "E"
                 else if b =? UNSET then "b"
                 else "tracefile")])).
Proof.
  intros Hmissing. unfold main.
  destruct (Z.eqb_spec s UNSET) as [_|Hs]; [reflexivity|].
  destruct (Z.eqb_spec E UNSET) as [_|HE]; [reflexivity|].
  destruct (Z.eqb_spec b UNSET) as [_|Hb]; [reflexivity|].
  destruct Hmissing as [?|[?|[?|Ht]]]; [done..|]. rewrite Ht. reflexivity.
Qed.

Lemma missing_option_is_reported_first_witness :
  main 0 1 3 UNSET UNSET false None (boot 4)
  = Ok 0 (State ∅ ∅ ∅ ∅ 1%positive 4 [MissingArgument "E"]).
Proof.
  apply (missing_option_is_reported_first 0 1 3 UNSET UNSET false None (boot 4)).
  right. by left.
Defined.

(** ** The insertion code of [main] *)

(** X24: a miss in a set whose [size] is below [E] allocates one block,
    gives it the tag of the access and the dirty flag 1 for a store and 0
    otherwise, and links it in front of the list; the blocks already there
    are not touched, and [size] grows by one. *)
Theorem miss_links_new_block_at_head fuel E bs ss ar rc k g out cache arr i sp st l
    line operator de :
  ar !! cache = Some arr → arr !! i = Some (Some sp) → ss !! sp = Some st →
  chain bs (s_head st) l →
  s_size st < E →
  (∀ a, is_Some (bs !! a) → (a < k)%positive) →
  ∃ bs' st',
    main_insert fuel (Some cache) E (Z.of_nat i) line operator de
      (State bs ss ar rc k (S g) out)
    = Ok (1, 0, de) (State bs' (<[sp := st']> ss) ar rc (Pos.succ k) g out)
    ∧ chain bs' (s_head st') (k :: l)
    ∧ payload <$> bs' !! k = Some (line, if Ascii.eqb operator "S" then 1 else 0)
    ∧ (∀ a, a ≠ k → bs' !! a = bs !! a)
    ∧ s_size st' = wrap_int (s_size st + 1).
Proof.
  intros Har Hi Hs Hch Hlt Hfresh.
  pose proof (fresh_not_in _ _ _ _ _ Hfresh Hch) as Hk.
  exists (<[k := CacheBlock line (if Ascii.eqb operator "S" then 1 else 0)
                   (s_head st)]> bs),
         (CacheSet (Some k) (Some k) (wrap_int (s_size st + 1)) (s_tail st)).
  split_and!.
  - unfold main_insert. do 2 step. rewrite (proj2 (Z.ltb_lt _ _)) by done.
    step_by (apply new_cache_block_run).
    step.
    step_by (eapply cache_set_insert_head_run; solve_lookup).
    step_by (eapply set_dirty_run; solve_lookup).
    reduce_state. done.
  - split; [done|]. eexists. split; [apply lookup_insert_eq|].
    by apply lseg_insert_ne.
  - by rewrite lookup_insert_eq.
  - intros a Ha. by rewrite lookup_insert_ne.
  - done.
Qed.

Lemma three_block_fresh a :
  is_Some (blocks three_block_set !! a) → (a < 6)%positive.
Proof.
  intros [x Hx].
  destruct (decide (a = 3%positive)) as [->|?]; [lia|].
  destruct (decide (a = 4%positive)) as [->|?]; [lia|].
  destruct (decide (a = 5%positive)) as [->|?]; [lia|].
  unfold three_block_set in Hx. cbn [blocks] in Hx.
  rewrite !lookup_insert_ne in Hx by done.
  by rewrite lookup_singleton_ne in Hx.
Qed.

Lemma miss_links_new_block_at_head_witness :
  ∃ bs' st',
    main_insert 0 (Some 1%positive) 4 (Z.of_nat 0) 5 "S"%char 0
      (State (blocks three_block_set) (sets three_block_set)
         (arrays three_block_set) ∅ 6%positive 1 [])
    = Ok (1, 0, 0)
         (State bs' (<[2%positive := st']> (sets three_block_set))
            (arrays three_block_set) ∅ 7%positive 0 [])
    ∧ chain bs' (s_head st') [6%positive; 3%positive; 4%positive; 5%positive]
    ∧ payload <$> bs' !! 6%positive = Some (5, 1)
    ∧ (∀ a, a ≠ 6%positive → bs' !! a = blocks three_block_set !! a)
    ∧ s_size st' = wrap_int (3 + 1).
Proof.
  apply (miss_links_new_block_at_head 0 4 (blocks three_block_set)
           (sets three_block_set) (arrays three_block_set) ∅ 6%positive O []
           1%positive [Some 2%positive] O 2%positive
           (CacheSet (Some 3%positive) (Some 4%positive) 3 None)
           [3%positive; 4%positive; 5%positive] 5 "S"%char 0).
  - reflexivity.
  - reflexivity.
  - reflexivity.
  - exact three_block_chain.
  - cbn. lia.
  - exact three_block_fresh.
Defined.

(** X25: a miss in a set whose [size] has reached [E] and that holds at
    least two blocks evicts the last block of the list, the one used
    least recently: that block is freed, [dirty_eviction] grows by one when
    its dirty flag was set, the other blocks keep their order, tags and
    dirty flags, and the new block is linked in front of them. *)
Theorem eviction_frees_last_block fuel E bs ss ar rc k g out cache arr i sp st l y z
    bz line operator de :
  ar !! cache = Some arr → arr !! i = Some (Some sp) → ss !! sp = Some st →
  chain bs (s_head st) (l ++ [y; z]) → bs !! z = Some bz →
  E ≤ s_size st →
  (∀ a, is_Some (bs !! a) → (a < k)%positive) →
  (length l + 1 < fuel)%nat →
  ∃ bs' st',
    main_insert fuel (Some cache) E (Z.of_nat i) line operator de
      (State bs ss ar rc k (S g) out)
    = Ok (0, 1, if negb (b_dirty bz =? 0) then wrap_ulong (de + 1) else de)
         (State bs' (<[sp := st']> ss) ar rc (Pos.succ k) g out)
    ∧ chain bs' (s_head st') (k :: l ++ [y])
    ∧ bs' !! z = None
    ∧ payload <$> bs' !! k = Some (line, if Ascii.eqb operator "S" then 1 else 0)
    ∧ (∀ a, a ∈ l ++ [y] → payload <$> bs' !! a = payload <$> bs !! a)
    ∧ (∀ a, a ∉ l ++ [y; z] → a ≠ k → bs' !! a = bs !! a).
Proof.
  intros Har Hi Hs Hch Hz Hge Hfresh Hf.
  pose proof (fresh_not_in _ _ _ _ _ Hfresh Hch) as Hk.
  pose proof (chain_NoDup _ _ _ Hch) as Hnd.
  change (l ++ [y; z]) with (l ++ [y] ++ [z]) in Hch, Hnd, Hk.
  rewrite app_assoc in Hch, Hnd, Hk.
  pose proof Hch as Hch0. apply lseg_snoc in Hch0 as (Hseg & bz' & Hz' & Hnz).
  rewrite Hz in Hz'. injection Hz' as <-.
  apply lseg_snoc in Hseg as (Hseg & by_ & Hy & Hny).
  apply NoDup_snoc_inv in Hnd as (Hnd & Hzl).
  apply NoDup_snoc_inv in Hnd as (Hnd & Hyl).
  assert (Hyz : y ≠ z).
  { intros ->. apply Hzl. apply elem_of_app. right. by apply list_elem_of_singleton. }
  assert (Hzl1 : z ∉ l).
  { intros ?. apply Hzl. apply elem_of_app. by left. }
  assert (Hkz : k ≠ z).
  { intros ->. apply Hk. apply elem_of_app. right. by apply list_elem_of_singleton. }
  assert (Hky : k ≠ y).
  { intros ->. apply Hk. rewrite !elem_of_app, !list_elem_of_singleton. auto. }
  assert (Hkl : k ∉ l).
  { intros ?. apply Hk. rewrite !elem_of_app. auto. }
  set (d := if Ascii.eqb operator "S" then 1 else 0).
  set (bs' := <[k := CacheBlock line d (s_head st)]>
                (delete z (<[y := CacheBlock (b_tag by_) (b_dirty by_) None]>
                             (<[k := CacheBlock line d None]> bs)))).
  exists bs', (CacheSet (Some k) (Some k) (wrap_int (s_size st + 1)) (Some y)).
  assert (Hag : ∀ a, a ∈ l → bs' !! a = bs !! a).
  { intros a Ha. unfold bs'.
    rewrite lookup_insert_ne by (intros ->; done).
    rewrite lookup_delete_ne by (intros ->; done).
    rewrite lookup_insert_ne by (intros ->; done).
    by rewrite lookup_insert_ne by (intros ->; done). }
  assert (Hby : bs' !! y = Some (CacheBlock (b_tag by_) (b_dirty by_) None)).
  { unfold bs'. rewrite lookup_insert_ne by done.
    rewrite lookup_delete_ne by done. apply lookup_insert_eq. }
  split_and!.
  - unfold main_insert. do 2 step. rewrite (proj2 (Z.ltb_ge _ _)) by done.
    step_by (apply new_cache_block_run).
    step.
    step_by (eapply dirty_tail_run with (l := l ++ [y]) (z := z);
             [ solve_lookup
             | reduce_state; apply lseg_insert_ne; [done | exact Hch]
             | solve_lookup
             | rewrite length_app; cbn; lia ]).
    assert (Hmark :
      (if Ascii.eqb operator "L" then wr_dirty (Some k) 0
       else if Ascii.eqb operator "S" then wr_dirty (Some k) 1 else ret tt)
        (State (<[k := CacheBlock line 0 None]> bs) ss ar rc (Pos.succ k) g out)
      = Ok tt (State (<[k := CacheBlock line d None]> bs) ss ar rc (Pos.succ k) g
                 out)).
    { subst d. destruct (Ascii.eqb operator "L") eqn:HL.
      - assert (Ascii.eqb operator "S" = false) as ->.
        { apply Ascii.eqb_eq in HL. by subst. }
        erewrite wr_dirty_run by solve_lookup. reduce_state.
        by rewrite insert_insert_eq.
      - destruct (Ascii.eqb operator "S") eqn:HS; [|done].
        erewrite wr_dirty_run by solve_lookup. reduce_state.
        by rewrite insert_insert_eq. }
    step_by (exact Hmark). step.
    step_by (eapply cache_set_remove_tail_run with (l := l) (y := y) (z := z);
             [ solve_lookup
             | reduce_state; apply lseg_insert_ne; [done | exact Hseg]
             | solve_lookup | done | solve_lookup | done | done | lia ]).
    step.
    step_by (eapply cache_set_insert_head_run;
             [ solve_lookup
             | reduce_state; rewrite lookup_delete_ne by done;
               rewrite lookup_insert_ne by done; apply lookup_insert_eq ]).
    done.
  - split; [done|]. eexists. split; [apply lookup_insert_eq|]. cbn.
    apply lseg_snoc. split; [|eauto].
    eapply lseg_agree; [|exact Hseg]. done.
  - unfold bs'. rewrite lookup_insert_ne by done. apply lookup_delete_eq.
  - unfold bs'. by rewrite lookup_insert_eq.
  - intros a [Ha| ->%list_elem_of_singleton]%elem_of_app.
    + by rewrite Hag.
    + by rewrite Hby, Hy.
  - intros a Ha Hak.
    assert (a ≠ y ∧ a ≠ z) as [Hay Haz].
    { split; intros ->; apply Ha; rewrite elem_of_app; right; set_solver. }
    unfold bs'. rewrite lookup_insert_ne by done.
    rewrite lookup_delete_ne by done. rewrite lookup_insert_ne by done.
    by rewrite lookup_insert_ne.
Qed.

Lemma eviction_frees_last_block_witness :
  ∃ bs' st',
    main_insert 3 (Some 1%positive) 3 (Z.of_nat 0) 5 "L"%char 0
      (State (blocks three_block_set) (sets three_block_set)
         (arrays three_block_set) ∅ 6%positive 1 [])
    = Ok (0, 1, if negb (0 =? 0) then wrap_ulong (0 + 1) else 0)
         (State bs' (<[2%positive := st']> (sets three_block_set))
            (arrays three_block_set) ∅ 7%positive 0 [])
    ∧ chain bs' (s_head st') (6%positive :: [3%positive] ++ [4%positive])
    ∧ bs' !! 5%positive = None
    ∧ payload <$> bs' !! 6%positive = Some (5, 0)
    ∧ (∀ a, a ∈ [3%positive] ++ [4%positive]
            → payload <$> bs' !! a = payload <$> blocks three_block_set !! a)
    ∧ (∀ a, a ∉ [3%positive] ++ [4%positive; 5%positive] → a ≠ 6%positive
            → bs' !! a = blocks three_block_set !! a).
Proof.
  apply (eviction_frees_last_block 3 3 (blocks three_block_set)
           (sets three_block_set) (arrays three_block_set) ∅ 6%positive O []
           1%positive [Some 2%positive] O 2%positive
           (CacheSet (Some 3%positive) (Some 4%positive) 3 None)
           [3%positive] 4%positive 5%positive (CacheBlock 11 0 None) 5 "L"%char 0).
  - reflexivity.
  - reflexivity.
  - reflexivity.
  - exact three_block_chain.
  - reflexivity.
  - cbn. lia.
  - exact three_block_fresh.
  - cbn. lia.
Defined.

(** ** Least recently used *)

Lemma filter_ne_id (t : Z) (l : list Z) :
  t ∉ l → filter (fun x => x ≠ t) l = l.
Proof.
  induction l as [|a l IH]; [done|].
  intros [Hne Hnin]%not_elem_of_cons.
  rewrite filter_cons_True by done. by rewrite IH.
Qed.

Lemma lookup_filter t l x r :
  NoDup (Model.tag <$> l) → Model.lookup t l = Some (x, r) →
  Model.tag <$> r = filter (fun y => y ≠ t) (Model.tag <$> l).
Proof.
  revert x r. induction l as [|y l IH]; intros x r; cbn; [done|].
  intros [Hy Hnd]%NoDup_cons.
  destruct (Z.eqb_spec (Model.tag y) t) as [Heq|Hne].
  - intros [= <- <-]. rewrite decide_False by (intros ?; done).
    rewrite filter_ne_id; [done|]. by rewrite <- Heq.
  - destruct (Model.lookup t l) as [[x' r']|] eqn:Hl; [|done].
    intros [= <- <-]. rewrite decide_True by done. cbn.
    f_equal. by eapply IH.
Qed.

Lemma filter_take_in (t : Z) (full : list Z) :
  NoDup full → ∀ n, t ∈ take n full →
  filter (fun x => x ≠ t) (take n full)
  = take (n - 1) (filter (fun x => x ≠ t) full).
Proof.
  induction full as [|a f IH]; intros Hnd n Hin.
  - rewrite take_nil in Hin. by apply elem_of_nil in Hin.
  - apply NoDup_cons in Hnd as [Ha Hnd].
    destruct n as [|n]; [by apply elem_of_nil in Hin|].
    cbn [take]. cbn [take] in Hin.
    replace (S n - 1)%nat with n by lia.
    destruct (decide (a = t)) as [->|Hne].
    + rewrite !filter_cons_False by (intros ?; done).
      rewrite (filter_ne_id t f) by done.
      apply filter_ne_id. intros Hin'. apply Ha.
      rewrite <- (take_drop n f). apply elem_of_app. by left.
    + apply elem_of_cons in Hin as [?|Hin]; [done|].
      rewrite !filter_cons_True by done.
      destruct n as [|n]; [by apply elem_of_nil in Hin|].
      rewrite (IH Hnd (S n) Hin).
      by replace (S n - 1)%nat with n by lia.
Qed.

Lemma take_filter_notin (t : Z) (full : list Z) :
  ∀ n, t ∉ take n full →
  take n (filter (fun x => x ≠ t) full) = take n full.
Proof.
  induction full as [|a f IH]; intros n Hnin; [done|].
  destruct n as [|n]; [done|].
  cbn [take] in Hnin. apply not_elem_of_cons in Hnin as [Hne Hnin].
  rewrite filter_cons_True by done. cbn [take]. f_equal. by apply IH.
Qed.

(** One access to one set of the list-based cache, against the order of
    last use. *)
Lemma access_recent E st t l full :
  1 ≤ E → NoDup full →
  Model.tag <$> l = take (Z.to_nat E) full →
  Model.tag <$> fst (Model.access E st t l)
  = take (Z.to_nat E) (t :: filter (fun x => x ≠ t) full)
  ∧ (Model.is_hit (snd (Model.access E st t l)) = true
     ↔ t ∈ take (Z.to_nat E) full).
Proof.
  intros HE Hnd Htags.
  destruct (Z.to_nat E) as [|n] eqn:Hn; [lia|].
  assert (Hndl : NoDup (Model.tag <$> l)).
  { rewrite Htags. rewrite <- (take_drop (S n) full) in Hnd.
    by apply NoDup_app in Hnd as [? _]. }
  unfold Model.access, Model.insert.
  destruct (Model.lookup t l) as [[x r]|] eqn:Hl.
  - assert (Hin : t ∈ take (S n) full).
    { rewrite <- Htags, <- (lookup_tag _ _ _ _ Hl).
      apply list_elem_of_fmap_2. by eapply lookup_found. }
    cbn [fst snd Model.is_hit]. split; [|done].
    rewrite fmap_cons. cbn [Model.tag take]. rewrite (lookup_tag _ _ _ _ Hl).
    f_equal. rewrite (lookup_filter _ _ _ _ Hndl Hl), Htags.
    rewrite filter_take_in by done. by replace (S n - 1)%nat with n by lia.
  - assert (Hnin : t ∉ take (S n) full).
    { rewrite <- Htags. by apply lookup_None_tags. }
    assert (Hlen : length l = (S n `min` length full)%nat).
    { by rewrite <- (length_fmap Model.tag), Htags, length_take. }
    destruct (Z.ltb_spec (Z.of_nat (length l)) E) as [Hlt|Hge];
      cbn [fst snd Model.is_hit]; (split; [|done]).
    + rewrite fmap_cons. cbn [Model.tag take]. f_equal.
      assert (Hall : take (S n) full = full) by (apply take_ge; lia).
      rewrite Htags, Hall. rewrite Hall in Hnin.
      rewrite filter_ne_id by done. symmetry. apply take_ge. lia.
    + rewrite fmap_cons. cbn [Model.tag take]. f_equal.
      assert (Hrl : Model.tag <$> removelast l = removelast (Model.tag <$> l)).
      { clear. induction l as [|a [|a' l] IH]; [done..|].
        cbn [removelast fmap list_fmap] in *. by rewrite IH. }
      rewrite Hrl, Htags, removelast_firstn by lia.
      transitivity (take n (take (S n) full)).
      { rewrite take_take. f_equal. lia. }
      rewrite <- (take_filter_notin t full (S n)) by done.
      rewrite take_take. f_equal. lia.
Qed.

Lemma recent_tags_snoc s b pre e ws :
  recent_tags s b (pre ++ [e]) ws
  = if which_set (ev_address e) b (wrap_ulong (Z.shiftl 1 s)) =? ws
    then which_cache_line (ev_address e) b s
         :: filter (fun t => t ≠ which_cache_line (ev_address e) b s)
              (recent_tags s b pre ws)
    else recent_tags s b pre ws.
Proof. unfold recent_tags. by rewrite foldl_snoc. Qed.

Lemma recent_tags_NoDup s b pre ws : NoDup (recent_tags s b pre ws).
Proof.
  induction pre as [|e pre IH] using rev_ind; [constructor|].
  rewrite recent_tags_snoc.
  destruct (which_set (ev_address e) b (wrap_ulong (Z.shiftl 1 s)) =? ws); [|done].
  apply NoDup_cons. split; [|by apply NoDup_filter].
  intros [? _]%list_elem_of_filter. done.
Qed.

(** After the events [pre] every set of the list-based cache holds the
    [E] most recently used tags of its index, in that order. *)
Lemma run_recent s E b pre ws :
  0 ≤ s → 0 ≤ b → s + b < 64 → 1 ≤ E → 0 ≤ ws < 2 ^ s →
  Model.tag
    <$> default [] (fst (Model.run s E b (accesses pre) (Model.empty s))
                    !! Z.to_nat ws)
  = take (Z.to_nat E) (recent_tags s b pre ws).
Proof.
  intros Hs Hb Hw HE Hws.
  induction pre as [|e pre IH] using rev_ind.
  - unfold Model.empty. cbn. rewrite lookup_replicate_2 by lia.
    by rewrite take_nil.
  - rewrite recent_tags_snoc.
    unfold accesses in *. rewrite fmap_app, run_app.
    cbn [fst fmap list_fmap Model.run].
    rewrite set_count, which_set_spec, which_cache_line_spec by lia.
    fold (accesses pre) in *.
    set (c := fst (Model.run s E b (accesses pre) (Model.empty s))) in *.
    pose proof (set_index_range (ev_address e) s b Hs) as Hidx.
    assert (Hlenc : length c = Z.to_nat (2 ^ s)).
    { unfold c. rewrite run_cache_length. unfold Model.empty.
      by rewrite length_replicate. }
    unfold Model.step. cbn [fst].
    destruct (Z.eqb_spec (Model.set_index s b (ev_address e)) ws) as [->|Hne].
    + rewrite list_lookup_insert_eq by lia. cbn [default].
      apply access_recent; [done|apply recent_tags_NoDup|done].
    + rewrite list_lookup_insert_ne by lia. done.
Qed.

(** X26: the replacement is least-recently-used.  An access hits exactly
    when its tag is among the [E] tags of its set that were used most
    recently before it: in verbose mode its line ends in [hit] in that
    case, and in [miss] or [miss eviction] otherwise. *)
Theorem hit_iff_recently_used fuel v s E b pre e post grants :
  0 ≤ s → 0 ≤ b → s + b < 64 → 1 ≤ E → E ≠ UNSET → v ≠ 0 →
  valid_trace (pre ++ e :: post) = true →
  Z.of_nat (length (pre ++ e :: post)) ≤ INT_MAX →
  (2 * Z.to_nat E < fuel)%nat →
  (Z.to_nat (2 ^ s) + length (pre ++ e :: post) + 2 ≤ grants)%nat →
  ∃ m msg,
    main fuel v s E b true (Some (pre ++ e :: post)) (boot grants) = Ok 0 m
    ∧ stdout m !! length pre
      = Some (VerboseLine (ev_operator e) (ev_address e) (ev_size e) msg)
    ∧ (msg = "hit"%string
       ↔ which_cache_line (ev_address e) b s
         ∈ take (Z.to_nat E)
             (recent_tags s b pre
                (which_set (ev_address e) b (wrap_ulong (Z.shiftl 1 s))))).
Proof.
  intros Hs Hb Hw HE1 HE Hv Hvalid Hlen Hf Hg.
  destruct (main_run fuel v s E b (pre ++ e :: post) grants)
    as (bs & k & g & Hmain & _); [by split|done..|].
  set (trace := pre ++ e :: post) in *.
  assert (He : trace !! length pre = Some e) by (by apply list_lookup_middle).
  assert (Hlos : length (snd (Model.run s E b (accesses trace) (Model.empty s)))
                 = length trace) by (by rewrite run_length, accesses_length).
  set (c := fst (Model.run s E b (accesses pre) (Model.empty s))).
  set (A := ev_address e).
  assert (Ho : snd (Model.run s E b (accesses trace) (Model.empty s)) !! length pre
               = Some (snd (Model.step s E b (is_store (ev_operator e)) A c))).
  { unfold trace, accesses. rewrite fmap_app, fmap_cons.
    rewrite run_app. cbn [snd].
    rewrite lookup_app_r by (rewrite run_length, length_fmap; lia).
    rewrite run_length, length_fmap, Nat.sub_diag. reflexivity. }
  pose proof (set_index_range A s b Hs) as Hidx.
  pose proof (run_recent s E b pre (Model.set_index s b A) Hs Hb Hw HE1 Hidx)
    as Hrecent.
  fold c in Hrecent.
  destruct (access_recent E (is_store (ev_operator e)) (Model.tag_of s b A)
              (default [] (c !! Z.to_nat (Model.set_index s b A)))
              (recent_tags s b pre (Model.set_index s b A))
              HE1 (recent_tags_NoDup _ _ _ _) Hrecent) as [_ Hhit].
  eexists _, _. split; [exact Hmain|]. cbn [stdout]. split.
  - rewrite lookup_app_l
      by (rewrite verbose_lines_length by done; by eapply lookup_lt_Some).
    by apply verbose_lines_lookup.
  - rewrite set_count, which_set_spec, which_cache_line_spec by lia. fold A.
    rewrite <- Hhit. unfold Model.step. cbn [snd].
    destruct (snd (Model.access E (is_store (ev_operator e)) (Model.tag_of s b A)
                     (default [] (c !! Z.to_nat (Model.set_index s b A)))));
      cbn; split; done.
Qed.

Lemma hit_iff_recently_used_witness :
  ∃ m msg,
    main 5 1 1 2 4 true
      (Some ([Event "L" 0 1; Event "S" 32 1; Event "L" 64 1]
             ++ Event "L" 32 4 :: []))
      (boot 8)
    = Ok 0 m
    ∧ stdout m !! length [Event "L" 0 1; Event "S" 32 1; Event "L" 64 1]
      = Some (VerboseLine "L" 32 4 msg)
    ∧ (msg = "hit"%string
       ↔ which_cache_line 32 4 1
         ∈ take (Z.to_nat 2)
             (recent_tags 1 4 [Event "L" 0 1; Event "S" 32 1; Event "L" 64 1]
                (which_set 32 4 (wrap_ulong (Z.shiftl 1 1))))).
Proof.
  apply (hit_iff_recently_used 5 1 1 2 4
           [Event "L" 0 1; Event "S" 32 1; Event "L" 64 1] (Event "L" 32 4) [] 8);
    first [ reflexivity | lia | (unfold UNSET; lia) | (unfold INT_MAX; cbn; lia)
          | (cbn; lia) ].
Defined.
